(** * TaxiTrack: passenger counting, face tracking and trip ledger

    A shallow embedding of the counting core of the repository:

    - [Trip]             : src/trip_management/models.py
    - [PassengerCounter] : src/computer_vision/passenger_counter.py
    - [FaceTracker]      : src/face_tracking/face_tracker.py
    - [AntiFraud]        : src/face_tracking/anti_fraud_manager.py

    Conventions.  Python [int] is [Z] (unbounded).  A [datetime] is a [Z]
    counting microseconds, the resolution of [datetime]; every call of
    [datetime.now()], [time.time()] and [uuid.uuid4()] in the source is an
    explicit argument of the embedded function.  Methods that mutate [self]
    take the object and return the new one. *)

From Stdlib Require Import ZArith QArith Qabs Lia Ascii String.
From Stdlib Require Import DecimalString DecimalNat.
From stdpp Require Import base gmap strings list fin_maps.

Local Open Scope string_scope.
Local Open Scope list_scope.
Local Open Scope Z_scope.

(** Microseconds in a second, for [timedelta(seconds=...)] and
    [total_seconds()]. *)
Definition usec_per_sec : Z := 1000000.

(* ===================================================================== *)
(** ** trip_management/models.py *)
(* ===================================================================== *)

Module Trip.

Inductive TripStatus :=
| NOT_STARTED | ACTIVE | PAUSED | COMPLETED | CANCELLED | ERROR.

Inductive EventType :=
| TRIP_STARTED | TRIP_STOPPED | PASSENGER_ENTRY | PASSENGER_EXIT
| OVERLOAD_DETECTED | CAPACITY_WARNING | SYSTEM_ERROR | BACKEND_SYNC.

(** [Dict[str, Any]]: the only values the ledger itself stores are
    integers; a dict literal keeps its insertion order. *)
Definition Metadata := list (string * Z).

Record TripEvent := mkTripEvent {
  event_id : string;
  ev_trip_id : string;
  event_type : EventType;
  timestamp : Z;
  passenger_count : Z;
  metadata : Metadata
}.

Record t := mkTrip {
  trip_id : string;
  device_id : string;
  status : TripStatus;
  start_time : option Z;
  end_time : option Z;
  duration_seconds : option Z;
  current_passenger_count : Z;
  max_passenger_count : Z;
  total_entries : Z;
  total_exits : Z;
  max_capacity : Z;
  overload_events : Z;
  is_overloaded : bool;
  route_info : Metadata;
  events : list TripEvent;
  stats : Metadata;
  last_backend_sync : option Z;
  sync_status : string
}.

(** The field defaults of the pydantic model: [Trip(trip_id=..,
    device_id=..)] at clock reading [now]. *)
Definition new (tid did : string) (now : Z) : t :=
  {| trip_id := tid; device_id := did; status := NOT_STARTED;
     start_time := Some now; end_time := None; duration_seconds := None;
     current_passenger_count := 0; max_passenger_count := 0;
     total_entries := 0; total_exits := 0;
     max_capacity := 14; overload_events := 0; is_overloaded := false;
     route_info := []; events := []; stats := [];
     last_backend_sync := None; sync_status := "pending" |}.

Definition set_events (evs : list TripEvent) (tr : t) : t :=
  {| trip_id := trip_id tr; device_id := device_id tr; status := status tr;
     start_time := start_time tr; end_time := end_time tr;
     duration_seconds := duration_seconds tr;
     current_passenger_count := current_passenger_count tr;
     max_passenger_count := max_passenger_count tr;
     total_entries := total_entries tr; total_exits := total_exits tr;
     max_capacity := max_capacity tr; overload_events := overload_events tr;
     is_overloaded := is_overloaded tr; route_info := route_info tr;
     events := evs; stats := stats tr;
     last_backend_sync := last_backend_sync tr;
     sync_status := sync_status tr |}.

Definition set_counts (cur mx : Z) (tr : t) : t :=
  {| trip_id := trip_id tr; device_id := device_id tr; status := status tr;
     start_time := start_time tr; end_time := end_time tr;
     duration_seconds := duration_seconds tr;
     current_passenger_count := cur;
     max_passenger_count := mx;
     total_entries := total_entries tr; total_exits := total_exits tr;
     max_capacity := max_capacity tr; overload_events := overload_events tr;
     is_overloaded := is_overloaded tr; route_info := route_info tr;
     events := events tr; stats := stats tr;
     last_backend_sync := last_backend_sync tr;
     sync_status := sync_status tr |}.

Definition set_overload (flag : bool) (n : Z) (tr : t) : t :=
  {| trip_id := trip_id tr; device_id := device_id tr; status := status tr;
     start_time := start_time tr; end_time := end_time tr;
     duration_seconds := duration_seconds tr;
     current_passenger_count := current_passenger_count tr;
     max_passenger_count := max_passenger_count tr;
     total_entries := total_entries tr; total_exits := total_exits tr;
     max_capacity := max_capacity tr; overload_events := n;
     is_overloaded := flag; route_info := route_info tr;
     events := events tr; stats := stats tr;
     last_backend_sync := last_backend_sync tr;
     sync_status := sync_status tr |}.

Definition set_end (e : option Z) (s : TripStatus) (tr : t) : t :=
  {| trip_id := trip_id tr; device_id := device_id tr; status := s;
     start_time := start_time tr; end_time := e;
     duration_seconds := duration_seconds tr;
     current_passenger_count := current_passenger_count tr;
     max_passenger_count := max_passenger_count tr;
     total_entries := total_entries tr; total_exits := total_exits tr;
     max_capacity := max_capacity tr; overload_events := overload_events tr;
     is_overloaded := is_overloaded tr; route_info := route_info tr;
     events := events tr; stats := stats tr;
     last_backend_sync := last_backend_sync tr;
     sync_status := sync_status tr |}.

(** [Trip.add_event]: [uid] is the [uuid4()] drawn, [now] the clock.
    [metadata or {}] turns an absent argument into the empty dict.
    Returns the trip and the created event. *)
Definition add_event (uid : string) (now : Z) (ty : EventType)
    (md : option Metadata) (tr : t) : t * TripEvent :=
  let event :=
    {| event_id := uid; ev_trip_id := trip_id tr; event_type := ty;
       timestamp := now;
       passenger_count := current_passenger_count tr;
       metadata := default [] md |} in
  (set_events (events tr ++ [event]) tr, event).

(** [Trip.update_passenger_count]. *)
Definition update_passenger_count (uid : string) (now : Z) (new_count : Z)
    (tr : t) : t :=
  let tr1 :=
    set_counts new_count (Z.max (max_passenger_count tr) new_count) tr in
  if new_count >? max_capacity tr1 then
    if negb (is_overloaded tr1) then
      let tr2 := set_overload true (overload_events tr1 + 1) tr1 in
      fst (add_event uid now OVERLOAD_DETECTED
             (Some [("passenger_count", new_count);
                    ("max_capacity", max_capacity tr2)]) tr2)
    else tr1
  else set_overload false (overload_events tr1) tr1.

(** [Trip.end_trip]. *)
Definition end_trip (now : Z) (tr : t) : t :=
  set_end (Some now) COMPLETED tr.

(** [Trip.get_duration]: [int(timedelta.total_seconds())] truncates
    towards zero. *)
Definition get_duration (now : Z) (tr : t) : option Z :=
  match start_time tr, end_time tr with
  | Some s, Some e => Some (Z.quot (e - s) usec_per_sec)
  | Some s, None => Some (Z.quot (now - s) usec_per_sec)
  | None, _ => None
  end.

(** One call of [update_passenger_count] with the environment it reads. *)
Record Call := mkCall { c_uid : string; c_now : Z; c_count : Z }.

Definition feed (calls : list Call) (tr : t) : t :=
  foldl (fun acc c => update_passenger_count (c_uid c) (c_now c) (c_count c) acc)
        tr calls.

(** [Trip.get_duration_minutes]: [duration_seconds / 60 if duration_seconds
    else None].  The condition is the truthiness of the duration, so a
    duration of [0] counts as absent; the float quotient is written as the
    rational it approximates. *)
Definition get_duration_minutes (now : Z) (tr : t) : option Q :=
  match get_duration now tr with
  | Some duration_seconds =>
    if decide (duration_seconds = 0) then None
    else Some (inject_Z duration_seconds / 60)%Q
  | None => None
  end.

End Trip.

(* ===================================================================== *)
(** ** computer_vision/person_detector.py (the [Detection] class) *)
(* ===================================================================== *)

Module Detection.

(** [bbox] is [(x1, y1, x2, y2)] in pixels; the confidence score is a
    float, kept as a rational. *)
Record t := mk {
  bbox : Z * Z * Z * Z;
  confidence : Q;
  class_id : Z
}.

(** [_calculate_center]: [int((x1 + x2) / 2)] is a true division followed
    by truncation towards zero, hence [Z.quot]. *)
Definition center (d : t) : Z * Z :=
  let '(x1, y1, x2, y2) := bbox d in
  (Z.quot (x1 + x2) 2, Z.quot (y1 + y2) 2).

End Detection.

(** A zone event is the dict built by [ZoneDetector._check_zone_transition]:
    keys [type], [person_id], [detection], [timestamp], [zone].  The
    anti-fraud manager later adds the key [face_id] to the same dict, so the
    key is optional here; [event.get("detection")] may be absent. *)
Record ZoneEvent := mkZoneEvent {
  ze_type : string;
  ze_person_id : Z;
  ze_detection : option Detection.t;
  ze_timestamp : Z;
  ze_zone : string;
  ze_face_id : option string
}.

Definition set_face_id (fid : option string) (e : ZoneEvent) : ZoneEvent :=
  {| ze_type := ze_type e; ze_person_id := ze_person_id e;
     ze_detection := ze_detection e; ze_timestamp := ze_timestamp e;
     ze_zone := ze_zone e; ze_face_id := fid |}.

(** The two dict literals of [_check_zone_transition]. *)
Definition entry_event (pid : Z) (d : Detection.t) (now : Z) : ZoneEvent :=
  {| ze_type := "entry"; ze_person_id := pid; ze_detection := Some d;
     ze_timestamp := now; ze_zone := "entry"; ze_face_id := None |}.

Definition exit_event (pid : Z) (d : Detection.t) (now : Z) : ZoneEvent :=
  {| ze_type := "exit"; ze_person_id := pid; ze_detection := Some d;
     ze_timestamp := now; ze_zone := "exit"; ze_face_id := None |}.

(* ===================================================================== *)
(** ** computer_vision/passenger_counter.py *)
(* ===================================================================== *)

Module PassengerCounter.

Record PassengerEvent := mkPassengerEvent {
  pe_event_type : string;
  pe_timestamp : Z;
  pe_person_id : Z;
  pe_detection : Detection.t;
  pe_confidence : Q
}.

(** The [stats] dict; [processing_fps] belongs to the processing loop and
    is not touched by event handling. *)
Record Stats := mkStats {
  total_entries : Z;
  total_exits : Z;
  current_passengers : Z;
  overload_events : Z;
  last_activity : option Z
}.

Record t := mk {
  current_count : Z;
  max_capacity : Z;
  passenger_events : list PassengerEvent;
  stats : Stats
}.

(** [__init__] with [config["trip"]["max_capacity"]] already read. *)
Definition init (cap : Z) : t :=
  {| current_count := 0; max_capacity := cap; passenger_events := [];
     stats := {| total_entries := 0; total_exits := 0;
                 current_passengers := 0; overload_events := 0;
                 last_activity := None |} |}.

(** [l[-n:]] for a positive [n]: the last [n] elements. *)
Definition last_n {A} (n : nat) (l : list A) : list A :=
  drop (length l - n)%nat l.

(** [_handle_zone_event].  [event["detection"]] is indexed, not [get]: a
    missing detection raises [KeyError], and [None.confidence] raises
    [AttributeError], before anything is mutated; both are [None] here.
    [t_ev] and [t_act] are the two clock readings.  The registered
    callbacks run last, each inside its own try/except, and receive only
    the event object. *)
Definition handle_zone_event (t_ev t_act : Z) (event : ZoneEvent) (c : t)
    : option t :=
  match ze_detection event with
  | None => None
  | Some detection =>
    let passenger_event :=
      {| pe_event_type := ze_type event; pe_timestamp := t_ev;
         pe_person_id := ze_person_id event; pe_detection := detection;
         pe_confidence := Detection.confidence detection |} in
    let '(count1, entries1, exits1) :=
      if decide (ze_type event = "entry") then
        (current_count c + 1, total_entries (stats c) + 1,
         total_exits (stats c))
      else if decide (ze_type event = "exit") then
        (Z.max 0 (current_count c - 1), total_entries (stats c),
         total_exits (stats c) + 1)
      else (current_count c, total_entries (stats c), total_exits (stats c)) in
    let overload1 :=
      if count1 >? max_capacity c then overload_events (stats c) + 1
      else overload_events (stats c) in
    let evs := passenger_events c ++ [passenger_event] in
    let evs1 := if (100 <? length evs)%nat then last_n 100 evs else evs in
    Some {| current_count := count1; max_capacity := max_capacity c;
            passenger_events := evs1;
            stats := {| total_entries := entries1; total_exits := exits1;
                        current_passengers := current_passengers (stats c);
                        overload_events := overload1;
                        last_activity := Some t_act |} |}
  end.

(** One handled event with its two clock readings. *)
Record Step := mkStep { s_event : ZoneEvent; s_t_ev : Z; s_t_act : Z }.

(** The counter after each event of a sequence (the observation points);
    the processing loop hands the events over one by one.  An event that
    raises ends the run. *)
Fixpoint observe (steps : list Step) (c : t) : list t :=
  match steps with
  | [] => []
  | s :: rest =>
    match handle_zone_event (s_t_ev s) (s_t_act s) (s_event s) c with
    | Some c' => c' :: observe rest c'
    | None => []
    end
  end.

(** [reset_count]: the count, the event history and four of the
    statistics are reset; [last_activity] is not among the updated keys. *)
Definition reset_count (c : t) : t :=
  {| current_count := 0; max_capacity := max_capacity c;
     passenger_events := [];
     stats := {| total_entries := 0; total_exits := 0;
                 current_passengers := 0; overload_events := 0;
                 last_activity := last_activity (stats c) |} |}.

(** [get_current_count]. *)
Definition get_current_count (c : t) : Z := current_count c.

(** [get_statistics]: writes the count into the [stats] dict and returns
    a copy of it. *)
Definition get_statistics (c : t) : t * Stats :=
  let s := {| total_entries := total_entries (stats c);
              total_exits := total_exits (stats c);
              current_passengers := current_count c;
              overload_events := overload_events (stats c);
              last_activity := last_activity (stats c) |} in
  ({| current_count := current_count c; max_capacity := max_capacity c;
      passenger_events := passenger_events c; stats := s |}, s).

(** The slice [l[start:]] of Python: a negative [start] counts from the
    end and is clipped at the beginning of the list. *)
Definition slice_from {A} (start : Z) (l : list A) : list A :=
  let len := Z.of_nat (length l) in
  let first := if start <? 0 then Z.max (len + start) 0 else start in
  drop (Z.to_nat first) l.

(** [get_recent_events]:
    [self.passenger_events[-limit:] if self.passenger_events else []]. *)
Definition get_recent_events (limit : Z) (c : t) : list PassengerEvent :=
  match passenger_events c with
  | [] => []
  | evs => slice_from (- limit) evs
  end.

(** [is_overloaded]. *)
Definition is_overloaded (c : t) : bool := current_count c >? max_capacity c.

(** The counter after a whole sequence of events; [None] when one of them
    raises. *)
Fixpoint handle_all (steps : list Step) (c : t) : option t :=
  match steps with
  | [] => Some c
  | s :: rest =>
    match handle_zone_event (s_t_ev s) (s_t_act s) (s_event s) c with
    | Some c' => handle_all rest c'
    | None => None
    end
  end.

(** The step handles an event of type [ty]. *)
Definition is_type (ty : string) (s : Step) : Prop := ze_type (s_event s) = ty.

#[global] Instance is_type_dec ty s : Decision (is_type ty s).
Proof. unfold is_type. apply _. Defined.

End PassengerCounter.

(* ===================================================================== *)
(** ** computer_vision/zone_detector.py *)
(* ===================================================================== *)

Module ZoneDetector.

Inductive ZoneType := ENTRY | EXIT | NEUTRAL.

#[global] Instance ZoneType_eq_dec : EqDecision ZoneType.
Proof. solve_decision. Defined.

(** A zone: its type, its normalized boundaries [[x1, y1, x2, y2]] and its
    name.  The boundaries are floats; each is kept as the rational it
    denotes. *)
Record Zone := mkZone {
  zone_type : ZoneType;
  coordinates : Q * Q * Q * Q;
  name : string
}.

Section WithPixels.
(** [int(coordinate * size)]: a float product truncated to an integer.
    Float rounding is not modelled; the conversion is a parameter. *)
Variable to_pixel : Q -> Z -> Z.

(** [Zone.get_pixel_coordinates]; [frame_shape] is [(height, width)]. *)
Definition get_pixel_coordinates (z : Zone) (frame_shape : Z * Z)
    : Z * Z * Z * Z :=
  let '(h, w) := frame_shape in
  let '(c0, c1, c2, c3) := coordinates z in
  (to_pixel c0 w, to_pixel c1 h, to_pixel c2 w, to_pixel c3 h).

(** [Zone.contains_point]: both boundaries are inclusive. *)
Definition contains_point (z : Zone) (point : Z * Z) (frame_shape : Z * Z)
    : bool :=
  let '(h, w) := frame_shape in
  let '(x, y) := point in
  let '(c0, c1, c2, c3) := coordinates z in
  let x1 := to_pixel c0 w in
  let y1 := to_pixel c1 h in
  let x2 := to_pixel c2 w in
  let y2 := to_pixel c3 h in
  (x1 <=? x) && (x <=? x2) && (y1 <=? y) && (y <=? y2).

(** The detector: its two zones and the per-index zone history
    [person_zones]. *)
Record t := mk {
  entry_zone : Zone;
  exit_zone : Zone;
  person_zones : gmap nat (list ZoneType)
}.

(** [__init__] with the two zone boundaries read from the configuration. *)
Definition init (entry_coords exit_coords : Q * Q * Q * Q) : t :=
  {| entry_zone := mkZone ENTRY entry_coords "Entry Zone";
     exit_zone := mkZone EXIT exit_coords "Exit Zone";
     person_zones := ∅ |}.

(** The defaults [[0.0, 0.0, 0.5, 1.0]] and [[0.5, 0.0, 1.0, 1.0]]. *)
Definition default_entry_coords : Q * Q * Q * Q := (0, 0, 1 # 2, 1)%Q.
Definition default_exit_coords : Q * Q * Q * Q := (1 # 2, 0, 1, 1)%Q.

(** [_get_zone_for_point]: the entry zone is asked first. *)
Definition get_zone_for_point (zd : t) (point : Z * Z) (frame_shape : Z * Z)
    : ZoneType :=
  if contains_point (entry_zone zd) point frame_shape then ENTRY
  else if contains_point (exit_zone zd) point frame_shape then EXIT
  else NEUTRAL.

(** [zone_history[-2]] and [zone_history[-1]] of a history of length at
    least two. *)
Definition last_two (history : list ZoneType) : option (ZoneType * ZoneType) :=
  match rev history with
  | z1 :: z2 :: _ => Some (z2, z1)
  | _ => None
  end.

(** [_check_zone_transition]; [now] is [time.time()]. *)
Definition check_zone_transition (zd : t) (person_id : nat)
    (detection : Detection.t) (now : Z) : option ZoneEvent :=
  match person_zones zd !! person_id with
  | None => None
  | Some zone_history =>
    match last_two zone_history with
    | None => None
    | Some (before, latest) =>
      if decide (before = NEUTRAL /\ latest = ENTRY) then
        Some (entry_event (Z.of_nat person_id) detection now)
      else if decide (before = NEUTRAL /\ latest = EXIT) then
        Some (exit_event (Z.of_nat person_id) detection now)
      else None
    end
  end.

(** [history[-10:]] applied when the history is longer than ten. *)
Definition cap10 (history : list ZoneType) : list ZoneType :=
  if (10 <? length history)%nat then drop (length history - 10)%nat history
  else history.

(** The body of the loop of [detect_zone_events] for the detection at
    index [person_id]: the detector with the history of that index
    extended, and the event, if any. *)
Definition track_detection (frame_shape : Z * Z) (now : Z) (person_id : nat)
    (detection : Detection.t) (zd : t) : t * option ZoneEvent :=
  let current_zone :=
    get_zone_for_point zd (Detection.center detection) frame_shape in
  let history := default [] (person_zones zd !! person_id) in
  let zd1 :=
    {| entry_zone := entry_zone zd; exit_zone := exit_zone zd;
       person_zones :=
         <[person_id := cap10 (history ++ [current_zone])]> (person_zones zd) |} in
  (zd1, check_zone_transition zd1 person_id detection now).

(** The loop over [enumerate(detections)], from index [i] on; [clock i] is
    the reading of [time.time()] while index [i] is handled. *)
Fixpoint detect_loop (frame_shape : Z * Z) (clock : nat -> Z) (i : nat)
    (detections : list Detection.t) (zd : t) : t * list ZoneEvent :=
  match detections with
  | [] => (zd, [])
  | d :: rest =>
    let '(zd1, ev) := track_detection frame_shape (clock i) i d zd in
    let '(zd2, evs) := detect_loop frame_shape clock (S i) rest zd1 in
    (zd2, option_list ev ++ evs)
  end.

(** [_cleanup_old_tracks]: [current_zones] has the keys
    [0 .. len(detections) - 1]; every other tracked index is deleted. *)
Definition cleanup_old_tracks (n : nat) (zd : t) : t :=
  {| entry_zone := entry_zone zd; exit_zone := exit_zone zd;
     person_zones :=
       filter (fun kv : nat * list ZoneType => (kv.1 < n)%nat)
              (person_zones zd) |}.

(** [detect_zone_events]. *)
Definition detect_zone_events (clock : nat -> Z)
    (detections : list Detection.t) (frame_shape : Z * Z) (zd : t)
    : t * list ZoneEvent :=
  let '(zd1, events) := detect_loop frame_shape clock 0 detections zd in
  (cleanup_old_tracks (length detections) zd1, events).

(** The event the loop emits at index [i] when the zone recorded for that
    index in the previous frame was [before] and the detection is now in
    [latest]. *)
Definition transition_event (before : option ZoneType) (latest : ZoneType)
    (i : nat) (d : Detection.t) (now : Z) : option ZoneEvent :=
  match before, latest with
  | Some NEUTRAL, ENTRY => Some (entry_event (Z.of_nat i) d now)
  | Some NEUTRAL, EXIT => Some (exit_event (Z.of_nat i) d now)
  | _, _ => None
  end.

(** The detections of one processed frame and the clock during it. *)
Record Frame := mkFrame {
  f_clock : nat -> Z;
  f_detections : list Detection.t
}.

(** [detect_zone_events] on one frame after the other, all of the same
    shape: the detector afterwards and the events of every frame. *)
Fixpoint run_frames (frames : list Frame) (frame_shape : Z * Z) (zd : t)
    : t * list (list ZoneEvent) :=
  match frames with
  | [] => (zd, [])
  | f :: rest =>
    let '(zd1, events) :=
      detect_zone_events (f_clock f) (f_detections f) frame_shape zd in
    let '(zd2, more) := run_frames rest frame_shape zd1 in
    (zd2, events :: more)
  end.

(** No history ends in the neutral zone. *)
Definition never_neutral (zd : t) : Prop :=
  forall k h, person_zones zd !! k = Some h -> last h <> Some NEUTRAL.

(** The centre of the detection lies within a frame of the given shape. *)
Definition in_frame (frame_shape : Z * Z) (d : Detection.t) : Prop :=
  0 <= (Detection.center d).1 <= frame_shape.2 /\
  0 <= (Detection.center d).2 <= frame_shape.1.

End WithPixels.

(** The exact product truncated towards zero, for concrete runs. *)
Definition exact_pixel (c : Q) (size : Z) : Z :=
  Z.quot (Qnum c * size) (Z.pos (Qden c)).

End ZoneDetector.

(* ===================================================================== *)
(** ** Python dicts whose iteration order is observed *)
(* ===================================================================== *)

(** A [dict] iterates in insertion order.  Where the source depends on
    that order the dict is an association list with distinct keys. *)
Module ODict.
Section Defs.
Context {V : Type}.

Fixpoint get (k : string) (d : list (string * V)) : option V :=
  match d with
  | [] => None
  | (k', v) :: rest => if decide (k' = k) then Some v else get k rest
  end.

(** [d[k] = v]: an existing key keeps its position, a new one goes to
    the end. *)
Fixpoint set (k : string) (v : V) (d : list (string * V))
    : list (string * V) :=
  match d with
  | [] => [(k, v)]
  | (k', v') :: rest =>
    if decide (k' = k) then (k, v) :: rest else (k', v') :: set k v rest
  end.

(** In-place mutation of the object stored under [k]. *)
Fixpoint update (f : V -> V) (k : string) (d : list (string * V))
    : list (string * V) :=
  match d with
  | [] => []
  | (k', v) :: rest =>
    if decide (k' = k) then (k', f v) :: rest
    else (k', v) :: update f k rest
  end.

(** [del d[k]]. *)
Fixpoint del (k : string) (d : list (string * V)) : list (string * V) :=
  match d with
  | [] => []
  | (k', v) :: rest =>
    if decide (k' = k) then rest else (k', v) :: del k rest
  end.

Definition keys (d : list (string * V)) : list string := d.*1.
Definition values (d : list (string * V)) : list V := d.*2.
End Defs.
End ODict.

(* ===================================================================== *)
(** ** face_tracking/face_tracker.py *)
(* ===================================================================== *)

Module FaceTracker.

(** [f"{n:04d}"]: the decimal digits of [n], padded on the left with
    zeros to a width of at least four. *)
Fixpoint zeros (k : nat) : string :=
  match k with
  | O => EmptyString
  | S k' => String "0"%char (zeros k')
  end.

Definition format_04d (n : nat) : string :=
  let digits := NilEmpty.string_of_uint (Nat.to_uint n) in
  String.append (zeros (4 - String.length digits)) digits.

(** [f"face_{self.next_face_id:04d}"]. *)
Definition face_id_of (n : nat) : string :=
  String.append "face_" (format_04d n).

(** Reading the number back from an id; used only in proofs. *)
Definition number_of_face_id (s : string) : option nat :=
  match s with
  | String "f" (String "a" (String "c" (String "e" (String "_" rest)))) =>
    Nat.of_uint <$> NilEmpty.uint_of_string rest
  | _ => None
  end.

(** [k] leading zero digits in front of a decimal number; used only in
    proofs. *)
Fixpoint lead_zeros (k : nat) (d : Decimal.uint) : Decimal.uint :=
  match k with
  | O => d
  | S k' => Decimal.D0 (lead_zeros k' d)
  end.

(** [TrackedFace.status]: ["active"], ["lost"] or ["exited"]. *)
Inductive Status := active | lost | exited.

#[global] Instance Status_eq_dec : EqDecision Status.
Proof. solve_decision. Defined.

Section WithEncoder.
(** The face encoder is an external collaborator: an encoding is opaque
    and [face_recognition.face_distance] is a function on encodings;
    its float result is read as the rational it denotes. *)
Context {Encoding : Type}.
Variable face_distance : Encoding -> Encoding -> Q.

Record FaceDetection := mkFaceDetection {
  fd_bbox : Z * Z * Z * Z;          (* (top, right, bottom, left) *)
  fd_encoding : Encoding;
  fd_confidence : Q;
  fd_timestamp : Z;
  fd_face_id : option string
}.

Record TrackedFace := mkTrackedFace {
  tf_face_id : string;
  tf_encodings : list Encoding;
  tf_last_seen : Z;
  tf_first_seen : Z;
  tf_detection_count : Z;
  tf_status : Status
}.

(** The tracking state of a [FaceTracker] and the two configuration
    values tracking reads; [max_tracking_time] is in seconds. *)
Record t := mk {
  tolerance : Q;
  max_tracking_time : Z;
  tracked_faces : list (string * TrackedFace);
  next_face_id : nat
}.

(** [__init__] with the configuration values read. *)
Definition init (tol : Q) (mtt : Z) : t :=
  {| tolerance := tol; max_tracking_time := mtt;
     tracked_faces := []; next_face_id := 1 |}.

(** Defaults of [config.get("tolerance", 0.6)] and
    [config.get("max_tracking_time", 10)]. *)
Definition default_tolerance : Q := 6 # 10.
Definition default_max_tracking_time : Z := 10.

Definition set_detection_face_id (fid : string) (d : FaceDetection)
    : FaceDetection :=
  {| fd_bbox := fd_bbox d; fd_encoding := fd_encoding d;
     fd_confidence := fd_confidence d; fd_timestamp := fd_timestamp d;
     fd_face_id := Some fid |}.

(** The loop of [_match_detection_to_tracked_face]: the faces are
    visited in dict order and the first active one whose most recent
    encoding is within the tolerance is returned. *)
Fixpoint match_loop (tol : Q) (enc : Encoding)
    (faces : list (string * TrackedFace)) : option string :=
  match faces with
  | [] => None
  | (face_id, tracked_face) :: rest =>
    if decide (tf_status tracked_face = active) then
      match last (tf_encodings tracked_face) with
      | Some recent_encoding =>
        if Qle_bool (face_distance recent_encoding enc) tol
        then Some face_id
        else match_loop tol enc rest
      | None => match_loop tol enc rest
      end
    else match_loop tol enc rest
  end.

(** [_match_detection_to_tracked_face]. *)
Definition match_detection_to_tracked_face (detection : FaceDetection)
    (tr : t) : option string :=
  match tracked_faces tr with
  | [] => None
  | faces => match_loop (tolerance tr) (fd_encoding detection) faces
  end.

(** [l[-10:]] applied when the list is longer than ten. *)
Definition cap10 (l : list Encoding) : list Encoding :=
  if (10 <? length l)%nat then drop (length l - 10)%nat l else l.

(** The branch of [update_tracking] for a matched detection. *)
Definition refresh (now : Z) (enc : Encoding) (tf : TrackedFace)
    : TrackedFace :=
  {| tf_face_id := tf_face_id tf;
     tf_encodings := cap10 (tf_encodings tf ++ [enc]);
     tf_last_seen := now; tf_first_seen := tf_first_seen tf;
     tf_detection_count := tf_detection_count tf + 1;
     tf_status := active |}.

(** What one iteration of the detection loop did. *)
Inductive Outcome := Matched (fid : string) | Created (fid : string).

Definition outcome_id (o : Outcome) : string :=
  match o with Matched f | Created f => f end.

(** One iteration of the detection loop of [update_tracking].
    [if matched_face_id:] also fails on the empty string. *)
Definition track_detection (now : Z) (detection : FaceDetection) (tr : t)
    : t * Outcome :=
  match match_detection_to_tracked_face detection tr with
  | Some matched_face_id =>
    if decide (matched_face_id = "") then
      let face_id := face_id_of (next_face_id tr) in
      ({| tolerance := tolerance tr;
          max_tracking_time := max_tracking_time tr;
          tracked_faces :=
            ODict.set face_id
              {| tf_face_id := face_id;
                 tf_encodings := [fd_encoding detection];
                 tf_last_seen := now; tf_first_seen := now;
                 tf_detection_count := 1; tf_status := active |}
              (tracked_faces tr);
          next_face_id := S (next_face_id tr) |}, Created face_id)
    else
      ({| tolerance := tolerance tr;
          max_tracking_time := max_tracking_time tr;
          tracked_faces :=
            ODict.update (refresh now (fd_encoding detection))
              matched_face_id (tracked_faces tr);
          next_face_id := next_face_id tr |}, Matched matched_face_id)
  | None =>
    let face_id := face_id_of (next_face_id tr) in
    ({| tolerance := tolerance tr;
        max_tracking_time := max_tracking_time tr;
        tracked_faces :=
          ODict.set face_id
            {| tf_face_id := face_id;
               tf_encodings := [fd_encoding detection];
               tf_last_seen := now; tf_first_seen := now;
               tf_detection_count := 1; tf_status := active |}
            (tracked_faces tr);
        next_face_id := S (next_face_id tr) |}, Created face_id)
  end.

(** The detection loop: the tracker, the detections with their
    [face_id] set (the caller's objects are mutated), and the outcome
    of every iteration. *)
Fixpoint track_all (now : Z) (detections : list FaceDetection) (tr : t)
    : t * list FaceDetection * list Outcome :=
  match detections with
  | [] => (tr, [], [])
  | d :: rest =>
    let '(tr1, o) := track_detection now d tr in
    let '(tr2, ds, os) := track_all now rest tr1 in
    (tr2, set_detection_face_id (outcome_id o) d :: ds, o :: os)
  end.

(** Status update of faces not seen recently. *)
Definition age (threshold : Z) (tf : TrackedFace) : TrackedFace :=
  if decide (tf_last_seen tf < threshold /\ tf_status tf = active) then
    {| tf_face_id := tf_face_id tf; tf_encodings := tf_encodings tf;
       tf_last_seen := tf_last_seen tf; tf_first_seen := tf_first_seen tf;
       tf_detection_count := tf_detection_count tf; tf_status := lost |}
  else tf.

Definition faces_to_remove (threshold : Z)
    (faces : list (string * TrackedFace)) : list string :=
  (filter (fun kv => tf_last_seen kv.2 < threshold) faces).*1.

Record Tracking := mkTracking {
  tracker : t;
  labelled : list FaceDetection;
  result : list TrackedFace;
  outcomes : list Outcome
}.

(** [update_tracking]. *)
Definition update_tracking (now : Z) (detections : list FaceDetection)
    (tr : t) : Tracking :=
  let '(tr1, ds, os) := track_all now detections tr in
  let timeout_threshold := now - max_tracking_time tr1 * usec_per_sec in
  let aged := prod_map id (age timeout_threshold) <$> tracked_faces tr1 in
  let cleanup_threshold :=
    now - (max_tracking_time tr1 * 2) * usec_per_sec in
  let kept :=
    foldl (fun d k => ODict.del k d) aged
          (faces_to_remove cleanup_threshold aged) in
  {| tracker := {| tolerance := tolerance tr1;
                   max_tracking_time := max_tracking_time tr1;
                   tracked_faces := kept;
                   next_face_id := next_face_id tr1 |};
     labelled := ds; result := ODict.values kept; outcomes := os |}.

(** [get_active_faces]. *)
Definition get_active_faces (tr : t) : list TrackedFace :=
  filter (fun tf => tf_status tf = active) (ODict.values (tracked_faces tr)).

(** [reset_tracking]. *)
Definition reset_tracking (tr : t) : t :=
  {| tolerance := tolerance tr; max_tracking_time := max_tracking_time tr;
     tracked_faces := []; next_face_id := 1 |}.

(** The operations a client performs on a tracker. *)
Inductive Op :=
| Update (now : Z) (detections : list FaceDetection)
| Reset.

Definition created_ids (os : list Outcome) : list string :=
  omap (fun o => match o with Created f => Some f | Matched _ => None end) os.

(** Runs a sequence of operations and collects, in order, the id of
    every identity created on the way. *)
Fixpoint run (ops : list Op) (tr : t) : t * list string :=
  match ops with
  | [] => (tr, [])
  | Update now ds :: rest =>
    let r := update_tracking now ds tr in
    let '(tr', ids) := run rest (tracker r) in
    (tr', created_ids (outcomes r) ++ ids)
  | Reset :: rest => run rest (reset_tracking tr)
  end.

Definition is_reset (o : Op) : bool :=
  match o with Reset => true | Update _ _ => false end.

(** A face is a candidate when the loop would return it. *)
Definition within (tol : Q) (enc : Encoding) (tf : TrackedFace) : Prop :=
  tf_status tf = active /\
  exists recent, last (tf_encodings tf) = Some recent /\
                 (face_distance recent enc <= tol)%Q.

(** A tracked face is in order: it is stored under its own id, the id is
    that of a number already handed out, and it holds between one and ten
    encodings. *)
Definition face_ok (next : nat) (kv : string * TrackedFace) : Prop :=
  tf_face_id kv.2 = kv.1 /\
  (exists n, (1 <= n < next)%nat /\ kv.1 = face_id_of n) /\
  (1 <= length (tf_encodings kv.2) <= 10)%nat.

(** The tracker is consistent: no id is tracked twice and every tracked
    face is in order. *)
Definition consistent (tr : t) : Prop :=
  NoDup (ODict.keys (tracked_faces tr)) /\
  Forall (face_ok (next_face_id tr)) (tracked_faces tr) /\
  (1 <= next_face_id tr)%nat.

(** The identity [fid] was seen at [now] and is active. *)
Definition live_at (now : Z) (l : list (string * TrackedFace)) (fid : string)
    : Prop :=
  exists tf, (fid, tf) ∈ l /\ tf_status tf = active /\ tf_last_seen tf = now.

(** The object built for a new identity. *)
Definition fresh_face (now : Z) (detection : FaceDetection) (tr : t)
    : TrackedFace :=
  {| tf_face_id := face_id_of (next_face_id tr);
     tf_encodings := [fd_encoding detection];
     tf_last_seen := now; tf_first_seen := now;
     tf_detection_count := 1; tf_status := active |}.

End WithEncoder.

End FaceTracker.

(* ===================================================================== *)
(** ** face_tracking/anti_fraud_manager.py *)
(* ===================================================================== *)

Module AntiFraud.

(** [PassengerRecord.status]: ["inside"], ["outside"] or
    ["temporary_exit"]. *)
Inductive Status := inside | outside | temporary_exit.

#[global] Instance Status_eq_dec : EqDecision Status.
Proof. solve_decision. Defined.

(** [entry_time] is annotated [datetime] but is built with [None] for a
    record created by an exit.  An entry [f"{event_type}_{iso}"] of the
    [zone_events] log is kept as the pair it is formatted from. *)
Record PassengerRecord := mkPassengerRecord {
  face_id : string;
  entry_time : option Z;
  exit_time : option Z;
  status : Status;
  zone_events : list (string * Z)
}.

Record Stats := mkStats {
  prevented_double_counts : Z;
  temporary_exits_handled : Z;
  unique_passengers_seen : Z;
  false_positives_prevented : Z
}.

Definition zero_stats : Stats :=
  {| prevented_double_counts := 0; temporary_exits_handled := 0;
     unique_passengers_seen := 0; false_positives_prevented := 0 |}.

Section WithEncoder.
Context {Encoding : Type}.
Variable face_distance : Encoding -> Encoding -> Q.

Abbreviation FaceDetection := (@FaceTracker.FaceDetection Encoding).
Abbreviation TrackedFace := (@FaceTracker.TrackedFace Encoding).

Record t := mk {
  face_tracker : @FaceTracker.t Encoding;
  passenger_records : gmap string PassengerRecord;
  temporary_exit_timeout : Z;      (* seconds *)
  stats : Stats
}.

(** [__init__]. *)
Definition init (tol : Q) (mtt : Z) : t :=
  {| face_tracker := FaceTracker.init tol mtt;
     passenger_records := ∅;
     temporary_exit_timeout := 30;
     stats := zero_stats |}.

Definition with_stats (s : Stats) (m : t) : t :=
  {| face_tracker := face_tracker m;
     passenger_records := passenger_records m;
     temporary_exit_timeout := temporary_exit_timeout m;
     stats := s |}.

Definition with_records (r : gmap string PassengerRecord) (m : t) : t :=
  {| face_tracker := face_tracker m;
     passenger_records := r;
     temporary_exit_timeout := temporary_exit_timeout m;
     stats := stats m |}.

(** Centre of a face box [(top, right, bottom, left)], with floor
    division. *)
Definition face_center (fd : FaceDetection) : Z * Z :=
  let '(top, rgt, bottom, lft) := FaceTracker.fd_bbox fd in
  ((lft + rgt) / 2, (top + bottom) / 2).

(** The squared pixel distance.  The source compares
    [(dx**2 + dy**2) ** 0.5]; on integer pixel coordinates the square
    root preserves [<] and [<=], so the squares are compared instead
    and the bound of 100 pixels becomes 10000. *)
Definition dist2 (p q : Z * Z) : Z :=
  (p.1 - q.1) * (p.1 - q.1) + (p.2 - q.2) * (p.2 - q.2).

(** The search loop of [_match_zone_event_to_face]; the accumulator is
    [(min_distance, closest_face)], [None] standing for
    [(inf, None)]. *)
Fixpoint closest_loop (person_center : Z * Z)
    (acc : option (Z * FaceDetection)) (faces : list FaceDetection)
    : option (Z * FaceDetection) :=
  match faces with
  | [] => acc
  | fd :: rest =>
    let distance := dist2 person_center (face_center fd) in
    let acc' :=
      match acc with
      | None => Some (distance, fd)
      | Some (min_distance, _) =>
        if distance <? min_distance then Some (distance, fd) else acc
      end in
    closest_loop person_center acc' rest
  end.

Definition max_distance2 : Z := 100 * 100.

(** [_match_zone_event_to_face]. *)
Definition match_zone_event_to_face (event : ZoneEvent)
    (face_detections : list FaceDetection) : option FaceDetection :=
  match face_detections with
  | [] => None
  | _ =>
    match ze_detection event with
    | None => None
    | Some person_detection =>
      match closest_loop (Detection.center person_detection) None
              face_detections with
      | Some (min_distance, closest_face) =>
        if min_distance <=? max_distance2 then Some closest_face else None
      | None => None
      end
    end
  end.

(** [_is_legitimate_event].  The id is the [face_id] attribute of the
    matched detection, [None] when tracking never labelled it; [None]
    is not a key of the dict. *)
Definition is_legitimate_event (event_type : string)
    (fid : option string) (m : t) : bool :=
  match fid ≫= (fun f => passenger_records m !! f) with
  | None => true
  | Some record =>
    if decide (event_type = "entry") then
      bool_decide (status record = outside \/ status record = temporary_exit)
    else if decide (event_type = "exit") then
      bool_decide (status record = inside)
    else false
  end.

(** The body of the loop of [_validate_zone_events]: the manager and
    what is appended to [validated_events]. *)
Definition validate_event (event : ZoneEvent)
    (face_detections : list FaceDetection) (m : t) : t * list ZoneEvent :=
  match match_zone_event_to_face event face_detections with
  | Some matched_face =>
    let fid := FaceTracker.fd_face_id matched_face in
    if is_legitimate_event (ze_type event) fid m then
      (m, [set_face_id fid event])
    else
      (with_stats
         {| prevented_double_counts :=
              prevented_double_counts (stats m) + 1;
            temporary_exits_handled := temporary_exits_handled (stats m);
            unique_passengers_seen := unique_passengers_seen (stats m);
            false_positives_prevented :=
              false_positives_prevented (stats m) |} m, [])
  | None => (m, [event])
  end.

(** [_validate_zone_events]. *)
Fixpoint validate_zone_events (zone_events : list ZoneEvent)
    (face_detections : list FaceDetection) (m : t) : t * list ZoneEvent :=
  match zone_events with
  | [] => (m, [])
  | event :: rest =>
    let '(m1, out) := validate_event event face_detections m in
    let '(m2, outs) := validate_zone_events rest face_detections m1 in
    (m2, out ++ outs)
  end.

Definition log_event (ty : string) (now : Z) (r : PassengerRecord)
    : PassengerRecord :=
  {| face_id := face_id r; entry_time := entry_time r;
     exit_time := exit_time r; status := status r;
     zone_events := zone_events r ++ [(ty, now)] |}.

(** The body of the first loop of [_update_passenger_records].
    [if not face_id: continue] skips an absent id and the empty
    string. *)
Definition apply_event (current_time : Z) (event : ZoneEvent) (m : t) : t :=
  match ze_face_id event with
  | None => m
  | Some fid =>
    if decide (fid = "") then m else
    let event_type := ze_type event in
    match passenger_records m !! fid with
    | None =>
      let record :=
        {| face_id := fid;
           entry_time :=
             if decide (event_type = "entry") then Some current_time
             else None;
           exit_time := None;
           status :=
             if decide (event_type = "entry") then inside else outside;
           zone_events := [] |} in
      {| face_tracker := face_tracker m;
         passenger_records :=
           <[fid := log_event event_type current_time record]>
             (passenger_records m);
         temporary_exit_timeout := temporary_exit_timeout m;
         stats :=
           {| prevented_double_counts := prevented_double_counts (stats m);
              temporary_exits_handled := temporary_exits_handled (stats m);
              unique_passengers_seen := unique_passengers_seen (stats m) + 1;
              false_positives_prevented :=
                false_positives_prevented (stats m) |} |}
    | Some record =>
      if decide (event_type = "entry") then
        let handled :=
          if decide (status record = temporary_exit)
          then temporary_exits_handled (stats m) + 1
          else temporary_exits_handled (stats m) in
        let record' :=
          {| face_id := face_id record; entry_time := Some current_time;
             exit_time := exit_time record; status := inside;
             zone_events := zone_events record |} in
        {| face_tracker := face_tracker m;
           passenger_records :=
             <[fid := log_event event_type current_time record']>
               (passenger_records m);
           temporary_exit_timeout := temporary_exit_timeout m;
           stats :=
             {| prevented_double_counts :=
                  prevented_double_counts (stats m);
                temporary_exits_handled := handled;
                unique_passengers_seen := unique_passengers_seen (stats m);
                false_positives_prevented :=
                  false_positives_prevented (stats m) |} |}
      else if decide (event_type = "exit") then
        let record' :=
          {| face_id := face_id record; entry_time := entry_time record;
             exit_time := Some current_time; status := outside;
             zone_events := zone_events record |} in
        with_records
          (<[fid := log_event event_type current_time record']>
             (passenger_records m)) m
      else
        with_records
          (<[fid := log_event event_type current_time record]>
             (passenger_records m)) m
    end
  end.

Definition apply_events (current_time : Z) (validated : list ZoneEvent)
    (m : t) : t :=
  foldl (fun acc e => apply_event current_time e acc) m validated.

(** [{face.face_id for face in tracked_faces if face.status == "active"}]. *)
Definition active_face_ids (tracked : list TrackedFace) : gset string :=
  list_to_set
    (FaceTracker.tf_face_id <$>
       filter (fun f => FaceTracker.tf_status f = FaceTracker.active) tracked).

(** The body of the second loop: [current_time - record.entry_time]
    raises [TypeError] on an absent entry time, which is [None]. *)
Definition silence_one (active : gset string) (current_time timeout : Z)
    (fid : string) (record : PassengerRecord) : option PassengerRecord :=
  if decide (status record = inside /\ fid ∉ active) then
    match entry_time record with
    | None => None
    | Some entered =>
      if current_time - entered >? timeout * usec_per_sec then
        Some {| face_id := face_id record; entry_time := entry_time record;
                exit_time := exit_time record; status := temporary_exit;
                zone_events := zone_events record |}
      else Some record
    end
  else Some record.

(** The second loop of [_update_passenger_records]; [None] when the
    loop raises. *)
Definition silence_pass (active : gset string) (current_time : Z) (m : t)
    : option t :=
  let step := silence_one active current_time (temporary_exit_timeout m) in
  if decide (map_Forall (fun k r => is_Some (step k r)) (passenger_records m))
  then Some (with_records (map_imap step (passenger_records m)) m)
  else None.

(** [_update_passenger_records]. *)
Definition update_passenger_records (current_time : Z)
    (validated : list ZoneEvent) (tracked : list TrackedFace) (m : t)
    : option t :=
  silence_pass (active_face_ids tracked) current_time
    (apply_events current_time validated m).

Definition usec_per_hour : Z := 3600 * usec_per_sec.

(** [record.exit_time or record.entry_time]. *)
Definition last_activity (r : PassengerRecord) : option Z :=
  match exit_time r with
  | Some e => Some e
  | None => entry_time r
  end.

Definition expired (cleanup_threshold : Z) (r : PassengerRecord) : Prop :=
  match last_activity r with
  | Some la => la < cleanup_threshold
  | None => False
  end.

#[global] Instance expired_dec th r : Decision (expired th r).
Proof. unfold expired. destruct (last_activity r); apply _. Defined.

(** [_cleanup_old_records]. *)
Definition cleanup_old_records (current_time : Z) (m : t) : t :=
  let cleanup_threshold := current_time - usec_per_hour in
  with_records
    (filter (fun kv => ~ expired cleanup_threshold kv.2)
            (passenger_records m)) m.

(** [get_current_passenger_count]. *)
Definition get_current_passenger_count (m : t) : nat :=
  size (filter (fun kv : string * PassengerRecord =>
                  status kv.2 = inside \/ status kv.2 = temporary_exit)
               (passenger_records m)).


(** One processing cycle: what [detect_faces(frame)] returned, the zone
    events handed in, and the clock readings of [update_tracking],
    [_update_passenger_records] and [_cleanup_old_records]. *)
Record Cycle := mkCycle {
  cy_faces : list FaceDetection;
  cy_zone_events : list ZoneEvent;
  cy_t_track : Z;
  cy_t_update : Z;
  cy_t_cleanup : Z
}.

(** [process_frame_with_detections]: the manager afterwards and the
    ["validated_events"] of the returned dict; [None] when the cycle
    raises. *)
Definition process_frame_with_detections (c : Cycle) (m : t)
    : option (t * list ZoneEvent) :=
  let tracking :=
    FaceTracker.update_tracking face_distance (cy_t_track c) (cy_faces c)
      (face_tracker m) in
  let m0 :=
    {| face_tracker := FaceTracker.tracker tracking;
       passenger_records := passenger_records m;
       temporary_exit_timeout := temporary_exit_timeout m;
       stats := stats m |} in
  let '(m1, validated_events) :=
    validate_zone_events (cy_zone_events c)
      (FaceTracker.labelled tracking) m0 in
  match update_passenger_records (cy_t_update c) validated_events
          (FaceTracker.result tracking) m1 with
  | Some m2 => Some (cleanup_old_records (cy_t_cleanup c) m2, validated_events)
  | None => None
  end.

(** Several cycles in a row: the manager afterwards and the validated
    events of every cycle. *)
Fixpoint run_cycles (cycles : list Cycle) (m : t)
    : option (t * list (list ZoneEvent)) :=
  match cycles with
  | [] => Some (m, [])
  | c :: rest =>
    match process_frame_with_detections c m with
    | Some (m1, validated) =>
      match run_cycles rest m1 with
      | Some (m2, outs) => Some (m2, validated :: outs)
      | None => None
      end
    | None => None
    end
  end.

(** The invariant that keeps the second loop of
    [_update_passenger_records] from raising: a passenger recorded as
    inside has an entry time. *)
Definition entered_when_inside (r : PassengerRecord) : Prop :=
  status r = inside -> is_Some (entry_time r).

Definition well_formed (m : t) : Prop :=
  map_Forall (fun _ r => entered_when_inside r) (passenger_records m).

(** The record [_update_passenger_records] leaves behind for an identity
    whose first event, at [now], is an exit: the constructor call with
    [entry_time=None] and the default [exit_time], and the log entry. *)
Definition first_exit_record (fid : string) (now : Z) : PassengerRecord :=
  {| face_id := fid; entry_time := None; exit_time := None;
     status := outside; zone_events := [("exit", now)] |}.

(** The manager at the point where [process_frame_with_detections] starts
    validating: the face tracker has been updated. *)
Definition tracked_manager (c : Cycle) (m : t) : t :=
  {| face_tracker :=
       FaceTracker.tracker
         (FaceTracker.update_tracking face_distance (cy_t_track c)
            (cy_faces c) (face_tracker m));
     passenger_records := passenger_records m;
     temporary_exit_timeout := temporary_exit_timeout m;
     stats := stats m |}.

(** Every record is stored under its own [face_id]. *)
Definition keyed_by_face_id (m : t) : Prop :=
  map_Forall (fun k r => face_id r = k) (passenger_records m).

(** The record counts as a passenger aboard, as in
    [get_current_passenger_count]. *)
Definition aboard (r : PassengerRecord) : Prop :=
  status r = inside \/ status r = temporary_exit.

#[global] Instance aboard_dec r : Decision (aboard r).
Proof. unfold aboard. apply _. Defined.

(** What a record, or its absence, adds to the passenger count. *)
Definition weight (o : option PassengerRecord) : Z :=
  match o with
  | Some r => if decide (aboard r) then 1 else 0
  | None => 0
  end.

(** The event does not carry the identity [fid]. *)
Definition not_for (fid : string) (e : ZoneEvent) : Prop :=
  ze_face_id e <> Some fid.

End WithEncoder.

End AntiFraud.

(* ===================================================================== *)
(** ** Sample objects used by the concrete checks *)
(* ===================================================================== *)

Module Samples.

(** A trip as [Trip(trip_id="trip-1", device_id="taxi-1")] builds it. *)
Definition trip : Trip.t := Trip.new "trip-1" "taxi-1" 0.

(** The six calls of the overload scenario. *)
Definition overload_calls : list Trip.Call :=
  (fun n => Trip.mkCall "uuid" 1 n) <$> [5; 10; 15; 10; 16; 10].

Definition person : Detection.t :=
  {| Detection.bbox := (0, 0, 10, 10); Detection.confidence := 9 # 10;
     Detection.class_id := 0 |}.

Definition counter_steps : list PassengerCounter.Step :=
  [ PassengerCounter.mkStep (exit_event 0 person 1) 1 1;
    PassengerCounter.mkStep (entry_event 0 person 2) 2 2;
    PassengerCounter.mkStep (exit_event 0 person 3) 3 3;
    PassengerCounter.mkStep (exit_event 0 person 4) 4 4 ].


(** One-dimensional encodings: the Euclidean distance of
    [face_recognition.face_distance] is the absolute difference. *)
Definition distance1 (a b : Q) : Q := Qred (Qabs (a - b)).

Definition face (enc : Q) : @FaceTracker.FaceDetection Q :=
  {| FaceTracker.fd_bbox := (0, 10, 10, 0); FaceTracker.fd_encoding := enc;
     FaceTracker.fd_confidence := 1; FaceTracker.fd_timestamp := 0;
     FaceTracker.fd_face_id := None |}.

(** A tracker that has seen two faces in one frame, with encodings 0 and
    3/4: they are further apart than the tolerance, so two identities
    [face_0001] and [face_0002] exist, both active. *)
Definition two_faces : @FaceTracker.t Q :=
  FaceTracker.tracker
    (FaceTracker.update_tracking distance1 0 [face 0; face (3 # 4)]
       (FaceTracker.init FaceTracker.default_tolerance
          FaceTracker.default_max_tracking_time)).

(** A detection, a reset, and a detection again. *)
Definition ops_with_reset : list (@FaceTracker.Op Q) :=
  [ FaceTracker.Update 0 [face 0]; FaceTracker.Reset;
    FaceTracker.Update 1 [face 0] ].

Definition ops_without_reset : list (@FaceTracker.Op Q) :=
  [ FaceTracker.Update 0 [face 0];
    FaceTracker.Update 1 [face 0; face (3 # 4)] ].

(** An anti-fraud manager with the default configuration. *)
Definition manager : @AntiFraud.t Q :=
  AntiFraud.init FaceTracker.default_tolerance
    FaceTracker.default_max_tracking_time.

(** A face right above the sample person, as the tracker labels it. *)
Definition labelled_face : @FaceTracker.FaceDetection Q :=
  FaceTracker.set_detection_face_id "face_0001" (face 0).

(** First cycle, at time 0: one face, and the person enters. *)
Definition boarding : @AntiFraud.Cycle Q :=
  {| AntiFraud.cy_faces := [face 0];
     AntiFraud.cy_zone_events := [entry_event 0 person 0];
     AntiFraud.cy_t_track := 0; AntiFraud.cy_t_update := 0;
     AntiFraud.cy_t_cleanup := 0 |}.

(** The manager after the boarding cycle: [face_0001] is inside since 0. *)
Definition boarded : @AntiFraud.t Q :=
  from_option fst manager
    (AntiFraud.process_frame_with_detections distance1 boarding manager).

Definition boarded_record : AntiFraud.PassengerRecord :=
  {| AntiFraud.face_id := "face_0001"; AntiFraud.entry_time := Some 0;
     AntiFraud.exit_time := None; AntiFraud.status := AntiFraud.inside;
     AntiFraud.zone_events := [("entry", 0)] |}.

(** A cycle in which the face encoder delivers nothing while two zone
    events arrive. *)
Definition faceless : @AntiFraud.Cycle Q :=
  {| AntiFraud.cy_faces := [];
     AntiFraud.cy_zone_events :=
       [entry_event 0 person 50; exit_event 1 person 50];
     AntiFraud.cy_t_track := 50; AntiFraud.cy_t_update := 50;
     AntiFraud.cy_t_cleanup := 50 |}.

(** An exit attributed to an identity that has no record yet. *)
Definition first_exit : ZoneEvent :=
  set_face_id (Some "face_0001") (exit_event 0 person 0).

End Samples.

(* ===================================================================== *)
(** ** The statements of the specification that the code does not meet *)
(* ===================================================================== *)

Module Stated.

(** "Calling [end_trip()] twice must not double-stamp [end_time]" and "no
    further mutation accepted afterward": on the trip [tr] ended at [now1],
    a second [end_trip] at [now2] and a later [update_passenger_count] and
    [add_event] leave the trip as it is. *)
Definition shutdown_idempotent_immutable (tr : Trip.t) (now1 now2 : Z)
    (uid : string) (now3 n : Z) (ty : Trip.EventType) : Prop :=
  let closed := Trip.end_trip now1 tr in
  Trip.end_time (Trip.end_trip now2 closed) = Trip.end_time closed /\
  Trip.events (Trip.end_trip now2 closed) = Trip.events closed /\
  Trip.update_passenger_count uid now3 n closed = closed /\
  (Trip.add_event uid now3 ty None closed).1 = closed.

(** "Negative count from external override: clamp to zero". *)
Definition negative_count_clamped (tr : Trip.t) (uid : string) (now n : Z)
    : Prop :=
  n < 0 ->
  Trip.current_passenger_count (Trip.update_passenger_count uid now n tr) = 0.


(** The distance from the most recent encoding of a tracked face. *)
Definition recent_distance {Encoding : Type}
    (face_distance : Encoding -> Encoding -> Q) (enc : Encoding)
    (tf : @FaceTracker.TrackedFace Encoding) : option Q :=
  (fun recent => face_distance recent enc) <$> last (FaceTracker.tf_encodings tf).

(** "Compute distance to the most recent embedding of every active
    identity; select the minimum": the identity a detection is matched to
    is at a distance no larger than that of any active identity. *)
Definition matches_global_minimum {Encoding : Type}
    (face_distance : Encoding -> Encoding -> Q)
    (detection : @FaceTracker.FaceDetection Encoding)
    (tr : @FaceTracker.t Encoding) : Prop :=
  forall fid tf d,
    FaceTracker.match_detection_to_tracked_face face_distance detection tr
      = Some fid ->
    ODict.get fid (FaceTracker.tracked_faces tr) = Some tf ->
    recent_distance face_distance (FaceTracker.fd_encoding detection) tf
      = Some d ->
    forall fid' tf' d',
      ODict.get fid' (FaceTracker.tracked_faces tr) = Some tf' ->
      FaceTracker.tf_status tf' = FaceTracker.active ->
      recent_distance face_distance (FaceTracker.fd_encoding detection) tf'
        = Some d' ->
      (d <= d')%Q.

(** "Identity ids are never reused", over a run of tracker operations that
    starts with a new tracker. *)
Definition ids_never_reused {Encoding : Type}
    (face_distance : Encoding -> Encoding -> Q) (tol : Q) (mtt : Z)
    (ops : list (@FaceTracker.Op Encoding)) : Prop :=
  NoDup (FaceTracker.run face_distance ops (FaceTracker.init tol mtt)).2.

End Stated.

(* ===================================================================== *)
(** * Properties *)
(* ===================================================================== *)

Module TripFacts.
Import Trip.

Lemma update_below_capacity uid now n tr :
  n <= max_capacity tr ->
  update_passenger_count uid now n tr =
  set_overload false (overload_events tr)
    (set_counts n (Z.max (max_passenger_count tr) n) tr).
Proof.
  intros Hle. unfold update_passenger_count. cbn [max_capacity set_counts].
  destruct (Z.gtb_spec n (max_capacity tr)) as [Hgt | _]; [lia | reflexivity].
Qed.

(** The counter of overload events moves by one exactly on a rising edge. *)
Lemma overload_events_step uid now n tr :
  overload_events (update_passenger_count uid now n tr) =
  overload_events tr +
  (if (n >? max_capacity tr) && negb (is_overloaded tr) then 1 else 0).
Proof.
  destruct tr as [? ? ? ? ? ? ? ? ? ? cap ov flag ? ? ? ? ?].
  unfold update_passenger_count. cbn.
  destruct (n >? cap), flag; cbn; lia.
Qed.

(** The flag after a call says whether the new count exceeds the capacity. *)
Lemma is_overloaded_step uid now n tr :
  is_overloaded (update_passenger_count uid now n tr) = (n >? max_capacity tr).
Proof.
  destruct tr as [? ? ? ? ? ? ? ? ? ? cap ov flag ? ? ? ? ?].
  unfold update_passenger_count. cbn.
  destruct (n >? cap), flag; reflexivity.
Qed.

(** C1. Overload detection is edge-triggered: on a trip of capacity 14 that
    is not overloaded and has seen no overload, the counts
    [5,10,15,10,16,10] leave [overload_events = 2] and append exactly two
    events, both [overload_detected], carrying the counts 15 and 16; every
    call moves the counter by one exactly on a false-to-true edge; and a
    call with [n <= max_capacity] clears [is_overloaded] and appends no
    event. *)
Theorem overload_edge_triggered (tr : t) (calls : list Call) :
  max_capacity tr = 14 ->
  is_overloaded tr = false ->
  overload_events tr = 0 ->
  c_count <$> calls = [5; 10; 15; 10; 16; 10] ->
  overload_events (feed calls tr) = 2 /\
  (exists e1 e2,
     events (feed calls tr) = events tr ++ [e1; e2] /\
     event_type e1 = OVERLOAD_DETECTED /\ passenger_count e1 = 15 /\
     event_type e2 = OVERLOAD_DETECTED /\ passenger_count e2 = 16) /\
  (forall uid now n tr0,
     overload_events (update_passenger_count uid now n tr0) =
     overload_events tr0 +
     (if (n >? max_capacity tr0) && negb (is_overloaded tr0) then 1 else 0)) /\
  (forall uid now n tr0,
     n <= max_capacity tr0 ->
     is_overloaded (update_passenger_count uid now n tr0) = false /\
     overload_events (update_passenger_count uid now n tr0) =
       overload_events tr0 /\
     events (update_passenger_count uid now n tr0) = events tr0).
Proof.
  intros Hcap Hflag Hcnt Hcalls.
  assert (Hrun :
    overload_events (feed calls tr) = 2 /\
    exists e1 e2,
      events (feed calls tr) = events tr ++ [e1; e2] /\
      event_type e1 = OVERLOAD_DETECTED /\ passenger_count e1 = 15 /\
      event_type e2 = OVERLOAD_DETECTED /\ passenger_count e2 = 16).
  { destruct calls as [|[u1 t1 n1] [|[u2 t2 n2] [|[u3 t3 n3] [|[u4 t4 n4]
      [|[u5 t5 n5] [|[u6 t6 n6] [|]]]]]]]; try discriminate Hcalls.
    injection Hcalls as -> -> -> -> -> ->.
    destruct tr; cbn in Hcap, Hflag, Hcnt; subst.
    cbn. split; [reflexivity |].
    eexists _, _. rewrite <- app_assoc. cbn. repeat split; reflexivity. }
  destruct Hrun as [H2 Hev].
  split; [exact H2 |]. split; [exact Hev |].
  split; [intros; apply overload_events_step |].
  intros uid now n tr0 Hle.
  rewrite (update_below_capacity _ _ _ _ Hle). cbn. auto.
Qed.

Lemma overload_edge_triggered_witness :
  overload_events (feed Samples.overload_calls Samples.trip) = 2 /\
  is_overloaded (update_passenger_count "uuid" 1 10 Samples.trip) = false.
Proof.
  destruct (overload_edge_triggered Samples.trip Samples.overload_calls
              eq_refl eq_refl eq_refl eq_refl) as (H2 & _ & _ & Hclear).
  split; [exact H2 |].
  apply (Hclear "uuid" 1 10 Samples.trip). vm_compute. discriminate.
Defined.


(** What [end_trip] writes: the status and the end time, nothing else. *)
Lemma end_trip_fields now tr :
  status (end_trip now tr) = COMPLETED /\
  end_time (end_trip now tr) = Some now /\
  events (end_trip now tr) = events tr /\
  current_passenger_count (end_trip now tr) = current_passenger_count tr.
Proof. repeat split. Qed.

(** A second [end_trip] overwrites the first. *)
Lemma end_trip_twice now1 now2 tr :
  end_trip now2 (end_trip now1 tr) = end_trip now2 tr.
Proof. reflexivity. Qed.

(** [update_passenger_count] does not look at [status] or [end_time]. *)
Lemma update_after_end uid now3 n now1 tr :
  update_passenger_count uid now3 n (end_trip now1 tr) =
  end_trip now1 (update_passenger_count uid now3 n tr).
Proof.
  destruct tr as [? ? ? ? ? ? ? ? ? ? cap ov flag ? ? ? ? ?].
  unfold update_passenger_count. cbn.
  destruct (n >? cap), flag; reflexivity.
Qed.

(** C7, as stated, fails: ending the sample trip at time 1 and again at
    time 2 moves [end_time] from 1 to 2, and a later
    [update_passenger_count(5)] is carried out on the completed trip. *)
Lemma shutdown_restamps_and_mutates :
  end_time (end_trip 2 (end_trip 1 Samples.trip)) = Some 2 /\
  end_time (end_trip 1 Samples.trip) = Some 1 /\
  current_passenger_count
    (update_passenger_count "uuid" 3 5 (end_trip 1 Samples.trip)) = 5 /\
  ~ Stated.shutdown_idempotent_immutable Samples.trip 1 2 "uuid" 3 5
      SYSTEM_ERROR.
Proof.
  repeat split.
  intros (Hend & _). vm_compute in Hend. discriminate Hend.
Qed.

(** C7, amended. [end_trip] sets the status to completed, stamps
    [end_time] with the clock and appends no event, on the first call and
    on every later one: a second call re-stamps [end_time] with its own
    clock reading, so [end_time] is unchanged only when both readings are
    equal.  A completed trip is not protected: [update_passenger_count]
    and [add_event] act on it exactly as on an open trip. *)
Theorem end_trip_restamps_no_guard (tr : t) (now1 now2 : Z) (uid : string)
    (now3 n : Z) (ty : EventType) (md : option Metadata) :
  status (end_trip now1 tr) = COMPLETED /\
  end_time (end_trip now1 tr) = Some now1 /\
  events (end_trip now1 tr) = events tr /\
  status (end_trip now2 (end_trip now1 tr)) = COMPLETED /\
  end_time (end_trip now2 (end_trip now1 tr)) = Some now2 /\
  events (end_trip now2 (end_trip now1 tr)) = events tr /\
  (end_time (end_trip now2 (end_trip now1 tr)) = end_time (end_trip now1 tr)
   <-> now2 = now1) /\
  update_passenger_count uid now3 n (end_trip now1 tr) =
    end_trip now1 (update_passenger_count uid now3 n tr) /\
  current_passenger_count
    (update_passenger_count uid now3 n (end_trip now1 tr)) = n /\
  events (add_event uid now3 ty md (end_trip now1 tr)).1 =
    events tr ++ [(add_event uid now3 ty md (end_trip now1 tr)).2] /\
  (add_event uid now3 ty md (end_trip now1 tr)).1 =
    end_trip now1 (add_event uid now3 ty md tr).1.
Proof.
  repeat apply conj; try reflexivity.
  - cbn. congruence.
  - intros ->. reflexivity.
  - apply update_after_end.
  - rewrite update_after_end. cbn.
    destruct tr as [? ? ? ? ? ? ? ? ? ? cap ov flag ? ? ? ? ?].
    unfold update_passenger_count. cbn.
    destruct (n >? cap), flag; reflexivity.
Qed.

(** C8, as stated, fails: the override [-3] on the sample trip is stored
    as it is. *)
Lemma negative_count_is_stored :
  current_passenger_count
    (update_passenger_count "uuid" 1 (-3) Samples.trip) = -3 /\
  ~ Stated.negative_count_clamped Samples.trip "uuid" 1 (-3).
Proof.
  split; [reflexivity |].
  intros H. specialize (H eq_refl). vm_compute in H. discriminate H.
Qed.

(** C8, amended. [update_passenger_count(n)] with [n < 0] does not raise
    and does not clamp: the stored count is [n] itself, hence negative;
    the maximum seen is left at [max(old, n)] and the trip's identity,
    status, times and capacity are as before, so the trip stays
    queryable. *)
Theorem negative_count_stored_unclamped (tr : t) (uid : string) (now n : Z) :
  n < 0 ->
  current_passenger_count (update_passenger_count uid now n tr) = n /\
  current_passenger_count (update_passenger_count uid now n tr) < 0 /\
  max_passenger_count (update_passenger_count uid now n tr) =
    Z.max (max_passenger_count tr) n /\
  status (update_passenger_count uid now n tr) = status tr /\
  max_capacity (update_passenger_count uid now n tr) = max_capacity tr /\
  (0 <= max_passenger_count tr ->
   max_passenger_count (update_passenger_count uid now n tr) =
     max_passenger_count tr).
Proof.
  intros Hneg.
  destruct tr as [? ? ? ? ? ? ? mx ? ? cap ov flag ? ? ? ? ?].
  unfold update_passenger_count. cbn.
  destruct (n >? cap), flag; cbn; repeat split; try lia.
Qed.

Lemma negative_count_stored_unclamped_witness :
  current_passenger_count
    (update_passenger_count "uuid" 1 (-3) Samples.trip) = -3.
Proof.
  apply (negative_count_stored_unclamped Samples.trip "uuid" 1 (-3)).
  reflexivity.
Defined.

End TripFacts.

Module PassengerCounterFacts.
Import PassengerCounter.

(** The count after one handled event, by event type. *)
Lemma handle_zone_event_count t_ev t_act event c c' :
  handle_zone_event t_ev t_act event c = Some c' ->
  (ze_type event = "entry" -> current_count c' = current_count c + 1) /\
  (ze_type event = "exit" ->
   current_count c' = Z.max 0 (current_count c - 1)) /\
  (ze_type event <> "entry" -> ze_type event <> "exit" ->
   current_count c' = current_count c).
Proof.
  unfold handle_zone_event.
  destruct (ze_detection event) as [d|]; [|discriminate].
  destruct (decide (ze_type event = "entry")) as [He|He];
    [|destruct (decide (ze_type event = "exit")) as [Hx|Hx]];
    intros [= <-]; cbn; repeat split; intros; congruence.
Qed.

Lemma handle_zone_event_nonneg t_ev t_act event c c' :
  handle_zone_event t_ev t_act event c = Some c' ->
  0 <= current_count c -> 0 <= current_count c'.
Proof.
  intros H Hc. pose proof (handle_zone_event_count _ _ _ _ _ H) as (He & Hx & Ho).
  destruct (decide (ze_type event = "entry")) as [E|E]; [rewrite (He E); lia|].
  destruct (decide (ze_type event = "exit")) as [X|X]; [rewrite (Hx X); lia|].
  rewrite (Ho E X). exact Hc.
Qed.

(** An event that carries its detection is handled. *)
Lemma handle_zone_event_total t_ev t_act event c :
  is_Some (ze_detection event) ->
  is_Some (handle_zone_event t_ev t_act event c).
Proof.
  intros [d Hd]. unfold handle_zone_event. rewrite Hd.
  destruct (decide (ze_type event = "entry"));
    [|destruct (decide (ze_type event = "exit"))]; eauto.
Qed.

Lemma observe_length steps c :
  Forall (fun s => is_Some (ze_detection (s_event s))) steps ->
  length (observe steps c) = length steps.
Proof.
  intros Hall. revert c.
  induction Hall as [|s steps Hs _ IH]; intros c; [reflexivity|].
  cbn [observe].
  destruct (handle_zone_event_total (s_t_ev s) (s_t_act s) (s_event s) c Hs)
    as [c' ->].
  cbn. f_equal. apply IH.
Qed.

Lemma observe_nonneg steps c :
  0 <= current_count c ->
  Forall (fun c' => 0 <= current_count c') (observe steps c).
Proof.
  revert c. induction steps as [|s steps IH]; intros c Hc; [constructor|].
  cbn [observe].
  destruct (handle_zone_event _ _ _ c) as [c'|] eqn:E; [|constructor].
  pose proof (handle_zone_event_nonneg _ _ _ _ _ E Hc).
  constructor; auto.
Qed.

(** C3. Count non-negativity: the counter starts at 0; for every sequence
    of zone events that carry their detection, every event is handled and
    [current_count >= 0] at each of the observation points; an entry adds
    one and an exit subtracts one but stops at 0. *)
Theorem count_never_negative (cap : Z) (steps : list Step) :
  Forall (fun s => is_Some (ze_detection (s_event s))) steps ->
  current_count (init cap) = 0 /\
  length (observe steps (init cap)) = length steps /\
  Forall (fun c => 0 <= current_count c) (observe steps (init cap)) /\
  (forall t_ev t_act event c c',
     handle_zone_event t_ev t_act event c = Some c' ->
     (ze_type event = "entry" -> current_count c' = current_count c + 1) /\
     (ze_type event = "exit" ->
      current_count c' = Z.max 0 (current_count c - 1)) /\
     (0 <= current_count c -> 0 <= current_count c')).
Proof.
  intros Hall. split; [reflexivity|].
  split; [apply observe_length, Hall|].
  split; [apply observe_nonneg; cbn; lia|].
  intros t_ev t_act event c c' H.
  pose proof (handle_zone_event_count _ _ _ _ _ H) as (He & Hx & _).
  repeat split; auto. apply (handle_zone_event_nonneg _ _ _ _ _ H).
Qed.

Lemma count_never_negative_witness :
  current_count <$> observe Samples.counter_steps (init 14) = [0; 1; 0; 0] /\
  Forall (fun c => 0 <= current_count c)
    (observe Samples.counter_steps (init 14)).
Proof.
  split; [reflexivity|].
  apply (count_never_negative 14 Samples.counter_steps).
  repeat constructor; eexists; reflexivity.
Defined.

End PassengerCounterFacts.

Module FaceTrackerFacts.
Import FaceTracker.

(** *** Face ids are read back uniquely *)

Lemma uint_of_string_zeros k s :
  NilEmpty.uint_of_string (String.append (zeros k) s) =
  lead_zeros k <$> NilEmpty.uint_of_string s.
Proof.
  induction k as [|k IH].
  - change (String.append (zeros 0) s) with s.
    destruct (NilEmpty.uint_of_string s); reflexivity.
  - change (String.append (zeros (S k)) s)
      with (String "0"%char (String.append (zeros k) s)).
    cbn [NilEmpty.uint_of_string]. rewrite IH.
    destruct (NilEmpty.uint_of_string s); reflexivity.
Qed.

Lemma of_uint_lead_zeros k d :
  Nat.of_uint (lead_zeros k d) = Nat.of_uint d.
Proof.
  induction k as [|k IH]; [reflexivity|]. cbn [lead_zeros].
  unfold Nat.of_uint in *. cbn [Nat.of_uint_acc]. exact IH.
Qed.

Lemma number_of_face_id_of n : number_of_face_id (face_id_of n) = Some n.
Proof.
  unfold face_id_of, format_04d.
  set (digits := NilEmpty.string_of_uint (Nat.to_uint n)).
  set (pad := zeros (4 - String.length digits)).
  change (number_of_face_id (String.append "face_" (String.append pad digits)))
    with (Nat.of_uint <$> NilEmpty.uint_of_string (String.append pad digits)).
  subst pad digits.
  rewrite uint_of_string_zeros, NilEmpty.usu. cbn [fmap option_fmap option_map].
  rewrite of_uint_lead_zeros, DecimalNat.Unsigned.of_to. reflexivity.
Qed.

Lemma face_id_of_inj n m : face_id_of n = face_id_of m -> n = m.
Proof.
  intros H. apply (f_equal number_of_face_id) in H.
  rewrite !number_of_face_id_of in H. congruence.
Qed.


Section WithEncoder.
Context {Encoding : Type}.
Variable face_distance : Encoding -> Encoding -> Q.

Abbreviation FaceDetection := (@FaceTracker.FaceDetection Encoding).
Abbreviation TrackedFace := (@FaceTracker.TrackedFace Encoding).
Abbreviation Tracker := (@FaceTracker.t Encoding).

(** *** Matching *)

Lemma match_detection_is_loop (detection : FaceDetection) (tr : Tracker) :
  match_detection_to_tracked_face face_distance detection tr =
  match_loop face_distance (tolerance tr) (fd_encoding detection)
    (tracked_faces tr).
Proof.
  unfold match_detection_to_tracked_face.
  destruct (tracked_faces tr); reflexivity.
Qed.

Lemma match_loop_step tol enc fid tf rest :
  (within face_distance tol enc tf /\
   match_loop face_distance tol enc ((fid, tf) :: rest) = Some fid) \/
  (~ within face_distance tol enc tf /\
   match_loop face_distance tol enc ((fid, tf) :: rest) =
   match_loop face_distance tol enc rest).
Proof.
  unfold within. cbn [match_loop].
  destruct (decide (tf_status tf = active)) as [Ha|Ha];
    [|right; split; [tauto | reflexivity]].
  destruct (last (tf_encodings tf)) as [recent|];
    [|right; split; [intros (_ & r & [=] & _) | reflexivity]].
  destruct (Qle_bool (face_distance recent enc) tol) eqn:Hle.
  - left. split; [|reflexivity]. split; [exact Ha|].
    exists recent. split; [reflexivity|]. apply Qle_bool_iff, Hle.
  - right. split; [|reflexivity].
    intros (_ & r & [= <-] & Hr). apply Qle_bool_iff in Hr. congruence.
Qed.

Lemma match_loop_None tol enc faces :
  match_loop face_distance tol enc faces = None <->
  (forall fid tf, (fid, tf) ∈ faces -> ~ within face_distance tol enc tf).
Proof.
  induction faces as [|[fid tf] rest IH].
  - split; [intros _ ? ? H; inversion H | reflexivity].
  - destruct (match_loop_step tol enc fid tf rest) as [[Hw ->] | [Hw ->]].
    + split; [discriminate|]. intros H. exfalso.
      apply (H fid tf); [left | exact Hw].
    + rewrite IH. split.
      * intros H f t Hin.
        apply elem_of_cons in Hin as [[= -> ->] | Hin]; [exact Hw|].
        apply (H f t Hin).
      * intros H f t Hin. apply (H f t). right. exact Hin.
Qed.

Lemma match_loop_Some tol enc faces fid :
  match_loop face_distance tol enc faces = Some fid ->
  exists before tf after,
    faces = before ++ (fid, tf) :: after /\
    within face_distance tol enc tf /\
    (forall fid' tf', (fid', tf') ∈ before -> ~ within face_distance tol enc tf').
Proof.
  induction faces as [|[k tf] rest IH]; [discriminate|].
  destruct (match_loop_step tol enc k tf rest) as [[Hw ->] | [Hw ->]].
  - intros [= ->]. exists [], tf, rest. split; [reflexivity|].
    split; [exact Hw|]. intros ? ? H. inversion H.
  - intros H. destruct (IH H) as (before & tf' & after & -> & Hw' & Hb).
    exists ((k, tf) :: before), tf', after. split; [reflexivity|].
    split; [exact Hw'|].
    intros f t Hin. apply elem_of_cons in Hin as [[= -> ->] | Hin]; [exact Hw|].
    apply (Hb f t Hin).
Qed.

(** *** Numbering *)

Lemma track_detection_unmatched now (detection : FaceDetection) (tr : Tracker) :
  match_detection_to_tracked_face face_distance detection tr = None ->
  (track_detection face_distance now detection tr).2 =
    Created (face_id_of (next_face_id tr)) /\
  next_face_id (track_detection face_distance now detection tr).1 =
    S (next_face_id tr) /\
  tracked_faces (track_detection face_distance now detection tr).1 =
    ODict.set (face_id_of (next_face_id tr)) (fresh_face now detection tr)
      (tracked_faces tr).
Proof.
  intros H. unfold track_detection. rewrite H. repeat split.
Qed.

Lemma track_detection_matched now (detection : FaceDetection) (tr : Tracker)
    fid :
  match_detection_to_tracked_face face_distance detection tr = Some fid ->
  fid <> "" ->
  (track_detection face_distance now detection tr).2 = Matched fid /\
  next_face_id (track_detection face_distance now detection tr).1 =
    next_face_id tr /\
  tracked_faces (track_detection face_distance now detection tr).1 =
    ODict.update (refresh now (fd_encoding detection)) fid (tracked_faces tr).
Proof.
  intros H Hne. unfold track_detection. rewrite H.
  destruct (decide (fid = "")); [contradiction|]. repeat split.
Qed.

(** Either an identity is created under the next number, which is then
    consumed, or none is created and the number stays. *)
Lemma track_detection_numbering now (detection : FaceDetection) (tr : Tracker) :
  let r := track_detection face_distance now detection tr in
  (created_ids [r.2] = [face_id_of (next_face_id tr)] /\
   next_face_id r.1 = S (next_face_id tr)) \/
  (created_ids [r.2] = [] /\ next_face_id r.1 = next_face_id tr).
Proof.
  unfold track_detection.
  destruct (match_detection_to_tracked_face _ _ _) as [fid|];
    [destruct (decide (fid = ""))|]; cbn; auto.
Qed.

Lemma created_ids_cons (o : Outcome) os :
  created_ids (o :: os) = created_ids [o] ++ created_ids os.
Proof. destruct o; reflexivity. Qed.

Lemma seq_ids_cons a b :
  (S a <= b)%nat ->
  face_id_of a :: (face_id_of <$> seq (S a) (b - S a)) =
  face_id_of <$> seq a (b - a).
Proof.
  intros H. replace (b - a)%nat with (S (b - S a)) by lia. reflexivity.
Qed.

Lemma track_all_numbering now (detections : list FaceDetection) (tr : Tracker) :
  let r := track_all face_distance now detections tr in
  (next_face_id tr <= next_face_id r.1.1)%nat /\
  created_ids r.2 =
    face_id_of <$> seq (next_face_id tr) (next_face_id r.1.1 - next_face_id tr).
Proof.
  revert tr. induction detections as [|d rest IH]; intros tr.
  - cbn. split; [lia|]. rewrite Nat.sub_diag. reflexivity.
  - cbn [track_all].
    pose proof (track_detection_numbering now d tr) as Hd.
    destruct (track_detection face_distance now d tr) as [tr1 o].
    specialize (IH tr1).
    destruct (track_all face_distance now rest tr1) as [[tr2 ds] os].
    cbn [fst snd] in *. destruct IH as [Hle Hids].
    rewrite (created_ids_cons o os).
    destruct Hd as [[-> Hn] | [-> Hn]]; rewrite Hn in *; cbn [app].
    + split; [lia|]. rewrite Hids. apply seq_ids_cons. lia.
    + split; [lia|]. exact Hids.
Qed.

Lemma update_tracking_numbering now (detections : list FaceDetection)
    (tr : Tracker) :
  let r := update_tracking face_distance now detections tr in
  (next_face_id tr <= next_face_id (tracker r))%nat /\
  created_ids (outcomes r) =
    face_id_of <$>
      seq (next_face_id tr) (next_face_id (tracker r) - next_face_id tr).
Proof.
  unfold update_tracking.
  pose proof (track_all_numbering now detections tr) as H.
  destruct (track_all face_distance now detections tr) as [[tr1 ds] os].
  exact H.
Qed.

Lemma seq_ids_app a b c :
  (a <= b)%nat -> (b <= c)%nat ->
  (face_id_of <$> seq a (b - a)) ++ (face_id_of <$> seq b (c - b)) =
  face_id_of <$> seq a (c - a).
Proof.
  intros Hab Hbc. rewrite <- fmap_app. f_equal.
  replace (c - a)%nat with ((b - a) + (c - b))%nat by lia.
  rewrite seq_app. do 2 f_equal. lia.
Qed.

(** Between resets the ids created are those of consecutive numbers,
    starting with the tracker's next number. *)
Lemma run_numbering (ops : list (@Op Encoding)) (tr : Tracker) :
  Forall (fun o => is_reset o = false) ops ->
  let r := run face_distance ops tr in
  (next_face_id tr <= next_face_id r.1)%nat /\
  r.2 = face_id_of <$> seq (next_face_id tr) (next_face_id r.1 - next_face_id tr).
Proof.
  intros Hall. revert tr.
  induction Hall as [|o ops Ho _ IH]; intros tr.
  - cbn. split; [lia|]. rewrite Nat.sub_diag. reflexivity.
  - destruct o as [now ds|]; [|discriminate Ho]. cbn [run].
    pose proof (update_tracking_numbering now ds tr) as [Hle1 Hids1].
    specialize (IH (tracker (update_tracking face_distance now ds tr))).
    destruct (run face_distance ops _) as [tr' ids].
    cbn in *. destruct IH as [Hle2 ->]. rewrite Hids1.
    split; [lia|]. apply seq_ids_app; assumption.
Qed.

Lemma NoDup_face_ids a n : NoDup (face_id_of <$> seq a n).
Proof.
  apply NoDup_fmap_2; [intros x y; apply face_id_of_inj | apply NoDup_seq].
Qed.

End WithEncoder.

(** C6, as stated, fails: with two active identities whose latest
    encodings are 0 and 3/4, a detection with encoding 1/2 is at distance
    1/2 from the first and 1/4 from the second, both within the tolerance
    0.6; the tracker returns the first, not the nearest. *)
Lemma first_match_is_not_nearest :
  match_detection_to_tracked_face Samples.distance1 (Samples.face (1 # 2))
    Samples.two_faces = Some "face_0001" /\
  (Stated.recent_distance Samples.distance1 (1 # 2) <$>
     ODict.get "face_0001" (tracked_faces Samples.two_faces))
    = Some (Some (1 # 2)) /\
  (Stated.recent_distance Samples.distance1 (1 # 2) <$>
     ODict.get "face_0002" (tracked_faces Samples.two_faces))
    = Some (Some (1 # 4)) /\
  ~ Stated.matches_global_minimum Samples.distance1 (Samples.face (1 # 2))
      Samples.two_faces.
Proof.
  split; [reflexivity|]. split; [reflexivity|]. split; [reflexivity|].
  intros H.
  pose proof (H "face_0001" _ _ eq_refl eq_refl eq_refl
                "face_0002" _ _ eq_refl eq_refl eq_refl) as Hle.
  vm_compute in Hle. apply Hle. reflexivity.
Qed.

(** C6, amended. A detection is matched to the first active identity, in
    the order in which the identities were created, whose most recent
    encoding is at a distance within the tolerance; it need not be the
    nearest one.  No identity is returned exactly when no active identity
    is within the tolerance (that is, when the minimum distance exceeds
    it), and then a new identity is created under the next number. *)
Theorem match_first_within_tolerance {Encoding : Type}
    (face_distance : Encoding -> Encoding -> Q)
    (detection : @FaceDetection Encoding) (tr : @FaceTracker.t Encoding) (now : Z) :
  (match_detection_to_tracked_face face_distance detection tr = None <->
   forall fid tf, (fid, tf) ∈ tracked_faces tr ->
     ~ within face_distance (tolerance tr) (fd_encoding detection) tf) /\
  (forall fid,
     match_detection_to_tracked_face face_distance detection tr = Some fid ->
     exists before tf after,
       tracked_faces tr = before ++ (fid, tf) :: after /\
       within face_distance (tolerance tr) (fd_encoding detection) tf /\
       (forall fid' tf', (fid', tf') ∈ before ->
          ~ within face_distance (tolerance tr) (fd_encoding detection) tf')) /\
  (forall fid,
     match_detection_to_tracked_face face_distance detection tr = Some fid ->
     fid <> "" ->
     (track_detection face_distance now detection tr).2 = Matched fid /\
     next_face_id (track_detection face_distance now detection tr).1 =
       next_face_id tr /\
     tracked_faces (track_detection face_distance now detection tr).1 =
       ODict.update (refresh now (fd_encoding detection)) fid
         (tracked_faces tr)) /\
  (match_detection_to_tracked_face face_distance detection tr = None ->
   (track_detection face_distance now detection tr).2 =
     Created (face_id_of (next_face_id tr)) /\
   next_face_id (track_detection face_distance now detection tr).1 =
     S (next_face_id tr) /\
   tracked_faces (track_detection face_distance now detection tr).1 =
     ODict.set (face_id_of (next_face_id tr)) (fresh_face now detection tr)
       (tracked_faces tr)).
Proof.
  rewrite match_detection_is_loop.
  split; [apply match_loop_None|].
  split; [intros fid; apply match_loop_Some|].
  split.
  - intros fid H Hne. apply track_detection_matched; [|exact Hne].
    rewrite match_detection_is_loop. exact H.
  - intros H. apply track_detection_unmatched.
    rewrite match_detection_is_loop. exact H.
Qed.

(** C9, as stated, fails: a detection, a reset and a detection again
    create two identities, both named [face_0001]. *)
Lemma reset_reuses_face_id :
  (run Samples.distance1 Samples.ops_with_reset
     (init default_tolerance default_max_tracking_time)).2
    = ["face_0001"; "face_0001"] /\
  ~ Stated.ids_never_reused Samples.distance1 default_tolerance
      default_max_tracking_time Samples.ops_with_reset.
Proof.
  split; [reflexivity|].
  unfold Stated.ids_never_reused. intros H.
  change (NoDup ["face_0001"; "face_0001"]) in H.
  apply NoDup_cons in H as [Hnotin _]. apply Hnotin. left.
Qed.

(** C9, amended. Over every sequence of detection updates (with their
    aging and purges) that contains no reset, no id given to a new
    identity equals one given before: the ids are those of consecutive
    numbers from the tracker's counter on.  [reset_tracking] sets the
    counter back to 1, so ids are unique between resets only. *)
Theorem ids_unique_between_resets {Encoding : Type}
    (face_distance : Encoding -> Encoding -> Q) (tol : Q) (mtt : Z)
    (ops : list (@Op Encoding)) :
  Forall (fun o => is_reset o = false) ops ->
  NoDup (run face_distance ops (init tol mtt)).2 /\
  (forall tr : @FaceTracker.t Encoding,
     NoDup (run face_distance ops tr).2 /\
     (run face_distance ops tr).2 =
       face_id_of <$>
         seq (next_face_id tr)
             (next_face_id (run face_distance ops tr).1 - next_face_id tr) /\
     next_face_id (reset_tracking tr) = 1%nat).
Proof.
  intros Hall.
  assert (Hany : forall tr : @FaceTracker.t Encoding,
            NoDup (run face_distance ops tr).2).
  { intros tr. destruct (run_numbering face_distance ops tr Hall) as [_ ->].
    apply NoDup_face_ids. }
  split; [apply Hany|].
  intros tr. split; [apply Hany|]. split; [|reflexivity].
  apply (run_numbering face_distance ops tr Hall).
Qed.

Lemma ids_unique_between_resets_witness :
  (run Samples.distance1 Samples.ops_without_reset
     (init default_tolerance default_max_tracking_time)).2
    = ["face_0001"; "face_0002"] /\
  NoDup (run Samples.distance1 Samples.ops_without_reset
           (init default_tolerance default_max_tracking_time)).2.
Proof.
  split; [reflexivity|].
  apply (ids_unique_between_resets Samples.distance1 default_tolerance
           default_max_tracking_time Samples.ops_without_reset).
  repeat constructor.
Defined.

End FaceTrackerFacts.

Module AntiFraudFacts.
Import AntiFraud.

Section WithEncoder.
Context {Encoding : Type}.
Variable face_distance : Encoding -> Encoding -> Q.

Abbreviation FaceDetection := (@FaceTracker.FaceDetection Encoding).
Abbreviation TrackedFace := (@FaceTracker.TrackedFace Encoding).
Abbreviation Manager := (@AntiFraud.t Encoding).

(** *** Validation reads the records and writes one counter *)

Lemma validate_event_frame (e : ZoneEvent) (faces : list FaceDetection)
    (m : Manager) :
  passenger_records (validate_event e faces m).1 = passenger_records m /\
  face_tracker (validate_event e faces m).1 = face_tracker m /\
  temporary_exit_timeout (validate_event e faces m).1 =
    temporary_exit_timeout m /\
  temporary_exits_handled (stats (validate_event e faces m).1) =
    temporary_exits_handled (stats m) /\
  unique_passengers_seen (stats (validate_event e faces m).1) =
    unique_passengers_seen (stats m).
Proof.
  unfold validate_event.
  destruct (match_zone_event_to_face e faces) as [fd|]; [|repeat split].
  destruct (is_legitimate_event _ _ m); repeat split.
Qed.

Lemma is_legitimate_event_records ty fid (m m' : Manager) :
  passenger_records m = passenger_records m' ->
  is_legitimate_event ty fid m = is_legitimate_event ty fid m'.
Proof. unfold is_legitimate_event. intros ->. reflexivity. Qed.

(** With the same records, the same events pass and the counter moves by
    the same amount. *)
Lemma validate_event_records (e : ZoneEvent) (faces : list FaceDetection)
    (m m' : Manager) :
  passenger_records m = passenger_records m' ->
  (validate_event e faces m).2 = (validate_event e faces m').2 /\
  prevented_double_counts (stats (validate_event e faces m).1)
    - prevented_double_counts (stats m) =
  prevented_double_counts (stats (validate_event e faces m').1)
    - prevented_double_counts (stats m').
Proof.
  intros Hrec. unfold validate_event.
  destruct (match_zone_event_to_face e faces) as [fd|]; [|split; cbn; [reflexivity|lia]].
  rewrite (is_legitimate_event_records _ _ m m' Hrec).
  destruct (is_legitimate_event _ _ m'); cbn; split; try reflexivity; lia.
Qed.

Lemma validate_zone_events_frame (evs : list ZoneEvent)
    (faces : list FaceDetection) (m : Manager) :
  passenger_records (validate_zone_events evs faces m).1 = passenger_records m /\
  face_tracker (validate_zone_events evs faces m).1 = face_tracker m /\
  temporary_exit_timeout (validate_zone_events evs faces m).1 =
    temporary_exit_timeout m /\
  temporary_exits_handled (stats (validate_zone_events evs faces m).1) =
    temporary_exits_handled (stats m) /\
  unique_passengers_seen (stats (validate_zone_events evs faces m).1) =
    unique_passengers_seen (stats m).
Proof.
  revert m. induction evs as [|e evs IH]; intros m; [repeat split|].
  cbn [validate_zone_events].
  pose proof (validate_event_frame e faces m) as Hf.
  destruct (validate_event e faces m) as [m1 out].
  specialize (IH m1).
  destruct (validate_zone_events evs faces m1) as [m2 outs].
  cbn [fst snd] in *.
  destruct Hf as (Ha & Hb & Hc & Hd & He).
  destruct IH as (Ha' & Hb' & Hc' & Hd' & He').
  repeat split; congruence.
Qed.

Lemma validate_zone_events_records (evs : list ZoneEvent)
    (faces : list FaceDetection) (m m' : Manager) :
  passenger_records m = passenger_records m' ->
  (validate_zone_events evs faces m).2 = (validate_zone_events evs faces m').2 /\
  prevented_double_counts (stats (validate_zone_events evs faces m).1)
    - prevented_double_counts (stats m) =
  prevented_double_counts (stats (validate_zone_events evs faces m').1)
    - prevented_double_counts (stats m').
Proof.
  revert m m'. induction evs as [|e evs IH]; intros m m' Hrec.
  - cbn. split; [reflexivity|lia].
  - cbn [validate_zone_events].
    pose proof (validate_event_records e faces m m' Hrec) as [Ho Hp].
    pose proof (validate_event_frame e faces m) as (Hr1 & _).
    pose proof (validate_event_frame e faces m') as (Hr1' & _).
    destruct (validate_event e faces m) as [m1 out].
    destruct (validate_event e faces m') as [m1' out'].
    cbn [fst snd] in *.
    assert (Hrec1 : passenger_records m1 = passenger_records m1') by congruence.
    specialize (IH m1 m1' Hrec1).
    destruct (validate_zone_events evs faces m1) as [m2 outs].
    destruct (validate_zone_events evs faces m1') as [m2' outs'].
    cbn [fst snd] in *. destruct IH as [-> Hq]. subst out'.
    split; [reflexivity|lia].
Qed.

Lemma validate_zone_events_app (a b : list ZoneEvent)
    (faces : list FaceDetection) (m : Manager) :
  validate_zone_events (a ++ b) faces m =
  ((validate_zone_events b faces (validate_zone_events a faces m).1).1,
   (validate_zone_events a faces m).2 ++
   (validate_zone_events b faces (validate_zone_events a faces m).1).2).
Proof.
  revert m. induction a as [|e a IH]; intros m.
  - cbn. destruct (validate_zone_events b faces m); reflexivity.
  - cbn [app validate_zone_events].
    destruct (validate_event e faces m) as [m1 out].
    rewrite (IH m1).
    destruct (validate_zone_events a faces m1) as [m2 outs].
    cbn [fst snd].
    destruct (validate_zone_events b faces m2) as [m3 outs3].
    cbn [fst snd]. rewrite app_assoc. reflexivity.
Qed.

(** *** The legitimacy rule *)

Lemma is_legitimate_event_new ty fid (m : Manager) :
  passenger_records m !! fid = None ->
  is_legitimate_event ty (Some fid) m = true.
Proof. unfold is_legitimate_event. cbn. intros ->. reflexivity. Qed.

Lemma is_legitimate_entry fid record (m : Manager) :
  passenger_records m !! fid = Some record ->
  (is_legitimate_event "entry" (Some fid) m = true <->
   status record = outside \/ status record = temporary_exit).
Proof.
  unfold is_legitimate_event. cbn. intros ->.
  destruct (decide ("entry" = "entry")) as [_|Hne]; [|contradiction].
  apply bool_decide_eq_true.
Qed.

Lemma is_legitimate_exit fid record (m : Manager) :
  passenger_records m !! fid = Some record ->
  (is_legitimate_event "exit" (Some fid) m = true <-> status record = inside).
Proof.
  unfold is_legitimate_event. cbn. intros ->.
  destruct (decide ("exit" = "entry")) as [Heq|_]; [discriminate Heq|].
  destruct (decide ("exit" = "exit")) as [_|Hne]; [|contradiction].
  apply bool_decide_eq_true.
Qed.

Lemma double_entry_rejected (m : Manager) (event : ZoneEvent)
    (faces : list FaceDetection) (matched : FaceDetection) fid record :
  match_zone_event_to_face event faces = Some matched ->
  FaceTracker.fd_face_id matched = Some fid ->
  passenger_records m !! fid = Some record ->
  status record = inside ->
  ze_type event = "entry" ->
  (validate_event event faces m).2 = [] /\
  prevented_double_counts (stats (validate_event event faces m).1) =
    prevented_double_counts (stats m) + 1.
Proof.
  intros Hm Hfid Hrec Hst Hty. unfold validate_event.
  rewrite Hm, Hfid, Hty.
  destruct (is_legitimate_event "entry" (Some fid) m) eqn:Hl; [|split; reflexivity].
  apply (is_legitimate_entry fid record m Hrec) in Hl.
  rewrite Hst in Hl. destruct Hl; discriminate.
Qed.

(** C2. Double-count suppression: a zone event of type entry that is
    matched by position to a face whose identity has a record with status
    inside is not legitimate; wherever it stands among the zone events of
    the cycle, the validated events are those of the cycle without it,
    [prevented_double_counts] ends one higher than without it, and
    validation leaves every passenger record as it was.  Entry is
    legitimate exactly for status outside or temporary_exit, and an
    identity without a record may do anything. *)
Theorem double_entry_suppressed (m : Manager) (event : ZoneEvent)
    (faces : list FaceDetection) (matched : FaceDetection) (fid : string)
    (record : PassengerRecord) (before after : list ZoneEvent) :
  match_zone_event_to_face event faces = Some matched ->
  FaceTracker.fd_face_id matched = Some fid ->
  passenger_records m !! fid = Some record ->
  status record = inside ->
  ze_type event = "entry" ->
  is_legitimate_event "entry" (Some fid) m = false /\
  (validate_zone_events (before ++ event :: after) faces m).2 =
    (validate_zone_events (before ++ after) faces m).2 /\
  prevented_double_counts
    (stats (validate_zone_events (before ++ event :: after) faces m).1) =
  prevented_double_counts
    (stats (validate_zone_events (before ++ after) faces m).1) + 1 /\
  passenger_records (validate_zone_events (before ++ event :: after) faces m).1
    = passenger_records m /\
  passenger_records (validate_zone_events (before ++ event :: after) faces m).1
    !! fid = Some record /\
  (forall f r (m0 : Manager),
     passenger_records m0 !! f = Some r ->
     (is_legitimate_event "entry" (Some f) m0 = true <->
      status r = outside \/ status r = temporary_exit)) /\
  (forall ty f (m0 : Manager),
     passenger_records m0 !! f = None ->
     is_legitimate_event ty (Some f) m0 = true).
Proof.
  intros Hm Hfid Hrec Hst Hty.
  assert (Hframe : passenger_records
            (validate_zone_events (before ++ event :: after) faces m).1
            = passenger_records m) by apply validate_zone_events_frame.
  split.
  { destruct (is_legitimate_event "entry" (Some fid) m) eqn:Hl; [|reflexivity].
    apply (is_legitimate_entry fid record m Hrec) in Hl.
    rewrite Hst in Hl. destruct Hl; discriminate. }
  rewrite Hframe.
  rewrite !validate_zone_events_app. cbn [fst snd].
  set (m1 := (validate_zone_events before faces m).1).
  assert (Hrec1 : passenger_records m1 = passenger_records m)
    by apply validate_zone_events_frame.
  assert (Hrec1' : passenger_records m1 !! fid = Some record)
    by (rewrite Hrec1; exact Hrec).
  pose proof (double_entry_rejected m1 event faces matched fid record
                Hm Hfid Hrec1' Hst Hty) as [Hout Hcnt].
  pose proof (validate_event_frame event faces m1) as (Hr2 & _).
  cbn [validate_zone_events].
  destruct (validate_event event faces m1) as [m2 out].
  cbn [fst snd] in *. subst out.
  pose proof (validate_zone_events_records after faces m2 m1 Hr2) as [Ho Hp].
  destruct (validate_zone_events after faces m2) as [m3 outs].
  cbn [fst snd] in *.
  split; [rewrite Ho; reflexivity|].
  split; [lia|].
  split; [reflexivity|].
  split; [exact Hrec|].
  split; [intros f r m0; apply is_legitimate_entry|].
  intros ty f m0. apply is_legitimate_event_new.
Qed.

(** *** Events without an identity *)

Lemma apply_event_no_face now (e : ZoneEvent) (m : Manager) :
  ze_face_id e = None -> apply_event now e m = m.
Proof. unfold apply_event. intros ->. reflexivity. Qed.

Lemma validate_without_faces (evs : list ZoneEvent) (m : Manager) :
  validate_zone_events evs [] m = (m, evs).
Proof.
  induction evs as [|e evs IH]; [reflexivity|].
  cbn [validate_zone_events]. unfold validate_event. cbn. rewrite IH.
  reflexivity.
Qed.

Lemma apply_events_no_face now (evs : list ZoneEvent) (m : Manager) :
  Forall (fun e => ze_face_id e = None) evs -> apply_events now evs m = m.
Proof.
  intros Hall. unfold apply_events.
  induction Hall as [|e evs He _ IH]; [reflexivity|].
  cbn. rewrite (apply_event_no_face now e m He). exact IH.
Qed.

(** *** The record loop *)

Lemma apply_event_other now (e : ZoneEvent) (m : Manager) fid :
  not_for fid e ->
  passenger_records (apply_event now e m) !! fid = passenger_records m !! fid.
Proof.
  unfold not_for, apply_event. intros Hne.
  destruct (ze_face_id e) as [f|]; [|reflexivity].
  destruct (decide (f = "")); [reflexivity|].
  assert (f <> fid) by congruence.
  destruct (passenger_records m !! f) as [r|];
    [destruct (decide (ze_type e = "entry"));
       [|destruct (decide (ze_type e = "exit"))]|];
    cbn; rewrite lookup_insert_ne by assumption; reflexivity.
Qed.

Lemma apply_events_other now (evs : list ZoneEvent) (m : Manager) fid :
  Forall (not_for fid) evs ->
  passenger_records (apply_events now evs m) !! fid = passenger_records m !! fid.
Proof.
  intros Hall. revert m. unfold apply_events.
  induction Hall as [|e evs He _ IH]; intros m; [reflexivity|].
  cbn. rewrite IH. apply apply_event_other, He.
Qed.

Lemma apply_event_well_formed now (e : ZoneEvent) (m : Manager) :
  well_formed m -> well_formed (apply_event now e m).
Proof.
  unfold well_formed, apply_event. intros Hwf.
  destruct (ze_face_id e) as [f|]; [|exact Hwf].
  destruct (decide (f = "")); [exact Hwf|].
  destruct (passenger_records m !! f) as [r|] eqn:Hr.
  - pose proof (Hwf f r Hr) as Hin.
    destruct (decide (ze_type e = "entry"));
      [|destruct (decide (ze_type e = "exit"))];
      cbn; apply map_Forall_insert_2; try exact Hwf;
      unfold entered_when_inside; cbn; eauto; discriminate.
  - cbn. apply map_Forall_insert_2; [|exact Hwf].
    unfold entered_when_inside. cbn.
    destruct (decide (ze_type e = "entry")); [eauto|discriminate].
Qed.

Lemma apply_events_well_formed now (evs : list ZoneEvent) (m : Manager) :
  well_formed m -> well_formed (apply_events now evs m).
Proof.
  revert m. unfold apply_events.
  induction evs as [|e evs IH]; intros m Hwf; [exact Hwf|].
  cbn. apply IH, apply_event_well_formed, Hwf.
Qed.

Lemma apply_events_frame now (evs : list ZoneEvent) (m : Manager) :
  temporary_exit_timeout (apply_events now evs m) = temporary_exit_timeout m /\
  face_tracker (apply_events now evs m) = face_tracker m.
Proof.
  revert m. unfold apply_events.
  induction evs as [|e evs IH]; intros m; [split; reflexivity|].
  cbn. destruct (IH (apply_event now e m)) as [-> ->].
  unfold apply_event.
  destruct (ze_face_id e) as [f|]; [|split; reflexivity].
  destruct (decide (f = "")); [split; reflexivity|].
  destruct (passenger_records m !! f) as [r|];
    [destruct (decide (ze_type e = "entry"));
       [|destruct (decide (ze_type e = "exit"))]|];
    split; reflexivity.
Qed.

(** *** The silence rule *)

(** What the second loop may do to a record: nothing, or move it from
    inside to temporary_exit. *)
Lemma silence_one_spec active now timeout fid (r r' : PassengerRecord) :
  silence_one active now timeout fid r = Some r' ->
  face_id r' = face_id r /\ entry_time r' = entry_time r /\
  exit_time r' = exit_time r /\ zone_events r' = zone_events r /\
  (r' = r \/ (status r = inside /\ status r' = temporary_exit)).
Proof.
  unfold silence_one.
  destruct (decide (status r = inside /\ fid ∉ active)) as [[Hin _]|_];
    [|intros [= <-]; repeat split; auto].
  destruct (entry_time r) as [entered|] eqn:He; [|discriminate].
  destruct (now - entered >? timeout * usec_per_sec);
    intros [= <-]; cbn; repeat split; auto.
Qed.

Lemma silence_one_keeps_outside active now timeout fid (r : PassengerRecord) :
  status r <> inside -> silence_one active now timeout fid r = Some r.
Proof.
  intros Hne. unfold silence_one.
  destruct (decide (status r = inside /\ fid ∉ active)) as [[Hin _]|_];
    [contradiction|reflexivity].
Qed.

Lemma silence_one_total active now timeout fid (r : PassengerRecord) :
  entered_when_inside r -> is_Some (silence_one active now timeout fid r).
Proof.
  unfold entered_when_inside, silence_one. intros Hwf.
  destruct (decide (status r = inside /\ fid ∉ active)) as [[Hin _]|_]; [|eauto].
  destruct (Hwf Hin) as [entered ->].
  destruct (now - entered >? timeout * usec_per_sec); eauto.
Qed.

Lemma silence_one_well_formed active now timeout fid (r r' : PassengerRecord) :
  silence_one active now timeout fid r = Some r' ->
  entered_when_inside r -> entered_when_inside r'.
Proof.
  intros H Hwf.
  destruct (silence_one_spec _ _ _ _ _ _ H) as (_ & He & _ & _ & [-> | [_ Ht]]);
    [exact Hwf|].
  unfold entered_when_inside. rewrite Ht. discriminate.
Qed.

Lemma silence_pass_total active now (m : Manager) :
  well_formed m ->
  exists m',
    silence_pass active now m = Some m' /\
    well_formed m' /\
    stats m' = stats m /\
    temporary_exit_timeout m' = temporary_exit_timeout m /\
    face_tracker m' = face_tracker m /\
    (forall fid,
       passenger_records m' !! fid =
       passenger_records m !! fid ≫=
         silence_one active now (temporary_exit_timeout m) fid).
Proof.
  intros Hwf. unfold silence_pass.
  destruct (decide (map_Forall _ (passenger_records m))) as [_|Hno].
  - eexists. split; [reflexivity|]. cbn.
    split; [|repeat split; intros fid; apply map_lookup_imap].
    intros fid r'. unfold well_formed. cbn. rewrite map_lookup_imap.
    destruct (passenger_records m !! fid) as [r|] eqn:Hr; [|discriminate].
    cbn. intros H. apply (silence_one_well_formed _ _ _ _ _ _ H), (Hwf fid r Hr).
  - exfalso. apply Hno. intros fid r Hr.
    apply silence_one_total, (Hwf fid r Hr).
Qed.

(** *** Cleanup *)

Lemma cleanup_lookup now (m : Manager) fid r :
  passenger_records (cleanup_old_records now m) !! fid = Some r <->
  passenger_records m !! fid = Some r /\ ~ expired (now - usec_per_hour) r.
Proof. unfold cleanup_old_records. cbn. apply map_lookup_filter_Some. Qed.

Lemma cleanup_well_formed now (m : Manager) :
  well_formed m -> well_formed (cleanup_old_records now m).
Proof.
  intros Hwf fid r Hr. apply cleanup_lookup in Hr as [Hr _].
  apply (Hwf fid r Hr).
Qed.

Lemma never_stamped_not_expired th (r : PassengerRecord) :
  entry_time r = None -> exit_time r = None -> ~ expired th r.
Proof. unfold expired, last_activity. intros -> ->. tauto. Qed.

(** *** A whole cycle *)

Lemma well_formed_records (m m' : Manager) :
  passenger_records m = passenger_records m' -> well_formed m -> well_formed m'.
Proof. unfold well_formed. intros ->. auto. Qed.

(** From a well-formed manager a cycle does not raise; it is validation,
    the record loop, the silence rule and cleanup in a row. *)
Lemma process_frame_total (c : Cycle) (m : Manager) :
  well_formed m ->
  exists m1 validated m2 m3,
    validate_zone_events (cy_zone_events c)
      (FaceTracker.labelled
         (FaceTracker.update_tracking face_distance (cy_t_track c)
            (cy_faces c) (face_tracker m)))
      (tracked_manager face_distance c m) = (m1, validated) /\
    passenger_records m1 = passenger_records m /\
    m2 = apply_events (cy_t_update c) validated m1 /\
    silence_pass
      (active_face_ids
         (FaceTracker.result
            (FaceTracker.update_tracking face_distance (cy_t_track c)
               (cy_faces c) (face_tracker m))))
      (cy_t_update c) m2 = Some m3 /\
    (forall fid,
       passenger_records m3 !! fid =
       passenger_records m2 !! fid ≫=
         silence_one
           (active_face_ids
              (FaceTracker.result
                 (FaceTracker.update_tracking face_distance (cy_t_track c)
                    (cy_faces c) (face_tracker m))))
           (cy_t_update c) (temporary_exit_timeout m) fid) /\
    stats m3 = stats m2 /\
    well_formed (cleanup_old_records (cy_t_cleanup c) m3) /\
    process_frame_with_detections face_distance c m =
      Some (cleanup_old_records (cy_t_cleanup c) m3, validated).
Proof.
  intros Hwf. unfold process_frame_with_detections.
  fold (tracked_manager face_distance c m).
  set (tracking := FaceTracker.update_tracking _ _ _ _).
  pose proof (validate_zone_events_frame (cy_zone_events c)
                (FaceTracker.labelled tracking)
                (tracked_manager face_distance c m)) as (Hrec & _ & Hto & _).
  destruct (validate_zone_events _ _ _) as [m1 validated].
  cbn [fst snd] in *.
  assert (Hwf1 : well_formed m1).
  { apply (well_formed_records m); [symmetry; exact Hrec | exact Hwf]. }
  pose proof (apply_events_well_formed (cy_t_update c) validated m1 Hwf1) as Hwf2.
  destruct (silence_pass_total
              (active_face_ids (FaceTracker.result tracking))
              (cy_t_update c) _ Hwf2)
    as (m3 & Hs & Hwf3 & Hst & _ & _ & Hlook).
  exists m1, validated, (apply_events (cy_t_update c) validated m1), m3.
  split; [reflexivity|]. split; [exact Hrec|]. split; [reflexivity|].
  split; [exact Hs|].
  split.
  { intros fid. rewrite Hlook.
    destruct (apply_events_frame (cy_t_update c) validated m1) as [-> _].
    rewrite Hto. reflexivity. }
  split; [exact Hst|].
  split; [apply cleanup_well_formed, Hwf3|].
  unfold update_passenger_records. rewrite Hs. reflexivity.
Qed.

(** C5. Unvalidated fallback: in a cycle without face detections, whose
    zone events are as the zone detector builds them (no identity
    attached), validation returns the zone events unchanged and in order,
    and the record loop run on them leaves the manager as it is; the cycle
    does not raise, hands on exactly the zone events, leaves the
    statistics alone, creates no record, and a record can differ from what
    it was only by the silence rule (inside to temporary_exit). *)
Theorem unvalidated_fallback (m : Manager) (c : Cycle) (now : Z) :
  cy_faces c = [] ->
  Forall (fun e => ze_face_id e = None) (cy_zone_events c) ->
  well_formed m ->
  (forall m0 : Manager,
     validate_zone_events (cy_zone_events c) [] m0 = (m0, cy_zone_events c)) /\
  (forall m0 : Manager, apply_events now (cy_zone_events c) m0 = m0) /\
  exists m',
    process_frame_with_detections face_distance c m
      = Some (m', cy_zone_events c) /\
    stats m' = stats m /\
    (forall fid r',
       passenger_records m' !! fid = Some r' ->
       exists r,
         passenger_records m !! fid = Some r /\
         face_id r' = face_id r /\ entry_time r' = entry_time r /\
         exit_time r' = exit_time r /\ zone_events r' = zone_events r /\
         (r' = r \/ (status r = inside /\ status r' = temporary_exit))).
Proof.
  intros Hfaces Hnone Hwf.
  split; [intros m0; apply validate_without_faces|].
  split; [intros m0; apply apply_events_no_face, Hnone|].
  destruct (process_frame_total c m Hwf)
    as (m1 & validated & m2 & m3 & Hval & Hrec & -> & _ & Hlook & Hst & _ & Hrun).
  assert (Hlab : FaceTracker.labelled
            (FaceTracker.update_tracking face_distance (cy_t_track c)
               (cy_faces c) (face_tracker m)) = []).
  { rewrite Hfaces. reflexivity. }
  rewrite Hlab, validate_without_faces in Hval.
  injection Hval as <- <-.
  rewrite (apply_events_no_face _ _ _ Hnone) in Hlook, Hst.
  eexists. split; [exact Hrun|]. split; [exact Hst|].
  intros fid r' Hr'. apply cleanup_lookup in Hr' as [Hr' _].
  rewrite Hlook in Hr'. cbn in Hr'.
  destruct (passenger_records m !! fid) as [r|]; [|discriminate].
  exists r. split; [reflexivity|]. cbn in Hr'.
  apply (silence_one_spec _ _ _ _ _ _ Hr').
Qed.

(** C4. Temporary-exit round trip: a record with status inside, whose
    identity is not among the active identities of the cycle and whose
    entry lies more than the timeout back, leaves
    [_update_passenger_records] with status temporary_exit; an entry event
    matched to that identity is then accepted by validation, and the next
    [_update_passenger_records] sets the record to inside, with the new
    entry time and one more log entry, and raises
    [temporary_exits_handled] by exactly one.  The timeout is 30 seconds
    in a new manager. *)
Theorem temporary_exit_round_trip (m : Manager) (fid : string)
    (record : PassengerRecord) (entered now : Z) (tracked : list TrackedFace)
    (evs : list ZoneEvent) (event : ZoneEvent) (faces : list FaceDetection)
    (matched : FaceDetection) (now2 : Z) (tracked2 : list TrackedFace) :
  well_formed m ->
  0 <= temporary_exit_timeout m ->
  passenger_records m !! fid = Some record ->
  status record = inside ->
  entry_time record = Some entered ->
  fid ∉ active_face_ids tracked ->
  now - entered > temporary_exit_timeout m * usec_per_sec ->
  Forall (not_for fid) evs ->
  fid <> "" ->
  ze_type event = "entry" ->
  match_zone_event_to_face event faces = Some matched ->
  FaceTracker.fd_face_id matched = Some fid ->
  temporary_exit_timeout (@init Encoding FaceTracker.default_tolerance
                            FaceTracker.default_max_tracking_time) = 30 /\
  exists m1,
    update_passenger_records now evs tracked m = Some m1 /\
    passenger_records m1 !! fid =
      Some {| face_id := face_id record; entry_time := Some entered;
              exit_time := exit_time record; status := temporary_exit;
              zone_events := zone_events record |} /\
    is_legitimate_event "entry" (Some fid) m1 = true /\
    validate_event event faces m1 = (m1, [set_face_id (Some fid) event]) /\
    exists m2,
      update_passenger_records now2 [set_face_id (Some fid) event] tracked2 m1
        = Some m2 /\
      passenger_records m2 !! fid =
        Some {| face_id := face_id record; entry_time := Some now2;
                exit_time := exit_time record; status := inside;
                zone_events := zone_events record ++ [("entry", now2)] |} /\
      temporary_exits_handled (stats m2) =
        temporary_exits_handled (stats m1) + 1.
Proof.
  intros Hwf Hto Hrec Hst Hent Hact Hlate Hevs Hne Hty Hmatch Hfid.
  split; [reflexivity|].
  (* first cycle: the silence rule *)
  unfold update_passenger_records.
  pose proof (apply_events_well_formed now evs m Hwf) as Hwf1.
  destruct (apply_events_frame now evs m) as [Hto1 _].
  destruct (silence_pass_total (active_face_ids tracked) now _ Hwf1)
    as (m1 & -> & Hwf2 & _ & Hto2 & _ & Hlook).
  exists m1. split; [reflexivity|].
  assert (Hrec1 : passenger_records m1 !! fid =
            Some {| face_id := face_id record; entry_time := Some entered;
                    exit_time := exit_time record; status := temporary_exit;
                    zone_events := zone_events record |}).
  { rewrite Hlook, (apply_events_other now evs m fid Hevs), Hrec. cbn.
    unfold silence_one.
    destruct (decide (status record = inside /\ fid ∉ active_face_ids tracked))
      as [_|Hno]; [|tauto].
    rewrite Hent, Hto1.
    destruct (Z.gtb_spec (now - entered)
                (temporary_exit_timeout m * usec_per_sec)); [reflexivity|lia]. }
  split; [exact Hrec1|].
  assert (Hleg : is_legitimate_event "entry" (Some fid) m1 = true).
  { apply (is_legitimate_entry fid _ m1 Hrec1). right. reflexivity. }
  split; [exact Hleg|].
  split.
  { unfold validate_event. rewrite Hmatch, Hfid, Hty, Hleg. reflexivity. }
  (* second cycle: the entry *)
  set (m1' := apply_events now2 [set_face_id (Some fid) event] m1).
  assert (Hm1' : passenger_records m1' = 
            <[fid := {| face_id := face_id record; entry_time := Some now2;
                        exit_time := exit_time record; status := inside;
                        zone_events := zone_events record ++ [("entry", now2)] |}]>
              (passenger_records m1) /\
            temporary_exits_handled (stats m1') =
              temporary_exits_handled (stats m1) + 1 /\
            temporary_exit_timeout m1' = temporary_exit_timeout m1).
  { subst m1'. unfold apply_events. cbn [foldl]. unfold apply_event.
    cbn [ze_face_id ze_type set_face_id].
    destruct (decide (fid = "")); [contradiction|].
    rewrite Hrec1, Hty.
    destruct (decide ("entry" = "entry")); [|contradiction].
    cbn. repeat split. }
  destruct Hm1' as (Hrecs' & Hcnt & Hto').
  assert (Hwf' : well_formed m1') by (apply apply_events_well_formed, Hwf2).
  destruct (silence_pass_total (active_face_ids tracked2) now2 m1' Hwf')
    as (m2 & -> & _ & Hst2 & _ & _ & Hlook2).
  exists m2. split; [reflexivity|].
  split; [|rewrite Hst2; exact Hcnt].
  rewrite Hlook2, Hrecs', lookup_insert_eq, Hto', Hto2, Hto1. cbn.
  unfold silence_one. cbn.
  destruct (decide (inside = inside /\ fid ∉ active_face_ids tracked2));
    [|reflexivity].
  destruct (Z.gtb_spec (now2 - now2) (temporary_exit_timeout m * usec_per_sec));
    [unfold usec_per_sec in *; lia|reflexivity].
Qed.

Lemma first_exit_creates now (event : ZoneEvent) (m : Manager) fid :
  passenger_records m !! fid = None ->
  fid <> "" ->
  ze_face_id event = Some fid ->
  ze_type event = "exit" ->
  passenger_records (apply_event now event m) !! fid
    = Some (first_exit_record fid now).
Proof.
  intros Hnew Hne Hfid Hty. unfold apply_event. rewrite Hfid, Hnew, Hty.
  destruct (decide (fid = "")); [contradiction|].
  destruct (decide ("exit" = "entry")) as [Heq|_]; [discriminate Heq|].
  cbn. apply lookup_insert_eq.
Qed.

(** A record without timestamps, not inside, survives every cycle that
    accepts no event for its identity. *)
Lemma unstamped_survives_cycle (c : Cycle) (m : Manager) fid r :
  well_formed m ->
  passenger_records m !! fid = Some r ->
  entry_time r = None -> exit_time r = None -> status r <> inside ->
  exists m' validated,
    process_frame_with_detections face_distance c m = Some (m', validated) /\
    well_formed m' /\
    (Forall (not_for fid) validated -> passenger_records m' !! fid = Some r).
Proof.
  intros Hwf Hr He Hx Hs.
  destruct (process_frame_total c m Hwf)
    as (m1 & validated & m2 & m3 & _ & Hrec & -> & _ & Hlook & _ & Hwf' & Hrun).
  eexists _, validated. split; [exact Hrun|]. split; [exact Hwf'|].
  intros Hnot. apply cleanup_lookup.
  split; [|apply never_stamped_not_expired; assumption].
  rewrite Hlook, (apply_events_other _ _ _ _ Hnot), Hrec, Hr. cbn.
  apply silence_one_keeps_outside, Hs.
Qed.

Lemma unstamped_survives (cycles : list Cycle) (m : Manager) fid r :
  well_formed m ->
  entry_time r = None -> exit_time r = None -> status r <> inside ->
  exists m' outs,
    run_cycles face_distance cycles m = Some (m', outs) /\
    (passenger_records m !! fid = Some r ->
     Forall (Forall (not_for fid)) outs ->
     passenger_records m' !! fid = Some r).
Proof.
  intros Hwf He Hx Hs. revert m Hwf.
  induction cycles as [|c cycles IH]; intros m Hwf.
  - exists m, []. split; [reflexivity|]. auto.
  - cbn [run_cycles].
    destruct (process_frame_total c m Hwf)
      as (m1 & validated & m2 & m3 & _ & Hrec & -> & _ & Hlook & _ & Hwf' & Hrun).
    rewrite Hrun.
    destruct (IH _ Hwf') as (m' & outs & -> & Hkeep).
    exists m', (validated :: outs). split; [reflexivity|].
    intros Hr Hall. apply Forall_cons in Hall as [Hnot Hall].
    apply Hkeep; [|exact Hall].
    apply cleanup_lookup.
    split; [|apply never_stamped_not_expired; assumption].
    rewrite Hlook, (apply_events_other _ _ _ _ Hnot), Hrec, Hr. cbn.
    apply silence_one_keeps_outside, Hs.
Qed.

(** C10. A record whose first accepted event is an exit is created with
    no entry time, no exit time and status outside.  Cleanup, at whatever
    time it runs, keeps such a record; and from a well-formed manager that
    holds it, any number of cycles run without raising and the record is
    still there, unchanged, as long as no cycle accepts an event for its
    identity. *)
Theorem exit_first_record_never_purged (m : Manager) (fid : string)
    (event : ZoneEvent) (now : Z) :
  passenger_records m !! fid = None ->
  fid <> "" ->
  ze_face_id event = Some fid ->
  ze_type event = "exit" ->
  passenger_records (apply_event now event m) !! fid
    = Some (first_exit_record fid now) /\
  entry_time (first_exit_record fid now) = None /\
  exit_time (first_exit_record fid now) = None /\
  status (first_exit_record fid now) = outside /\
  (forall (t : Z) (m0 : Manager),
     passenger_records m0 !! fid = Some (first_exit_record fid now) ->
     passenger_records (cleanup_old_records t m0) !! fid
       = Some (first_exit_record fid now)) /\
  (forall (cycles : list Cycle) (m0 : Manager),
     well_formed m0 ->
     exists m' outs,
       run_cycles face_distance cycles m0 = Some (m', outs) /\
       (passenger_records m0 !! fid = Some (first_exit_record fid now) ->
        Forall (Forall (not_for fid)) outs ->
        passenger_records m' !! fid = Some (first_exit_record fid now))).
Proof.
  intros Hnew Hne Hfid Hty.
  split; [apply first_exit_creates; assumption|].
  do 3 (split; [reflexivity|]).
  split.
  - intros t m0 Hr. apply cleanup_lookup. split; [exact Hr|].
    apply never_stamped_not_expired; reflexivity.
  - intros cycles m0 Hwf.
    apply unstamped_survives; [exact Hwf|reflexivity|reflexivity|discriminate].
Qed.

End WithEncoder.

(** *** Concrete runs *)

Lemma boarded_well_formed : well_formed Samples.boarded.
Proof.
  apply map_Forall_to_list. vm_compute. repeat constructor.
  intros _. eexists. reflexivity.
Defined.

Lemma double_entry_suppressed_witness :
  (validate_zone_events [entry_event 0 Samples.person 7]
     [Samples.labelled_face] Samples.boarded).2 = [] /\
  prevented_double_counts
    (stats (validate_zone_events [entry_event 0 Samples.person 7]
              [Samples.labelled_face] Samples.boarded).1) = 1.
Proof.
  pose proof (double_entry_suppressed Samples.boarded
                (entry_event 0 Samples.person 7) [Samples.labelled_face]
                Samples.labelled_face "face_0001" Samples.boarded_record
                [] [] eq_refl eq_refl eq_refl eq_refl eq_refl)
    as (_ & Hv & Hc & _).
  split; [exact Hv | exact Hc].
Defined.

Lemma unvalidated_fallback_witness :
  exists m',
    process_frame_with_detections Samples.distance1 Samples.faceless
      Samples.boarded = Some (m', cy_zone_events Samples.faceless) /\
    stats m' = stats Samples.boarded.
Proof.
  destruct (unvalidated_fallback Samples.distance1 Samples.boarded
              Samples.faceless 50 eq_refl
              ltac:(repeat constructor) boarded_well_formed)
    as (_ & _ & m' & Hrun & Hst & _).
  exists m'. split; [exact Hrun | exact Hst].
Defined.

Lemma temporary_exit_round_trip_witness :
  exists m1 m2,
    update_passenger_records 31000000 [] [] Samples.boarded = Some m1 /\
    status <$> passenger_records m1 !! "face_0001" = Some temporary_exit /\
    update_passenger_records 40000000
      [set_face_id (Some "face_0001") (entry_event 0 Samples.person 40)]
      [] m1 = Some m2 /\
    status <$> passenger_records m2 !! "face_0001" = Some inside /\
    temporary_exits_handled (stats m2) = temporary_exits_handled (stats m1) + 1.
Proof.
  destruct (temporary_exit_round_trip Samples.boarded "face_0001"
              Samples.boarded_record 0 31000000 [] []
              (entry_event 0 Samples.person 40) [Samples.labelled_face]
              Samples.labelled_face 40000000 []
              boarded_well_formed
              ltac:(vm_compute; discriminate)
              eq_refl eq_refl eq_refl
              ltac:(apply not_elem_of_empty)
              ltac:(vm_compute; reflexivity)
              ltac:(constructor)
              ltac:(discriminate)
              eq_refl eq_refl eq_refl)
    as (_ & m1 & H1 & Hr1 & _ & _ & m2 & H2 & Hr2 & Hc).
  exists m1, m2.
  split; [exact H1|]. split; [rewrite Hr1; reflexivity|].
  split; [exact H2|]. split; [rewrite Hr2; reflexivity|]. exact Hc.
Defined.

Lemma exit_first_record_never_purged_witness :
  passenger_records (apply_event 0 Samples.first_exit Samples.manager)
    !! "face_0001" = Some (first_exit_record "face_0001" 0) /\
  passenger_records
    (cleanup_old_records 999999999999
       (apply_event 0 Samples.first_exit Samples.manager))
    !! "face_0001" = Some (first_exit_record "face_0001" 0).
Proof.
  destruct (exit_first_record_never_purged Samples.distance1 Samples.manager
              "face_0001" Samples.first_exit 0
              eq_refl ltac:(discriminate) eq_refl eq_refl)
    as (Hc & _ & _ & _ & Hkeep & _).
  split; [exact Hc|]. apply Hkeep. exact Hc.
Defined.

End AntiFraudFacts.

(* ===================================================================== *)
(** * Further properties of the trip ledger *)
(* ===================================================================== *)

Module TripLedger.
Import Trip.

(** Everything one call of [update_passenger_count] does. *)
Lemma update_spec uid now n tr :
  trip_id (update_passenger_count uid now n tr) = trip_id tr /\
  max_capacity (update_passenger_count uid now n tr) = max_capacity tr /\
  current_passenger_count (update_passenger_count uid now n tr) = n /\
  max_passenger_count (update_passenger_count uid now n tr) =
    Z.max (max_passenger_count tr) n /\
  is_overloaded (update_passenger_count uid now n tr) = (n >? max_capacity tr) /\
  (((n >? max_capacity tr) && negb (is_overloaded tr) = true /\
    overload_events (update_passenger_count uid now n tr) =
      overload_events tr + 1 /\
    events (update_passenger_count uid now n tr) =
      events tr ++
      [ {| event_id := uid; ev_trip_id := trip_id tr;
           event_type := OVERLOAD_DETECTED; timestamp := now;
           passenger_count := n;
           metadata := [("passenger_count", n);
                        ("max_capacity", max_capacity tr)] |} ]) \/
   ((n >? max_capacity tr) && negb (is_overloaded tr) = false /\
    overload_events (update_passenger_count uid now n tr) = overload_events tr /\
    events (update_passenger_count uid now n tr) = events tr)).
Proof.
  destruct tr as [? ? ? ? ? ? ? ? ? ? cap ov flag ? ? ? ? ?].
  unfold update_passenger_count. cbn.
  destruct (n >? cap), flag; cbn; repeat split; auto.
Qed.

Lemma feed_cons c calls tr :
  feed (c :: calls) tr =
  feed calls (update_passenger_count (c_uid c) (c_now c) (c_count c) tr).
Proof. reflexivity. Qed.

Lemma feed_snoc calls c tr :
  feed (calls ++ [c]) tr =
  update_passenger_count (c_uid c) (c_now c) (c_count c) (feed calls tr).
Proof. unfold feed. rewrite foldl_app. reflexivity. Qed.

Lemma feed_capacity calls tr : max_capacity (feed calls tr) = max_capacity tr.
Proof.
  revert tr. induction calls as [|c calls IH]; intros tr; [reflexivity|].
  rewrite feed_cons, IH. apply update_spec.
Qed.

(** X1. The maximum seen is a running maximum: after any sequence of
    count updates [max_passenger_count] is at least its old value and at
    least every count that was fed, it is one of those values, and it is
    at least the current count. *)
Theorem max_seen_is_running_maximum (tr : t) (calls : list Call) :
  max_passenger_count tr <= max_passenger_count (feed calls tr) /\
  Forall (fun c => c_count c <= max_passenger_count (feed calls tr)) calls /\
  (max_passenger_count (feed calls tr) = max_passenger_count tr \/
   exists c, c ∈ calls /\ max_passenger_count (feed calls tr) = c_count c) /\
  (calls <> [] ->
   current_passenger_count (feed calls tr)
     <= max_passenger_count (feed calls tr)).
Proof.
  induction calls as [|c calls IH] using rev_ind.
  - cbn. repeat split; [lia|constructor|left; reflexivity|congruence].
  - rewrite feed_snoc.
    destruct IH as (Hle & Hall & Hatt & _).
    destruct (update_spec (c_uid c) (c_now c) (c_count c) (feed calls tr))
      as (_ & _ & Hcur & Hmax & _).
    rewrite Hcur, Hmax.
    split; [lia|]. split.
    { apply Forall_app. split.
      - eapply Forall_impl; [exact Hall|]. cbn. intros; lia.
      - repeat constructor. lia. }
    split; [|intros _; lia].
    destruct (Z.max_spec (max_passenger_count (feed calls tr)) (c_count c))
      as [[_ ->] | [_ ->]].
    + right. exists c. split; [|reflexivity]. apply elem_of_app. right. left.
    + destruct Hatt as [->|(c' & Hin & ->)]; [left; reflexivity|].
      right. exists c'. split; [|reflexivity]. apply elem_of_app. left. exact Hin.
Qed.

(** X2. The overload flag is a level: after any non-empty sequence of
    count updates, [is_overloaded] says whether the current count exceeds
    the capacity, whatever the flag was before; the capacity itself is
    never changed by counting. *)
Theorem overload_flag_is_level (tr : t) (calls : list Call) :
  calls <> [] ->
  is_overloaded (feed calls tr) =
    (current_passenger_count (feed calls tr) >? max_capacity (feed calls tr)) /\
  max_capacity (feed calls tr) = max_capacity tr.
Proof.
  intros Hne. split; [|apply feed_capacity].
  destruct calls as [|c calls _] using rev_ind; [congruence|].
  rewrite feed_snoc.
  destruct (update_spec (c_uid c) (c_now c) (c_count c) (feed calls tr))
    as (_ & -> & -> & _ & -> & _).
  reflexivity.
Qed.

Lemma overload_flag_is_level_witness :
  is_overloaded (feed Samples.overload_calls Samples.trip) = false.
Proof.
  destruct (overload_flag_is_level Samples.trip Samples.overload_calls
              ltac:(discriminate)) as [H _].
  rewrite H. reflexivity.
Defined.

(** X3. The event log is append-only under counting and the overload
    counter counts what was appended: after any sequence of count updates
    the log is the old log followed by new events, each of them an
    [overload_detected] event of this trip whose recorded count exceeds
    the capacity, and [overload_events] has grown by their number. *)
Theorem log_append_only_and_counted (tr : t) (calls : list Call) :
  exists new,
    events (feed calls tr) = events tr ++ new /\
    Forall (fun e => event_type e = OVERLOAD_DETECTED /\
                     ev_trip_id e = trip_id tr /\
                     passenger_count e > max_capacity tr /\
                     exists c, c ∈ calls /\ passenger_count e = c_count c /\
                               event_id e = c_uid c /\ timestamp e = c_now c)
           new /\
    overload_events (feed calls tr) = overload_events tr + Z.of_nat (length new).
Proof.
  induction calls as [|c calls IH] using rev_ind.
  - exists []. cbn. rewrite app_nil_r. repeat split; [constructor|lia].
  - destruct IH as (new & Hev & Hall & Hcnt).
    assert (Hall' : Forall (fun e => event_type e = OVERLOAD_DETECTED /\
                     ev_trip_id e = trip_id tr /\
                     passenger_count e > max_capacity tr /\
                     exists c0, c0 ∈ calls ++ [c] /\
                                passenger_count e = c_count c0 /\
                                event_id e = c_uid c0 /\
                                timestamp e = c_now c0) new).
    { eapply Forall_impl; [exact Hall|]. cbn.
      intros e (H1 & H2 & H3 & c0 & Hin & H4).
      repeat split; auto. exists c0. split; [|exact H4].
      apply elem_of_app. left. exact Hin. }
    rewrite feed_snoc.
    assert (Htid : trip_id (feed calls tr) = trip_id tr).
    { clear. revert tr. induction calls as [|c0 calls IH]; intros tr;
        [reflexivity|]. rewrite feed_cons, IH. apply update_spec. }
    destruct (update_spec (c_uid c) (c_now c) (c_count c) (feed calls tr))
      as (_ & _ & _ & _ & _ & [(Hedge & -> & ->) | (_ & -> & ->)]).
    + exists (new ++
        [ {| event_id := c_uid c; ev_trip_id := trip_id (feed calls tr);
             event_type := OVERLOAD_DETECTED; timestamp := c_now c;
             passenger_count := c_count c;
             metadata := [("passenger_count", c_count c);
                          ("max_capacity", max_capacity (feed calls tr))] |} ]).
      rewrite Hev, <- app_assoc. split; [reflexivity|].
      split.
      * apply Forall_app. split; [exact Hall'|].
        repeat constructor; cbn; auto.
        -- apply andb_true_iff in Hedge as [Hgt _].
           rewrite feed_capacity in Hgt. apply Z.gtb_lt in Hgt. lia.
        -- exists c. split; [|auto]. apply elem_of_app. right. left.
      * rewrite length_app. cbn. lia.
    + exists new. split; [exact Hev|]. split; [exact Hall'|exact Hcnt].
Qed.

(** X4. The duration of a closed trip is frozen: once [end_trip] has run,
    [get_duration] no longer depends on the clock; it is the whole number
    of seconds between start and end, rounded towards zero; and
    [get_duration] is absent exactly when the trip has no start time. *)
Theorem duration_frozen_after_end (tr : t) (ended now now' : Z) :
  get_duration now (end_trip ended tr) = get_duration now' (end_trip ended tr) /\
  (get_duration now tr = None <-> start_time tr = None) /\
  (forall started,
     start_time tr = Some started ->
     exists d,
       get_duration now (end_trip ended tr) = Some d /\
       Z.abs d * usec_per_sec <= Z.abs (ended - started)
         < (Z.abs d + 1) * usec_per_sec /\
       (0 <= ended - started -> 0 <= d) /\
       (ended - started <= 0 -> d <= 0)).
Proof.
  unfold get_duration, end_trip. cbn.
  split; [destruct (start_time tr); reflexivity|].
  split.
  { destruct (start_time tr), (end_time tr); split; congruence. }
  intros started ->. eexists. split; [reflexivity|].
  unfold usec_per_sec.
  pose proof (Z.quot_rem' (ended - started) 1000000) as Hqr.
  pose proof (Z.rem_bound_abs (ended - started) 1000000 ltac:(lia)) as Hb.
  pose proof (Z.quot_opp_l (ended - started) 1000000 ltac:(lia)) as Ho.
  destruct (Z.le_ge_cases 0 (ended - started)) as [Hpos|Hneg].
  - pose proof (Z.quot_pos (ended - started) 1000000 Hpos ltac:(lia)).
    pose proof (Z.rem_nonneg (ended - started) 1000000 ltac:(lia) Hpos).
    lia.
  - pose proof (Z.quot_pos (- (ended - started)) 1000000 ltac:(lia) ltac:(lia)).
    pose proof (Z.rem_nonpos (ended - started) 1000000 ltac:(lia) Hneg).
    lia.
Qed.

(** X5. [get_duration_minutes] treats a duration of zero seconds as no
    duration: it is absent exactly when the trip has no start time or
    less than one second lies between the start and the end (or the clock,
    for an open trip), although [get_duration] then returns 0. *)
Theorem duration_minutes_absent_under_one_second (tr : t) (now : Z) :
  (get_duration_minutes now tr = None <->
   start_time tr = None \/
   exists started,
     start_time tr = Some started /\
     Z.abs (default now (end_time tr) - started) < usec_per_sec) /\
  (forall started,
     start_time tr = Some started ->
     Z.abs (default now (end_time tr) - started) < usec_per_sec ->
     get_duration now tr = Some 0 /\ get_duration_minutes now tr = None).
Proof.
  assert (Hq : forall x, Z.quot x usec_per_sec = 0 <-> Z.abs x < usec_per_sec).
  { intros x. unfold usec_per_sec.
    rewrite Z.quot_small_iff by lia. lia. }
  assert (Hd : forall started,
            start_time tr = Some started ->
            get_duration now tr =
              Some (Z.quot (default now (end_time tr) - started) usec_per_sec)).
  { intros started Hs. unfold get_duration. rewrite Hs.
    destruct (end_time tr); reflexivity. }
  split.
  - unfold get_duration_minutes.
    destruct (start_time tr) as [started|] eqn:Hs.
    + rewrite (Hd started eq_refl).
      destruct (decide (_ = 0)) as [H0|H0].
      * split; [|reflexivity]. intros _. right. exists started.
        split; [reflexivity|]. apply Hq, H0.
      * split; [discriminate|]. intros [[=]|(s & [= <-] & Hlt)].
        apply Hq in Hlt. contradiction.
    + unfold get_duration. rewrite Hs. split; auto.
  - intros started Hs Hlt. apply Hq in Hlt.
    unfold get_duration_minutes. rewrite (Hd started Hs), Hlt.
    split; reflexivity.
Qed.

Lemma duration_minutes_absent_under_one_second_witness :
  get_duration 999999 Samples.trip = Some 0 /\
  get_duration_minutes 999999 Samples.trip = None.
Proof.
  apply (duration_minutes_absent_under_one_second Samples.trip 999999)
    with (started := 0); [reflexivity | vm_compute; reflexivity].
Defined.

End TripLedger.

(* ===================================================================== *)
(** * Further properties of the passenger counter *)
(* ===================================================================== *)

Module CounterBook.
Import PassengerCounter.

(** Everything one handled event does to the counter. *)
Lemma handle_spec t_ev t_act event c c' :
  handle_zone_event t_ev t_act event c = Some c' ->
  max_capacity c' = max_capacity c /\
  (exists e, pe_timestamp e = t_ev /\
             passenger_events c' = last_n 100 (passenger_events c ++ [e])) /\
  overload_events (stats c') =
    overload_events (stats c) +
    (if current_count c' >? max_capacity c then 1 else 0) /\
  last_activity (stats c') = Some t_act /\
  current_passengers (stats c') = current_passengers (stats c) /\
  ((ze_type event = "entry" /\
    current_count c' = current_count c + 1 /\
    total_entries (stats c') = total_entries (stats c) + 1 /\
    total_exits (stats c') = total_exits (stats c)) \/
   (ze_type event = "exit" /\
    current_count c' = Z.max 0 (current_count c - 1) /\
    total_entries (stats c') = total_entries (stats c) /\
    total_exits (stats c') = total_exits (stats c) + 1) \/
   (ze_type event <> "entry" /\ ze_type event <> "exit" /\
    current_count c' = current_count c /\
    total_entries (stats c') = total_entries (stats c) /\
    total_exits (stats c') = total_exits (stats c))).
Proof.
  unfold handle_zone_event.
  destruct (ze_detection event) as [d|]; [|discriminate].
  assert (Hcap : forall evs : list PassengerEvent,
            (if (100 <? length evs)%nat then last_n 100 evs else evs)
            = last_n 100 evs).
  { intros evs. destruct (Nat.ltb_spec 100 (length evs)); [reflexivity|].
    unfold last_n. replace (length evs - 100)%nat with 0%nat by lia.
    reflexivity. }
  cbv zeta. rewrite Hcap.
  destruct (decide (ze_type event = "entry")) as [He|He];
    [|destruct (decide (ze_type event = "exit")) as [Hx|Hx]];
    intros [= <-]; cbn [max_capacity passenger_events stats current_count
      overload_events last_activity current_passengers total_entries
      total_exits];
    (split; [reflexivity|]); (split; [eexists; split; [|reflexivity]; reflexivity|]);
    (split; [destruct (_ >? _); lia|]); (split; [reflexivity|]);
    (split; [reflexivity|]); [left | right; left | right; right]; auto.
Qed.

Lemma handle_all_snoc steps s c :
  handle_all (steps ++ [s]) c =
  handle_all steps c ≫= handle_zone_event (s_t_ev s) (s_t_act s) (s_event s).
Proof.
  revert c. induction steps as [|s0 steps IH]; intros c; cbn.
  - destruct (handle_zone_event _ _ _ c); reflexivity.
  - destruct (handle_zone_event _ _ _ c) as [c1|]; [apply IH|reflexivity].
Qed.

Lemma last_n_app_last_n {A} n (l l2 : list A) :
  last_n n (last_n n l ++ l2) = last_n n (l ++ l2).
Proof.
  unfold last_n. rewrite !length_app, length_drop.
  destruct (Nat.le_gt_cases (length l) n) as [Hle|Hgt].
  - replace (length l - n)%nat with 0%nat by lia. cbn [drop].
    rewrite Nat.sub_0_r. reflexivity.
  - rewrite <- (drop_app_le l l2 (length l - n)) by lia.
    rewrite drop_drop. f_equal. lia.
Qed.

Lemma last_n_fmap {A B} (f : A -> B) n (l : list A) :
  f <$> last_n n l = last_n n (f <$> l).
Proof. unfold last_n. rewrite fmap_drop, length_fmap. reflexivity. Qed.

Lemma last_n_short {A} n (l : list A) : (length l <= n)%nat -> last_n n l = l.
Proof.
  intros H. unfold last_n. replace (length l - n)%nat with 0%nat by lia.
  reflexivity.
Qed.

Lemma last_n_length {A} n (l : list A) :
  length (last_n n l) = Nat.min (length l) n.
Proof. unfold last_n. rewrite length_drop. lia. Qed.

(** The history after a run that starts with a history within the cap. *)
Lemma history_after steps c c' :
  (length (passenger_events c) <= 100)%nat ->
  handle_all steps c = Some c' ->
  pe_timestamp <$> passenger_events c' =
  last_n 100 ((pe_timestamp <$> passenger_events c) ++ (s_t_ev <$> steps)).
Proof.
  intros Hlen. revert c'.
  induction steps as [|s steps IH] using rev_ind; intros c'.
  - cbn. intros [= <-]. rewrite app_nil_r, last_n_short; [reflexivity|].
    rewrite length_fmap. exact Hlen.
  - rewrite handle_all_snoc.
    destruct (handle_all steps c) as [c1|]; [|discriminate]. cbn.
    intros H. destruct (handle_spec _ _ _ _ _ H) as (_ & (e & He & ->) & _).
    rewrite last_n_fmap, fmap_app, (IH c1 eq_refl). cbn [fmap list_fmap].
    rewrite He, last_n_app_last_n, fmap_app, <- app_assoc. reflexivity.
Qed.

(** X6. The event history is a window of the last 100 handled events:
    after any run from a new counter it holds [min(k, 100)] events, where
    [k] is the number of events handled, and they are the most recent
    ones, oldest first. *)
Theorem history_is_last_hundred (cap : Z) (steps : list Step) (c : t) :
  handle_all steps (init cap) = Some c ->
  length (passenger_events c) = Nat.min (length steps) 100 /\
  pe_timestamp <$> passenger_events c = last_n 100 (s_t_ev <$> steps).
Proof.
  intros H.
  pose proof (history_after steps (init cap) c ltac:(cbn; lia) H) as Hh.
  cbn [init passenger_events fmap list_fmap app] in Hh.
  split; [|exact Hh].
  rewrite <- (length_fmap pe_timestamp), Hh, last_n_length, length_fmap.
  reflexivity.
Qed.

Lemma history_is_last_hundred_witness :
  match handle_all Samples.counter_steps (init 14) with
  | Some c => pe_timestamp <$> passenger_events c = [1; 2; 3; 4]
  | None => False
  end.
Proof.
  destruct (handle_all Samples.counter_steps (init 14)) as [c|] eqn:H;
    [|vm_compute in H; discriminate H].
  destruct (history_is_last_hundred 14 Samples.counter_steps c H) as [_ Ht].
  rewrite Ht. vm_compute. reflexivity.
Defined.

(** X7. The entry and exit statistics count the handled events by type,
    and the count lies between their difference and the number of
    entries: after any run from a new counter,
    [total_entries - total_exits <= current_count <= total_entries];
    the lower bound is strict exactly when an exit was clamped at 0. *)
Theorem statistics_count_events (cap : Z) (steps : list Step) (c : t) :
  handle_all steps (init cap) = Some c ->
  total_entries (stats c) = Z.of_nat (length (filter (is_type "entry") steps)) /\
  total_exits (stats c) = Z.of_nat (length (filter (is_type "exit") steps)) /\
  total_entries (stats c) - total_exits (stats c) <= current_count c /\
  0 <= current_count c <= total_entries (stats c).
Proof.
  revert c. induction steps as [|s steps IH] using rev_ind; intros c.
  - cbn. intros [= <-]. cbn. lia.
  - rewrite handle_all_snoc.
    destruct (handle_all steps (init cap)) as [c1|]; [|discriminate]. cbn.
    intros H. destruct (IH c1 eq_refl) as (He & Hx & Hlo & Hhi).
    rewrite !filter_app, !length_app, !filter_cons, !filter_nil.
    destruct (handle_spec _ _ _ _ _ H)
      as (_ & _ & _ & _ & _ &
          [(Hty & -> & -> & ->) | [(Hty & -> & -> & ->) | (Hn1 & Hn2 & -> & -> & ->)]]);
      destruct (decide (is_type "entry" s)) as [E|E];
      destruct (decide (is_type "exit" s)) as [X|X];
      unfold is_type in E, X; try congruence; cbn [length]; lia.
Qed.

Lemma statistics_count_events_witness :
  match handle_all Samples.counter_steps (init 14) with
  | Some c =>
    total_entries (stats c) = 1 /\ total_exits (stats c) = 3 /\
    current_count c = 0
  | None => False
  end.
Proof.
  destruct (handle_all Samples.counter_steps (init 14)) as [c|] eqn:H;
    [|vm_compute in H; discriminate H].
  destruct (statistics_count_events 14 Samples.counter_steps c H)
    as (He & Hx & _).
  split; [rewrite He; vm_compute; reflexivity|].
  split; [rewrite Hx; vm_compute; reflexivity|].
  vm_compute in H. injection H as <-. reflexivity.
Defined.

(** X8. The counter's overload statistic is level-triggered: over any run
    it grows by the number of handled events after which the count
    exceeds the capacity, so a vehicle that stays overloaded is counted
    again with every event. *)
Theorem overload_statistic_is_per_event (steps : list Step) (c c' : t) :
  handle_all steps c = Some c' ->
  overload_events (stats c') =
    overload_events (stats c) +
    Z.of_nat (length (filter (fun x => max_capacity c < current_count x)
                             (observe steps c))) /\
  length (observe steps c) = length steps.
Proof.
  revert c. induction steps as [|s steps IH]; intros c.
  - cbn. intros [= <-]. cbn. lia.
  - cbn [handle_all observe].
    destruct (handle_zone_event _ _ _ c) as [c1|] eqn:H1; [|discriminate].
    intros H. destruct (IH c1 H) as [Hov Hlen].
    destruct (handle_spec _ _ _ _ _ H1) as (Hcap & _ & Hov1 & _).
    rewrite Hcap in Hov. rewrite Hov, Hov1, filter_cons.
    cbn [length]. rewrite Hlen. split; [|reflexivity].
    destruct (Z.gtb_spec (current_count c1) (max_capacity c));
      destruct (decide (max_capacity c < current_count c1)); cbn [length]; lia.
Qed.

Lemma overload_statistic_is_per_event_witness :
  match handle_all
          [mkStep (entry_event 0 Samples.person 1) 1 1;
           mkStep (entry_event 1 Samples.person 2) 2 2;
           mkStep (entry_event 0 Samples.person 3) 3 3] (init 0) with
  | Some c' => overload_events (stats c') = 3
  | None => False
  end.
Proof.
  destruct (handle_all _ (init 0)) as [c'|] eqn:H;
    [|vm_compute in H; discriminate H].
  destruct (overload_statistic_is_per_event _ _ _ H) as [Ho _].
  rewrite Ho. vm_compute. reflexivity.
Defined.

(** X9. [get_recent_events(limit)] slices with [-limit]: a positive limit
    gives the last [limit] events (all of them when there are fewer), but
    a limit of 0 gives the whole history rather than nothing, and a
    negative limit drops the oldest [|limit|] events. *)
Theorem recent_events_by_limit (limit : Z) (c : t) :
  (limit = 0 -> get_recent_events limit c = passenger_events c) /\
  (0 < limit ->
   get_recent_events limit c = last_n (Z.to_nat limit) (passenger_events c) /\
   length (get_recent_events limit c) =
     Nat.min (length (passenger_events c)) (Z.to_nat limit)) /\
  (limit < 0 ->
   get_recent_events limit c = drop (Z.to_nat (- limit)) (passenger_events c)).
Proof.
  unfold get_recent_events.
  destruct (passenger_events c) as [|e evs] eqn:Hev.
  - repeat split; intros; unfold last_n; rewrite ?drop_nil; reflexivity.
  - rewrite <- Hev. clear Hev. set (l := passenger_events c).
    unfold slice_from.
    split; [intros ->; reflexivity|]. split.
    + intros Hpos.
      destruct (Z.ltb_spec (- limit) 0) as [_|]; [|lia].
      assert (Heq : drop (Z.to_nat (Z.max (Z.of_nat (length l) + - limit) 0)) l
                    = last_n (Z.to_nat limit) l).
      { unfold last_n. f_equal. lia. }
      rewrite Heq. split; [reflexivity|apply last_n_length].
    + intros Hneg.
      destruct (Z.ltb_spec (- limit) 0) as [|_]; [lia|reflexivity].
Qed.

(** X10. [reset_count] does not clear [last_activity]: a reset counter
    counts like a new one, event by event, but it equals a new counter
    only if no event was ever handled; after any handled event it differs
    from every new counter. *)
Theorem reset_keeps_last_activity (c : t) (steps : list Step) :
  current_count <$> observe steps (reset_count c) =
    current_count <$> observe steps (init (max_capacity c)) /\
  passenger_events <$> observe steps (reset_count c) =
    passenger_events <$> observe steps (init (max_capacity c)) /\
  (reset_count c = init (max_capacity c) <-> last_activity (stats c) = None) /\
  (forall t_ev t_act event c0 cap,
     handle_zone_event t_ev t_act event c0 = Some c ->
     reset_count c <> init cap).
Proof.
  assert (Hsim : forall steps c1 c2,
            current_count c1 = current_count c2 ->
            max_capacity c1 = max_capacity c2 ->
            passenger_events c1 = passenger_events c2 ->
            current_count <$> observe steps c1 = current_count <$> observe steps c2 /\
            passenger_events <$> observe steps c1 =
              passenger_events <$> observe steps c2).
  { clear. induction steps as [|s steps IH]; intros c1 c2 Hc Hm He;
      [split; reflexivity|].
    cbn [observe]. unfold handle_zone_event. rewrite Hc, Hm, He.
    destruct (ze_detection (s_event s)) as [d|]; [|split; reflexivity].
    destruct (decide (ze_type (s_event s) = "entry"));
      [|destruct (decide (ze_type (s_event s) = "exit"))];
      cbn [fmap list_fmap current_count passenger_events];
      (edestruct IH as [-> ->]; [| | |split; reflexivity]); reflexivity. }
  destruct (Hsim steps (reset_count c) (init (max_capacity c))
              eq_refl eq_refl eq_refl) as [H1 H2].
  split; [exact H1|]. split; [exact H2|]. split.
  - unfold reset_count, init. split.
    + intros H. injection H as H. exact H.
    + intros ->. reflexivity.
  - intros t_ev t_act event c0 cap H Heq.
    destruct (handle_spec _ _ _ _ _ H) as (_ & _ & _ & Hact & _).
    apply (f_equal (fun x => last_activity (stats x))) in Heq.
    cbn in Heq. congruence.
Qed.

End CounterBook.

(* ===================================================================== *)
(** * Properties of the zone detector *)
(* ===================================================================== *)

Module ZoneFacts.
Import ZoneDetector.

Section WithPixels.
Variable to_pixel : Q -> Z -> Z.

(** The zone a detection is classified into. *)
Abbreviation zone_of zd shape d :=
  (get_zone_for_point to_pixel zd (Detection.center d) shape).

Lemma cap10_length h :
  length (cap10 h) = Nat.min (length h) 10.
Proof.
  unfold cap10. destruct (Nat.ltb_spec 10 (length h));
    [rewrite length_drop|]; lia.
Qed.

Lemma cap10_snoc h z :
  exists h', cap10 (h ++ [z]) = h' ++ [z] /\ last h' = last (cap10 h) /\
             (h = [] -> h' = []) /\ (h <> [] -> last h' = last h).
Proof.
  unfold cap10. rewrite length_app. cbn [length].
  destruct (Nat.ltb_spec 10 (length h + 1)) as [Hlong|Hshort].
  - rewrite drop_app_le by lia.
    exists (drop (length h + 1 - 10) h). split; [reflexivity|].
    assert (Hlast : forall k, (k < length h)%nat -> last (drop k h) = last h).
    { intros k Hk. rewrite !last_lookup, length_drop, lookup_drop.
      f_equal. lia. }
    split; [|split; [intros ->; cbn in Hlong; lia|]].
    + rewrite Hlast by lia.
      destruct (Nat.ltb_spec 10 (length h)); [rewrite Hlast by lia|]; reflexivity.
    + intros _. apply Hlast. lia.
  - exists h. split; [reflexivity|].
    destruct (Nat.ltb_spec 10 (length h)); [lia|]. auto.
Qed.

Lemma last_two_snoc h z :
  last_two (h ++ [z]) = (fun b => (b, z)) <$> last h.
Proof.
  unfold last_two. rewrite rev_app_distr. cbn [rev app].
  destruct h as [|x h] using rev_ind; [reflexivity|].
  rewrite rev_app_distr, last_snoc. reflexivity.
Qed.

Lemma last_two_cap10 h z :
  last_two (cap10 (h ++ [z])) = (fun b => (b, z)) <$> last h.
Proof.
  destruct (cap10_snoc h z) as (h' & -> & _ & Hnil & Hne).
  rewrite last_two_snoc.
  destruct h as [|x h]; [rewrite Hnil by reflexivity; reflexivity|].
  rewrite Hne by discriminate. reflexivity.
Qed.

Lemma track_detection_spec shape now i d (zd : t) :
  let r := track_detection to_pixel shape now i d zd in
  entry_zone r.1 = entry_zone zd /\ exit_zone r.1 = exit_zone zd /\
  person_zones r.1 =
    <[i := cap10 (default [] (person_zones zd !! i) ++ [zone_of zd shape d])]>
      (person_zones zd) /\
  r.2 = transition_event (person_zones zd !! i ≫= last) (zone_of zd shape d)
          i d now.
Proof.
  unfold track_detection. cbn [fst snd entry_zone exit_zone person_zones].
  repeat split. unfold check_zone_transition. cbn [person_zones].
  rewrite lookup_insert_eq, last_two_cap10.
  destruct (person_zones zd !! i) as [h|]; unfold default, id;
    cbn [from_option mbind option_bind]; [|reflexivity].
  destruct (last h) as [b|]; [|reflexivity]. cbn.
  destruct b, (get_zone_for_point to_pixel zd (Detection.center d) shape);
    reflexivity.
Qed.

Lemma zone_of_zones shape d (zd zd' : t) :
  entry_zone zd' = entry_zone zd -> exit_zone zd' = exit_zone zd ->
  zone_of zd' shape d = zone_of zd shape d.
Proof. unfold get_zone_for_point. intros -> ->. reflexivity. Qed.

(** The loop, read off the detector it starts with: index [i + j] is
    touched by the [j]-th detection alone. *)
Lemma detect_loop_spec shape clock ds : forall i (zd : t),
  let r := detect_loop to_pixel shape clock i ds zd in
  entry_zone r.1 = entry_zone zd /\ exit_zone r.1 = exit_zone zd /\
  r.2 = omap id (imap (fun j d =>
          transition_event (person_zones zd !! (i + j)%nat ≫= last)
            (zone_of zd shape d) (i + j) d (clock (i + j)%nat)) ds) /\
  (forall k,
     person_zones r.1 !! k =
     if decide (i <= k < i + length ds)%nat then
       (fun d => cap10 (default [] (person_zones zd !! k)
                        ++ [zone_of zd shape d])) <$> ds !! (k - i)%nat
     else person_zones zd !! k).
Proof.
  induction ds as [|d ds IH]; intros i zd.
  - cbn. repeat split. intros k. destruct (decide _); [lia|reflexivity].
  - cbn [detect_loop].
    pose proof (track_detection_spec shape (clock i) i d zd) as Ht.
    destruct (track_detection to_pixel shape (clock i) i d zd) as [zd1 ev].
    cbn [fst snd] in Ht. destruct Ht as (He1 & Hx1 & Hpz1 & Hev).
    specialize (IH (S i) zd1).
    destruct (detect_loop to_pixel shape clock (S i) ds zd1) as [zd2 evs].
    cbn [fst snd] in *. destruct IH as (He2 & Hx2 & Hevs & Hlook).
    split; [congruence|]. split; [congruence|]. split.
    + rewrite Hev, Hevs. cbn [imap]. rewrite Nat.add_0_r.
      assert (Himap :
        imap (fun j d0 =>
                transition_event (person_zones zd1 !! (S i + j)%nat ≫= last)
                  (zone_of zd1 shape d0) (S i + j) d0 (clock (S i + j)%nat)) ds
        = imap ((fun j d0 =>
                transition_event (person_zones zd !! (i + j)%nat ≫= last)
                  (zone_of zd shape d0) (i + j) d0 (clock (i + j)%nat)) ∘ S) ds).
      { apply imap_ext. intros j d0 _. cbn.
        rewrite Hpz1, lookup_insert_ne by lia.
        rewrite (zone_of_zones shape d0 zd zd1 He1 Hx1).
        replace (S (i + j)) with (i + S j)%nat by lia. reflexivity. }
      rewrite Himap.
      destruct (transition_event _ _ i d (clock i)); reflexivity.
    + intros k. rewrite Hlook. cbn [length].
      destruct (decide (S i <= k < S i + length ds)%nat) as [Hin|Hout].
      * destruct (decide (i <= k < i + S (length ds))%nat); [|lia].
        replace (k - i)%nat with (S (k - S i)) by lia. cbn [lookup list_lookup].
        destruct (ds !! (k - S i)%nat) as [d0|] eqn:Hd0; [|reflexivity].
        cbn. rewrite Hpz1, lookup_insert_ne by lia.
        rewrite (zone_of_zones shape d0 zd zd1 He1 Hx1). reflexivity.
      * destruct (decide (i <= k < i + S (length ds))%nat) as [Hin'|Hout'].
        -- assert (k = i) as -> by lia. rewrite Nat.sub_diag. cbn.
           rewrite Hpz1, lookup_insert_eq. reflexivity.
        -- rewrite Hpz1, lookup_insert_ne by lia. reflexivity.
Qed.

Lemma omap_length_le {A B} (f : A -> option B) (l : list A) :
  (length (omap f l) <= length l)%nat.
Proof.
  induction l as [|x l IH]; [reflexivity|]. cbn.
  destruct (f x); cbn; lia.
Qed.

Lemma contains_point_spec (z : Zone) x y h w :
  contains_point to_pixel z (x, y) (h, w) = true <->
  exists x1 y1 x2 y2,
    get_pixel_coordinates to_pixel z (h, w) = (x1, y1, x2, y2) /\
    x1 <= x <= x2 /\ y1 <= y <= y2.
Proof.
  unfold contains_point, get_pixel_coordinates.
  destruct (coordinates z) as [[[c0 c1] c2] c3].
  rewrite !andb_true_iff, !Z.leb_le. split.
  - intros. eexists _, _, _, _. split; [reflexivity|]. lia.
  - intros (x1 & y1 & x2 & y2 & [= <- <- <- <-] & Hx & Hy). lia.
Qed.

(** X11. Zone classification: a point is in a zone when it lies within
    the zone's pixel rectangle, boundaries included; a point inside both
    zones is classified as entry, and a point is neutral exactly when it
    is in neither zone. *)
Theorem entry_zone_has_priority (zd : t) (point shape : Z * Z) :
  (get_zone_for_point to_pixel zd point shape = ENTRY <->
   contains_point to_pixel (entry_zone zd) point shape = true) /\
  (get_zone_for_point to_pixel zd point shape = EXIT <->
   contains_point to_pixel (entry_zone zd) point shape = false /\
   contains_point to_pixel (exit_zone zd) point shape = true) /\
  (get_zone_for_point to_pixel zd point shape = NEUTRAL <->
   contains_point to_pixel (entry_zone zd) point shape = false /\
   contains_point to_pixel (exit_zone zd) point shape = false) /\
  (forall (z : Zone) x y h w,
     contains_point to_pixel z (x, y) (h, w) = true <->
     exists x1 y1 x2 y2,
       get_pixel_coordinates to_pixel z (h, w) = (x1, y1, x2, y2) /\
       x1 <= x <= x2 /\ y1 <= y <= y2).
Proof.
  unfold get_zone_for_point.
  destruct (contains_point to_pixel (entry_zone zd) point shape),
           (contains_point to_pixel (exit_zone zd) point shape);
    (split; [|split; [|split; [|apply contains_point_spec]]]);
    split; try tauto; try discriminate; intros [? ?]; discriminate.
Qed.

Lemma detect_zone_events_spec clock ds shape (zd : t) :
  let r := detect_zone_events to_pixel clock ds shape zd in
  entry_zone r.1 = entry_zone zd /\ exit_zone r.1 = exit_zone zd /\
  r.2 = omap id (imap (fun i d =>
          transition_event (person_zones zd !! i ≫= last)
            (zone_of zd shape d) i d (clock i)) ds) /\
  (forall k,
     person_zones r.1 !! k =
     (fun d => cap10 (default [] (person_zones zd !! k)
                      ++ [zone_of zd shape d])) <$> ds !! k).
Proof.
  unfold detect_zone_events.
  pose proof (detect_loop_spec shape clock ds 0 zd) as H.
  destruct (detect_loop to_pixel shape clock 0 ds zd) as [zd1 evs].
  cbn [fst snd cleanup_old_tracks entry_zone exit_zone person_zones] in *.
  destruct H as (He & Hx & Hev & Hlook).
  split; [exact He|]. split; [exact Hx|]. split; [exact Hev|].
  intros k. rewrite map_lookup_filter, Hlook. cbn [fst].
  rewrite Nat.sub_0_r.
  destruct (decide (0 <= k < 0 + length ds)%nat) as [Hin|Hout].
  - destruct (ds !! k) as [d|]; [|reflexivity]. cbn.
    rewrite option_guard_True by lia. reflexivity.
  - rewrite (lookup_ge_None_2 ds k) by lia. cbn.
    destruct (person_zones zd !! k); [|reflexivity]. cbn.
    rewrite option_guard_False by lia. reflexivity.
Qed.

Lemma event_membership (clock : nat -> Z)
    (ds : list Detection.t) (shape : Z * Z) (zd : t) (e : ZoneEvent) :
  e ∈ (detect_zone_events to_pixel clock ds shape zd).2 <->
  exists i d history,
    ds !! i = Some d /\
    person_zones zd !! i = Some history /\
    last history = Some NEUTRAL /\
    ((zone_of zd shape d = ENTRY /\
      e = entry_event (Z.of_nat i) d (clock i)) \/
     (zone_of zd shape d = EXIT /\
      e = exit_event (Z.of_nat i) d (clock i))).
Proof.
  destruct (detect_zone_events_spec clock ds shape zd) as (_ & _ & Hev & _).
  rewrite Hev, list_elem_of_omap. split.
  - intros (o & Hin & Ho). cbn in Ho. subst o.
    apply elem_of_lookup_imap in Hin as (i & d & Heq & Hd).
    exists i, d.
    destruct (person_zones zd !! i) as [history|]; [|discriminate].
    exists history. cbn in Heq. split; [exact Hd|]. split; [reflexivity|].
    destruct (last history) as [[]|]; try discriminate.
    destruct (get_zone_for_point to_pixel zd (Detection.center d) shape);
      try discriminate; injection Heq as ->; auto.
  - intros (i & d & history & Hd & Hh & Hl & Hcase).
    exists (Some e). split; [|reflexivity].
    apply elem_of_lookup_imap. exists i, d. split; [|exact Hd].
    rewrite Hh. cbn. rewrite Hl.
    destruct Hcase as [[-> ->] | [-> ->]]; reflexivity.
Qed.

Lemma history_after_detect (clock : nat -> Z)
    (ds : list Detection.t) (shape : Z * Z) (zd : t) (k : nat) h :
  person_zones (detect_zone_events to_pixel clock ds shape zd).1 !! k
    = Some h ->
  (1 <= length h <= 10)%nat /\
  exists d, ds !! k = Some d /\ last h = Some (zone_of zd shape d).
Proof.
  destruct (detect_zone_events_spec clock ds shape zd) as (_ & _ & _ & Hlook).
  rewrite Hlook. intros Hh. destruct (ds !! k) as [d|]; [|discriminate].
  injection Hh as <-. split.
  - rewrite cap10_length, length_app. cbn. lia.
  - exists d. split; [reflexivity|].
    destruct (cap10_snoc (default [] (person_zones zd !! k))
                (get_zone_for_point to_pixel zd (Detection.center d) shape))
      as (h' & -> & _).
    apply last_snoc.
Qed.

(** X12. Zone events are rising edges out of the neutral zone, decided
    per detection index from the previous frame alone: in one call of
    [detect_zone_events] the detection at index [i] yields an event
    exactly when the last zone recorded for index [i] is neutral and the
    detection is now in the entry zone (an entry event) or in the exit
    zone (an exit event).  The events come in index order. *)
Theorem events_are_neutral_edges (clock : nat -> Z)
    (ds : list Detection.t) (shape : Z * Z) (zd : t) :
  (detect_zone_events to_pixel clock ds shape zd).2 =
    omap id (imap (fun i d =>
      transition_event (person_zones zd !! i ≫= last)
        (zone_of zd shape d) i d (clock i)) ds) /\
  (forall e,
     e ∈ (detect_zone_events to_pixel clock ds shape zd).2 <->
     exists i d history,
       ds !! i = Some d /\
       person_zones zd !! i = Some history /\
       last history = Some NEUTRAL /\
       ((zone_of zd shape d = ENTRY /\
         e = entry_event (Z.of_nat i) d (clock i)) \/
        (zone_of zd shape d = EXIT /\
         e = exit_event (Z.of_nat i) d (clock i)))).
Proof.
  destruct (detect_zone_events_spec clock ds shape zd) as (_ & _ & Hev & _).
  split; [exact Hev|]. intros e. apply event_membership.
Qed.

(** X13. After every call of [detect_zone_events] the tracked indices are
    exactly the indices of the detections of that call, whatever was
    tracked before; each history is the old one extended by the zone of
    the detection and cut to its last ten entries, so it has between one
    and ten entries and ends with the current zone. *)
Theorem tracks_pruned_and_capped (clock : nat -> Z)
    (ds : list Detection.t) (shape : Z * Z) (zd : t) (k : nat) :
  person_zones (detect_zone_events to_pixel clock ds shape zd).1 !! k =
    (fun d => cap10 (default [] (person_zones zd !! k)
                     ++ [zone_of zd shape d])) <$> ds !! k /\
  (is_Some (person_zones (detect_zone_events to_pixel clock ds shape zd).1 !! k)
   <-> (k < length ds)%nat) /\
  (forall h,
     person_zones (detect_zone_events to_pixel clock ds shape zd).1 !! k
       = Some h ->
     (1 <= length h <= 10)%nat /\
     exists d, ds !! k = Some d /\ last h = Some (zone_of zd shape d)).
Proof.
  destruct (detect_zone_events_spec clock ds shape zd) as (_ & _ & _ & Hlook).
  rewrite Hlook. split; [reflexivity|]. split.
  - rewrite <- lookup_lt_is_Some. apply fmap_is_Some.
  - rewrite <- Hlook. apply history_after_detect.
Qed.

(** X14. Every event [detect_zone_events] emits is well formed: it
    carries no identity, it carries the detection that caused it, the
    index of that detection and the clock reading taken for it, and its
    type (equal to its zone tag) is entry or exit; there is at most one
    event per detection. *)
Theorem emitted_events_well_formed (clock : nat -> Z)
    (ds : list Detection.t) (shape : Z * Z) (zd : t) :
  Forall (fun e =>
            ze_face_id e = None /\
            (ze_type e = "entry" \/ ze_type e = "exit") /\
            ze_zone e = ze_type e /\
            exists i d, ds !! i = Some d /\
                        ze_person_id e = Z.of_nat i /\
                        ze_detection e = Some d /\
                        ze_timestamp e = clock i)
         (detect_zone_events to_pixel clock ds shape zd).2 /\
  (length (detect_zone_events to_pixel clock ds shape zd).2 <= length ds)%nat.
Proof.
  split.
  - apply Forall_forall. intros e He.
    apply event_membership in He
      as (i & d & history & Hd & _ & _ & [[_ ->] | [_ ->]]); cbn;
      (split; [reflexivity|]); (split; [auto|]); (split; [reflexivity|]);
      exists i, d; auto.
  - destruct (detect_zone_events_spec clock ds shape zd) as (_ & _ & -> & _).
    etransitivity; [apply omap_length_le|]. rewrite length_imap. reflexivity.
Qed.

(** X15. Across two consecutive frames the events of the second frame are
    decided by the zones of the two frames alone, index by index: the
    detection at index [i] yields an event exactly when the detection at
    index [i] of the first frame was neutral and this one is in the entry
    or exit zone.  Staying inside a zone yields nothing, and an index that
    had no detection in the first frame yields nothing: histories older
    than one frame never matter. *)
Theorem events_depend_on_two_frames (clock1 clock2 : nat -> Z)
    (ds1 ds2 : list Detection.t) (shape : Z * Z) (zd : t) :
  (detect_zone_events to_pixel clock2 ds2 shape
     (detect_zone_events to_pixel clock1 ds1 shape zd).1).2 =
  omap id (imap (fun i d =>
    transition_event ((fun d1 => zone_of zd shape d1) <$> ds1 !! i)
      (zone_of zd shape d)
      i d (clock2 i)) ds2).
Proof.
  destruct (detect_zone_events_spec clock1 ds1 shape zd)
    as (He & Hx & _ & Hlook).
  destruct (detect_zone_events_spec clock2 ds2 shape
              (detect_zone_events to_pixel clock1 ds1 shape zd).1)
    as (_ & _ & -> & _).
  f_equal. apply imap_ext. intros i d _. cbn.
  rewrite (zone_of_zones shape d zd _ He Hx), Hlook.
  f_equal. destruct (ds1 !! i) as [d1|]; [|reflexivity]. cbn.
  destruct (cap10_snoc (default [] (person_zones zd !! i))
              (get_zone_for_point to_pixel zd (Detection.center d1) shape))
    as (h' & -> & _).
  apply last_snoc.
Qed.

(** *** The default zones *)

Lemma default_zones_cover (zd : t) shape d :
  (forall size, to_pixel 0 size = 0) ->
  (forall size, to_pixel 1 size = size) ->
  coordinates (entry_zone zd) = default_entry_coords ->
  coordinates (exit_zone zd) = default_exit_coords ->
  in_frame shape d ->
  zone_of zd shape d <> NEUTRAL.
Proof.
  intros H0 H1 Hen Hex [Hx Hy]. unfold get_zone_for_point, contains_point.
  destruct shape as [h w]. destruct (Detection.center d) as [x y].
  rewrite Hen, Hex. unfold default_entry_coords, default_exit_coords.
  rewrite !H0, !H1. cbn [fst snd] in Hx, Hy.
  destruct (Z.leb_spec 0 x); [|lia]. destruct (Z.leb_spec 0 y); [|lia].
  destruct (Z.leb_spec y h); [|lia]. destruct (Z.leb_spec x w); [|lia].
  destruct (Z.leb_spec x (to_pixel (1 # 2) w));
    destruct (Z.leb_spec (to_pixel (1 # 2) w) x); cbn; try discriminate; lia.
Qed.

Lemma run_frames_zones frames shape (zd : t) :
  entry_zone (run_frames to_pixel frames shape zd).1 = entry_zone zd /\
  exit_zone (run_frames to_pixel frames shape zd).1 = exit_zone zd.
Proof.
  revert zd. induction frames as [|f frames IH]; intros zd; [split; reflexivity|].
  cbn [run_frames].
  destruct (detect_zone_events_spec (f_clock f) (f_detections f) shape zd)
    as (He & Hx & _).
  destruct (detect_zone_events to_pixel _ _ shape zd) as [zd1 evs].
  specialize (IH zd1).
  destruct (run_frames to_pixel frames shape zd1) as [zd2 more].
  cbn [fst snd] in *. destruct IH. split; congruence.
Qed.

Lemma run_frames_no_events frames shape (zd : t) :
  (forall size, to_pixel 0 size = 0) ->
  (forall size, to_pixel 1 size = size) ->
  coordinates (entry_zone zd) = default_entry_coords ->
  coordinates (exit_zone zd) = default_exit_coords ->
  never_neutral zd ->
  Forall (fun f => Forall (in_frame shape) (f_detections f)) frames ->
  Forall (fun events => events = []) (run_frames to_pixel frames shape zd).2.
Proof.
  intros H0 H1 Hen Hex Hnn Hall. revert zd Hen Hex Hnn.
  induction Hall as [|f frames Hf _ IH]; intros zd Hen Hex Hnn; [constructor|].
  cbn [run_frames].
  pose proof (event_membership (f_clock f) (f_detections f) shape zd) as Hev.
  pose proof (history_after_detect (f_clock f) (f_detections f) shape zd)
    as Hst.
  destruct (detect_zone_events_spec (f_clock f) (f_detections f) shape zd)
    as (He & Hx & _).
  destruct (detect_zone_events to_pixel _ _ shape zd) as [zd1 evs].
  cbn [fst snd] in *.
  assert (Hnn1 : never_neutral zd1).
  { intros k h Hh.
    destruct (Hst k h Hh) as (_ & d & Hd & ->). intros [= Hz].
    apply (default_zones_cover zd shape d H0 H1 Hen Hex); [|exact Hz].
    apply (proj1 (Forall_forall _ _) Hf). apply list_elem_of_lookup. eauto. }
  specialize (IH zd1 ltac:(congruence) ltac:(congruence) Hnn1).
  destruct (run_frames to_pixel frames shape zd1) as [zd2 more].
  cbn [fst snd] in *. constructor; [|exact IH].
  destruct evs as [|e evs]; [reflexivity|]. exfalso.
  destruct (proj1 (Hev e) ltac:(left)) as (i & d & h & _ & Hh & Hl & _).
  apply (Hnn i h Hh Hl).
Qed.

(** X16. The default zones [[0, 0, 0.5, 1]] and [[0.5, 0, 1, 1]] cover
    the whole frame, so no point of the frame is neutral and, as events
    need a neutral zone to start from, a detector created with the default
    zones never emits an event for detections that lie in the frame, over
    any number of frames. *)
Theorem default_zones_emit_nothing (frames : list Frame) (shape : Z * Z) :
  (forall size, to_pixel 0 size = 0) ->
  (forall size, to_pixel 1 size = size) ->
  Forall (fun f => Forall (in_frame shape) (f_detections f)) frames ->
  Forall (fun events => events = [])
    (run_frames to_pixel frames shape
       (init default_entry_coords default_exit_coords)).2 /\
  (forall d, in_frame shape d ->
     zone_of (init default_entry_coords default_exit_coords) shape d
       <> NEUTRAL).
Proof.
  intros H0 H1 Hall. split.
  - apply run_frames_no_events; try assumption; try reflexivity.
    intros k h Hh. cbn in Hh. rewrite lookup_empty in Hh. discriminate.
  - intros d Hd. apply default_zones_cover; try assumption; reflexivity.
Qed.

End WithPixels.

Lemma exact_pixel_0 size : exact_pixel 0 size = 0.
Proof. reflexivity. Qed.

Lemma exact_pixel_1 size : exact_pixel 1 size = size.
Proof. unfold exact_pixel. cbn. rewrite Z.quot_1_r. lia. Qed.

Lemma default_zones_emit_nothing_witness :
  (run_frames exact_pixel
     [mkFrame (fun _ => 1) [Samples.person];
      mkFrame (fun _ => 2) [Samples.person; Samples.person]]
     (480, 640) (init default_entry_coords default_exit_coords)).2
  = [[]; []] /\
  Forall (fun events => events = [])
    (run_frames exact_pixel
       [mkFrame (fun _ => 1) [Samples.person];
        mkFrame (fun _ => 2) [Samples.person; Samples.person]]
       (480, 640) (init default_entry_coords default_exit_coords)).2.
Proof.
  split; [reflexivity|].
  apply (default_zones_emit_nothing exact_pixel
     [mkFrame (fun _ => 1) [Samples.person];
      mkFrame (fun _ => 2) [Samples.person; Samples.person]]
     (480, 640) exact_pixel_0 exact_pixel_1).
  repeat constructor; vm_compute; discriminate.
Defined.

End ZoneFacts.

(* ===================================================================== *)
(** * Further properties of the anti-fraud manager *)
(* ===================================================================== *)

Module FusionFacts.
Import AntiFraud.

Section WithEncoder.
Context {Encoding : Type}.
Variable face_distance : Encoding -> Encoding -> Q.

Abbreviation FaceDetection := (@FaceTracker.FaceDetection Encoding).
Abbreviation TrackedFace := (@FaceTracker.TrackedFace Encoding).
Abbreviation Manager := (@AntiFraud.t Encoding).

(** *** Spatial matching *)

(** The squared distance of a face from the person. *)
Abbreviation away c f := (dist2 c (face_center f)).

Lemma closest_loop_spec (c : Z * Z) (faces : list FaceDetection) :
  forall m f0,
  exists m' f',
    closest_loop c (Some (m, f0)) faces = Some (m', f') /\
    m' <= m /\
    ((m' = m /\ f' = f0 /\ Forall (fun f => m <= away c f) faces) \/
     (exists before after,
        faces = before ++ f' :: after /\ m' = away c f' /\ m' < m /\
        Forall (fun f => m' < away c f) before /\
        Forall (fun f => m' <= away c f) after)).
Proof.
  induction faces as [|f rest IH]; intros m f0.
  - exists m, f0. cbn. split; [reflexivity|]. split; [lia|]. left. auto.
  - cbn [closest_loop].
    destruct (Z.ltb_spec (away c f) m) as [Hlt|Hge].
    + destruct (IH (away c f) f) as (m' & f' & -> & Hle & Hcase).
      exists m', f'. split; [reflexivity|]. split; [lia|]. right.
      destruct Hcase as [(-> & -> & Hall) | (b & a & -> & -> & Hlt' & Hb & Ha)].
      * exists [], rest. cbn. repeat split; auto.
      * exists (f :: b), a. cbn. repeat split; auto; try lia.
    + destruct (IH m f0) as (m' & f' & -> & Hle & Hcase).
      exists m', f'. split; [reflexivity|]. split; [lia|].
      destruct Hcase as [(-> & -> & Hall) | (b & a & -> & -> & Hlt' & Hb & Ha)].
      * left. repeat split; auto.
      * right. exists (f :: b), a. cbn. repeat split; auto.
        constructor; [lia|exact Hb].
Qed.

Lemma closest_loop_first (c : Z * Z) (f : FaceDetection) rest :
  exists m' f' before after,
    closest_loop c None (f :: rest) = Some (m', f') /\
    f :: rest = before ++ f' :: after /\ m' = away c f' /\
    Forall (fun g => m' < away c g) before /\
    Forall (fun g => m' <= away c g) after.
Proof.
  cbn [closest_loop].
  destruct (closest_loop_spec c rest (away c f) f)
    as (m' & f' & -> & Hle & [(-> & -> & Hall) | (b & a & -> & -> & Hlt & Hb & Ha)]).
  - exists (away c f), f, [], rest. repeat split; auto.
  - exists (away c f'), f', (f :: b), a. repeat split; auto.
Qed.

Lemma matched_face_is_listed (event : ZoneEvent) (faces : list FaceDetection) fd :
  match_zone_event_to_face event faces = Some fd -> fd ∈ faces.
Proof.
  unfold match_zone_event_to_face.
  destruct faces as [|f rest]; [discriminate|].
  destruct (ze_detection event) as [person|]; [|discriminate].
  destruct (closest_loop_first (Detection.center person) f rest)
    as (m' & f' & b & a & -> & -> & _).
  destruct (_ <=? _); [|discriminate]. intros [= <-].
  apply elem_of_app. right. left.
Qed.

(** X17. Spatial matching picks the nearest face within 100 pixels: when
    [_match_zone_event_to_face] returns a face, the event carries a
    detection, the face is one of the given detections, its centre is at
    most 100 pixels from the centre of the person, every face listed
    before it is strictly further away and no face listed after it is
    nearer (the first of several nearest wins).  It returns nothing
    exactly when there are no faces, the event has no detection, or every
    face is further than 100 pixels away. *)
Theorem spatial_match_is_nearest (event : ZoneEvent)
    (faces : list FaceDetection) :
  (forall fd,
     match_zone_event_to_face event faces = Some fd ->
     exists person before after,
       ze_detection event = Some person /\
       faces = before ++ fd :: after /\
       away (Detection.center person) fd <= 100 * 100 /\
       Forall (fun f => away (Detection.center person) fd
                        < away (Detection.center person) f) before /\
       Forall (fun f => away (Detection.center person) fd
                        <= away (Detection.center person) f) after) /\
  (match_zone_event_to_face event faces = None <->
   faces = [] \/ ze_detection event = None \/
   exists person,
     ze_detection event = Some person /\
     Forall (fun f => 100 * 100 < away (Detection.center person) f) faces).
Proof.
  unfold match_zone_event_to_face, max_distance2.
  destruct faces as [|f rest].
  { split; [discriminate|]. split; auto. }
  destruct (ze_detection event) as [person|].
  2:{ split; [discriminate|]. split; auto. }
  destruct (closest_loop_first (Detection.center person) f rest)
    as (m' & f' & b & a & -> & Hsplit & -> & Hb & Ha).
  destruct (Z.leb_spec (away (Detection.center person) f') (100 * 100))
    as [Hin|Hout].
  - split.
    + intros fd [= <-]. exists person, b, a. repeat split; auto.
    + split; [discriminate|].
      intros [Hnil | [Hnone | (p & [= <-] & Hfar)]]; try discriminate.
      rewrite Hsplit in Hfar. apply Forall_app in Hfar as [_ Hfar].
      apply Forall_cons in Hfar as [Hfar _]. lia.
  - split; [discriminate|]. split; [|reflexivity].
    intros _. right. right. exists person. split; [reflexivity|].
    rewrite Hsplit. apply Forall_app. split.
    + eapply Forall_impl; [exact Hb|]. cbn. intros; lia.
    + constructor; [lia|]. eapply Forall_impl; [exact Ha|]. cbn. intros; lia.
Qed.

(** *** Cycles from a new manager *)

Lemma apply_event_keyed now (e : ZoneEvent) (m : Manager) :
  keyed_by_face_id m -> keyed_by_face_id (apply_event now e m).
Proof.
  unfold keyed_by_face_id, apply_event. intros Hk.
  destruct (ze_face_id e) as [f|]; [|exact Hk].
  destruct (decide (f = "")); [exact Hk|].
  destruct (passenger_records m !! f) as [r|] eqn:Hr.
  - pose proof (Hk f r Hr) as Hf.
    destruct (decide (ze_type e = "entry"));
      [|destruct (decide (ze_type e = "exit"))];
      cbn; apply map_Forall_insert_2; try exact Hk; cbn; auto.
  - cbn. apply map_Forall_insert_2; [reflexivity|exact Hk].
Qed.

Lemma apply_events_keyed now (evs : list ZoneEvent) (m : Manager) :
  keyed_by_face_id m -> keyed_by_face_id (apply_events now evs m).
Proof.
  revert m. unfold apply_events.
  induction evs as [|e evs IH]; intros m Hk; [exact Hk|].
  cbn. apply IH, apply_event_keyed, Hk.
Qed.

Lemma silence_pass_frame active now (m m' : Manager) :
  silence_pass active now m = Some m' ->
  face_tracker m' = face_tracker m /\
  temporary_exit_timeout m' = temporary_exit_timeout m /\
  stats m' = stats m /\
  passenger_records m' =
    map_imap (silence_one active now (temporary_exit_timeout m))
      (passenger_records m).
Proof.
  unfold silence_pass. destruct (decide _); [|discriminate].
  intros [= <-]. repeat split.
Qed.

Lemma track_all_config now (ds : list FaceDetection) (tr : @FaceTracker.t Encoding) :
  FaceTracker.tolerance (FaceTracker.track_all face_distance now ds tr).1.1
    = FaceTracker.tolerance tr /\
  FaceTracker.max_tracking_time
    (FaceTracker.track_all face_distance now ds tr).1.1
    = FaceTracker.max_tracking_time tr.
Proof.
  revert tr. induction ds as [|d ds IH]; intros tr; [split; reflexivity|].
  cbn [FaceTracker.track_all].
  assert (Hstep :
    FaceTracker.tolerance (FaceTracker.track_detection face_distance now d tr).1
      = FaceTracker.tolerance tr /\
    FaceTracker.max_tracking_time
      (FaceTracker.track_detection face_distance now d tr).1
      = FaceTracker.max_tracking_time tr).
  { unfold FaceTracker.track_detection.
    destruct (FaceTracker.match_detection_to_tracked_face _ _ _) as [f|];
      [destruct (decide (f = ""))|]; split; reflexivity. }
  destruct (FaceTracker.track_detection face_distance now d tr) as [tr1 o].
  specialize (IH tr1).
  destruct (FaceTracker.track_all face_distance now ds tr1) as [[tr2 ls] os].
  cbn [fst snd] in *. destruct Hstep, IH. split; congruence.
Qed.

Lemma update_tracking_config now (ds : list FaceDetection)
    (tr : @FaceTracker.t Encoding) :
  FaceTracker.tolerance
    (FaceTracker.tracker (FaceTracker.update_tracking face_distance now ds tr))
    = FaceTracker.tolerance tr /\
  FaceTracker.max_tracking_time
    (FaceTracker.tracker (FaceTracker.update_tracking face_distance now ds tr))
    = FaceTracker.max_tracking_time tr.
Proof.
  unfold FaceTracker.update_tracking.
  pose proof (track_all_config now ds tr) as H.
  destruct (FaceTracker.track_all face_distance now ds tr) as [[tr1 ls] os].
  exact H.
Qed.

(** The invariants and the configuration across one cycle. *)
Lemma process_frame_keeps (c : Cycle) (m : Manager) :
  well_formed m -> keyed_by_face_id m ->
  exists m' validated,
    process_frame_with_detections face_distance c m = Some (m', validated) /\
    well_formed m' /\ keyed_by_face_id m' /\
    temporary_exit_timeout m' = temporary_exit_timeout m /\
    FaceTracker.tolerance (face_tracker m')
      = FaceTracker.tolerance (face_tracker m) /\
    FaceTracker.max_tracking_time (face_tracker m')
      = FaceTracker.max_tracking_time (face_tracker m).
Proof.
  intros Hwf Hk.
  destruct (AntiFraudFacts.process_frame_total face_distance c m Hwf)
    as (m1 & validated & m2 & m3 & Hval & Hrec & -> & Hs & Hlook & _ & Hwf' & Hrun).
  exists (cleanup_old_records (cy_t_cleanup c) m3), validated.
  split; [exact Hrun|]. split; [exact Hwf'|].
  pose proof (AntiFraudFacts.validate_zone_events_frame (cy_zone_events c)
                (FaceTracker.labelled
                   (FaceTracker.update_tracking face_distance (cy_t_track c)
                      (cy_faces c) (face_tracker m)))
                (tracked_manager face_distance c m)) as (_ & Hft & Hto & _).
  rewrite Hval in Hft, Hto. cbn [fst] in Hft, Hto.
  destruct (AntiFraudFacts.apply_events_frame (cy_t_update c) validated m1)
    as [Hto2 Hft2].
  destruct (silence_pass_frame _ _ _ _ Hs) as (Hft3 & Hto3 & _ & _).
  split.
  { assert (Hk2 : keyed_by_face_id (apply_events (cy_t_update c) validated m1)).
    { apply apply_events_keyed. unfold keyed_by_face_id. rewrite Hrec. exact Hk. }
    intros k r Hr. apply AntiFraudFacts.cleanup_lookup in Hr as [Hr _].
    rewrite Hlook in Hr.
    destruct (passenger_records _ !! k) as [r2|] eqn:Hr2; [|discriminate].
    cbn in Hr.
    destruct (AntiFraudFacts.silence_one_spec _ _ _ _ _ _ Hr) as (-> & _).
    apply (Hk2 k r2 Hr2). }
  cbn [cleanup_old_records with_records temporary_exit_timeout face_tracker].
  rewrite Hto3, Hto2, Hto, Hft3, Hft2, Hft. cbn [tracked_manager face_tracker
    temporary_exit_timeout].
  split; [reflexivity|]. apply update_tracking_config.
Qed.

Lemma run_cycles_keeps (cycles : list Cycle) (m : Manager) :
  well_formed m -> keyed_by_face_id m ->
  exists m' outs,
    run_cycles face_distance cycles m = Some (m', outs) /\
    length outs = length cycles /\
    well_formed m' /\ keyed_by_face_id m' /\
    temporary_exit_timeout m' = temporary_exit_timeout m /\
    FaceTracker.tolerance (face_tracker m')
      = FaceTracker.tolerance (face_tracker m) /\
    FaceTracker.max_tracking_time (face_tracker m')
      = FaceTracker.max_tracking_time (face_tracker m).
Proof.
  revert m. induction cycles as [|c cycles IH]; intros m Hwf Hk.
  - exists m, []. repeat split; assumption.
  - cbn [run_cycles].
    destruct (process_frame_keeps c m Hwf Hk)
      as (m1 & v & -> & Hwf1 & Hk1 & Hto1 & Htol1 & Hmtt1).
    destruct (IH m1 Hwf1 Hk1) as (m' & outs & -> & Hlen & Hwf' & Hk' & Hto & Htol & Hmtt).
    exists m', (v :: outs). cbn [length].
    repeat split; try assumption; congruence.
Qed.

(** X18. From a new manager no sequence of processing cycles raises:
    every cycle returns, and afterwards every record is stored under its
    own face id and every record with status inside has an entry time
    (the value whose absence would make the silence rule raise a
    [TypeError]). *)
Theorem cycles_never_raise (tol : Q) (mtt : Z) (cycles : list Cycle) :
  exists m' outs,
    run_cycles face_distance cycles (init tol mtt) = Some (m', outs) /\
    length outs = length cycles /\
    well_formed m' /\ keyed_by_face_id m'.
Proof.
  destruct (run_cycles_keeps cycles (init tol mtt))
    as (m' & outs & H & Hlen & Hwf & Hk & _).
  - intros k r Hr. cbn in Hr. rewrite lookup_empty in Hr. discriminate.
  - intros k r Hr. cbn in Hr. rewrite lookup_empty in Hr. discriminate.
  - exists m', outs. auto.
Qed.


(** *** Cleanup *)

(** X20. Cleanup goes by the last exit, not by the status: a record is
    purged exactly when [exit_time or entry_time] is a timestamp more than
    an hour old, and kept unchanged otherwise.  So a passenger who is
    inside, leaves at [left] and comes back at [back] keeps the old
    [exit_time], and the record, although it has status inside and a
    recent entry time, is purged by any cleanup later than an hour after
    [left]. *)
Theorem cleanup_purges_by_last_exit (m : Manager) (fid : string)
    (r : PassengerRecord) (leaving returning : ZoneEvent)
    (left back now : Z) :
  passenger_records m !! fid = Some r ->
  fid <> "" ->
  ze_face_id leaving = Some fid -> ze_type leaving = "exit" ->
  ze_face_id returning = Some fid -> ze_type returning = "entry" ->
  left < now - usec_per_hour ->
  passenger_records (apply_event back returning (apply_event left leaving m))
    !! fid =
    Some {| face_id := face_id r; entry_time := Some back;
            exit_time := Some left; status := inside;
            zone_events := zone_events r ++ [("exit", left); ("entry", back)] |} /\
  passenger_records
    (cleanup_old_records now
       (apply_event back returning (apply_event left leaving m))) !! fid
    = None /\
  (forall (m0 : Manager) k r0,
     passenger_records m0 !! k = Some r0 ->
     (passenger_records (cleanup_old_records now m0) !! k = None <->
      exists la, last_activity r0 = Some la /\ la < now - usec_per_hour) /\
     (passenger_records (cleanup_old_records now m0) !! k = None \/
      passenger_records (cleanup_old_records now m0) !! k = Some r0)).
Proof.
  intros Hr Hne Hf1 Ht1 Hf2 Ht2 Hold.
  assert (H1 : passenger_records (apply_event left leaving m) !! fid =
            Some {| face_id := face_id r; entry_time := entry_time r;
                    exit_time := Some left; status := outside;
                    zone_events := zone_events r ++ [("exit", left)] |}).
  { unfold apply_event. rewrite Hf1, Hr, Ht1.
    destruct (decide (fid = "")); [contradiction|].
    destruct (decide ("exit" = "entry")) as [Heq|_]; [discriminate Heq|].
    destruct (decide ("exit" = "exit")); [|contradiction].
    cbn. apply lookup_insert_eq. }
  assert (H2 : passenger_records
            (apply_event back returning (apply_event left leaving m)) !! fid =
            Some {| face_id := face_id r; entry_time := Some back;
                    exit_time := Some left; status := inside;
                    zone_events :=
                      zone_events r ++ [("exit", left); ("entry", back)] |}).
  { unfold apply_event at 1. rewrite Hf2, H1, Ht2.
    destruct (decide (fid = "")); [contradiction|].
    destruct (decide ("entry" = "entry")); [|contradiction].
    cbn. rewrite lookup_insert_eq. unfold log_event. cbn.
    rewrite <- app_assoc. reflexivity. }
  assert (Hgen : forall (m0 : Manager) k r0,
     passenger_records m0 !! k = Some r0 ->
     (passenger_records (cleanup_old_records now m0) !! k = None <->
      exists la, last_activity r0 = Some la /\ la < now - usec_per_hour) /\
     (passenger_records (cleanup_old_records now m0) !! k = None \/
      passenger_records (cleanup_old_records now m0) !! k = Some r0)).
  { intros m0 k r0 H0.
    destruct (decide (expired (now - usec_per_hour) r0)) as [He|He].
    - assert (Hn : passenger_records (cleanup_old_records now m0) !! k = None).
      { destruct (passenger_records (cleanup_old_records now m0) !! k)
          as [r'|] eqn:E; [|reflexivity].
        apply AntiFraudFacts.cleanup_lookup in E as [E Hne'].
        rewrite H0 in E. injection E as <-. contradiction. }
      split; [|left; exact Hn]. split; [|intros _; exact Hn].
      intros _. unfold expired in He.
      destruct (last_activity r0) as [la|]; [|contradiction]. eauto.
    - assert (Hs : passenger_records (cleanup_old_records now m0) !! k = Some r0)
        by (apply AntiFraudFacts.cleanup_lookup; auto).
      split; [|right; exact Hs]. rewrite Hs. split; [discriminate|].
      intros (la & Hla & Hlt). exfalso. apply He. unfold expired.
      rewrite Hla. exact Hlt. }
  split; [exact H2|]. split; [|exact Hgen].
  apply (Hgen _ _ _ H2). exists left. split; [reflexivity|exact Hold].
Qed.

(** *** The passenger count *)

Lemma count_is_size (m : Manager) :
  get_current_passenger_count m =
  size (filter (fun kv : string * PassengerRecord => aboard kv.2)
               (passenger_records m)).
Proof. reflexivity. Qed.

Lemma size_filter_dom (P : string * PassengerRecord -> Prop)
    `{!forall kv, Decision (P kv)} (m1 m2 : gmap string PassengerRecord) :
  (forall k, (exists r, m1 !! k = Some r /\ P (k, r)) <->
             (exists r, m2 !! k = Some r /\ P (k, r))) ->
  size (filter P m1) = size (filter P m2).
Proof.
  intros Hiff. rewrite <- !(size_dom (D := gset string)). f_equal.
  apply set_eq. intros k. rewrite !elem_of_dom. unfold is_Some.
  setoid_rewrite map_lookup_filter_Some. apply Hiff.
Qed.

(** X21. The silence rule never changes the passenger count: whatever
    records [_update_passenger_records] moves from inside to
    temporary_exit, [get_current_passenger_count] is the same before and
    after, since both states count as aboard. *)
Theorem silence_keeps_count (active : gset string) (now : Z) (m m' : Manager) :
  silence_pass active now m = Some m' ->
  get_current_passenger_count m' = get_current_passenger_count m /\
  size (passenger_records m') = size (passenger_records m).
Proof.
  intros H.
  destruct (silence_pass_frame _ _ _ _ H) as (_ & _ & _ & Hrec).
  assert (Hall : forall k r, passenger_records m !! k = Some r ->
            exists r', silence_one active now (temporary_exit_timeout m) k r
                         = Some r').
  { unfold silence_pass in H. destruct (decide _) as [Hf|]; [|discriminate].
    intros k r Hr. destruct (Hf k r Hr) as [r' Hr']. eauto. }
  assert (Hab : forall k r r',
            silence_one active now (temporary_exit_timeout m) k r = Some r' ->
            (aboard r' <-> aboard r)).
  { intros k r r' Hs.
    destruct (AntiFraudFacts.silence_one_spec _ _ _ _ _ _ Hs)
      as (_ & _ & _ & _ & [-> | [Hi Ht]]); [tauto|].
    unfold aboard. rewrite Hi, Ht. tauto. }
  split.
  - rewrite !count_is_size, Hrec. apply size_filter_dom. intros k.
    rewrite map_lookup_imap. cbn [snd]. split.
    + intros (r' & Hr' & Hp).
      destruct (passenger_records m !! k) as [r|] eqn:Hr; [|discriminate].
      cbn in Hr'. exists r. split; [reflexivity|]. apply (Hab k r r' Hr'), Hp.
    + intros (r & Hr & Hp). rewrite Hr. cbn.
      destruct (Hall k r Hr) as [r' Hr']. exists r'. split; [exact Hr'|].
      apply (Hab k r r' Hr'), Hp.
  - rewrite Hrec, <- !(size_dom (D := gset string)). f_equal.
    apply set_eq. intros k. rewrite !elem_of_dom, map_lookup_imap.
    destruct (passenger_records m !! k) as [r|] eqn:Hr; cbn.
    + destruct (Hall k r Hr) as [r' ->]. split; eauto.
    + split; intros [? [=]].
Qed.

Lemma count_insert (recs : gmap string PassengerRecord) k r :
  Z.of_nat (size (filter (fun kv : string * PassengerRecord => aboard kv.2)
                         (<[k := r]> recs)))
    + weight (recs !! k) =
  Z.of_nat (size (filter (fun kv : string * PassengerRecord => aboard kv.2) recs))
    + weight (Some r).
Proof.
  set (P := fun kv : string * PassengerRecord => aboard kv.2).
  assert (Hold : Z.of_nat (size (filter P recs)) =
                 Z.of_nat (size (filter P (delete k recs))) + weight (recs !! k)).
  { destruct (recs !! k) as [r0|] eqn:Hr0; cbn [weight].
    - rewrite <- (insert_delete_id recs k r0 Hr0) at 1.
      rewrite map_filter_insert. destruct (decide (P (k, r0))) as [Hp|Hp];
        unfold P in Hp; cbn [snd] in Hp.
      + rewrite map_size_insert_None
          by (apply map_lookup_filter_None; left; apply lookup_delete_eq).
        destruct (decide (aboard r0)); [lia|contradiction].
      + rewrite delete_delete_eq.
        destruct (decide (aboard r0)); [contradiction|lia].
    - rewrite (delete_id recs k Hr0). lia. }
  rewrite Hold. rewrite map_filter_insert.
  destruct (decide (P (k, r))) as [Hp|Hp]; unfold P in Hp; cbn [snd] in Hp;
    cbn [weight].
  - rewrite <- insert_delete_eq, <- map_filter_delete.
    rewrite map_size_insert_None
      by (apply map_lookup_filter_None; left; apply lookup_delete_eq).
    destruct (decide (aboard r)); [lia|contradiction].
  - destruct (decide (aboard r)); [contradiction|lia].
Qed.

(** X22. How an accepted event moves the passenger count
    ([get_current_passenger_count], the number of records inside or in
    temporary exit).  An entry adds one, except for an identity returning
    from a temporary exit, who was still counted; an exit of a recorded
    passenger subtracts one; the first event of an unknown identity being
    an exit leaves the count alone. *)
Theorem accepted_event_moves_count (m : Manager) (event : ZoneEvent)
    (fid : string) (now : Z) :
  ze_face_id event = Some fid ->
  fid <> "" ->
  is_legitimate_event (ze_type event) (Some fid) m = true ->
  (ze_type event = "entry" ->
   Z.of_nat (get_current_passenger_count (apply_event now event m)) =
   Z.of_nat (get_current_passenger_count m) +
   (if decide (status <$> passenger_records m !! fid = Some temporary_exit)
    then 0 else 1)) /\
  (ze_type event = "exit" ->
   Z.of_nat (get_current_passenger_count (apply_event now event m)) =
   Z.of_nat (get_current_passenger_count m) -
   (if decide (is_Some (passenger_records m !! fid)) then 1 else 0)).
Proof.
  intros Hfid Hne Hleg. rewrite !count_is_size.
  unfold apply_event. rewrite Hfid.
  destruct (decide (fid = "")); [contradiction|].
  destruct (passenger_records m !! fid) as [r|] eqn:Hr.
  - split; intros Hty; rewrite Hty in *.
    + destruct (decide ("entry" = "entry")); [|contradiction].
      apply (AntiFraudFacts.is_legitimate_entry fid r m Hr) in Hleg.
      cbn [passenger_records].
      pose proof (count_insert (passenger_records m) fid
        (log_event "entry" now
           {| face_id := face_id r; entry_time := Some now;
              exit_time := exit_time r; status := inside;
              zone_events := zone_events r |})) as Hc.
      rewrite Hr in Hc. cbn [weight] in Hc.
      destruct (decide (aboard (log_event _ _ _))) as [_|Hn];
        [|exfalso; apply Hn; left; reflexivity].
      cbn [fmap option_fmap option_map].
      destruct (decide (aboard r)) as [Ha|Ha];
        destruct (decide (Some (status r) = Some temporary_exit)) as [E|E];
        unfold aboard in *; destruct Hleg as [Ho|Ht];
        try rewrite Ho in *; try rewrite Ht in *;
        try discriminate; try congruence; try tauto; try lia;
        destruct Ha; discriminate.
    + destruct (decide ("exit" = "entry")) as [Heq|_]; [discriminate Heq|].
      destruct (decide ("exit" = "exit")); [|contradiction].
      apply (AntiFraudFacts.is_legitimate_exit fid r m Hr) in Hleg.
      cbn [passenger_records with_records].
      pose proof (count_insert (passenger_records m) fid
        (log_event "exit" now
           {| face_id := face_id r; entry_time := entry_time r;
              exit_time := Some now; status := outside;
              zone_events := zone_events r |})) as Hc.
      rewrite Hr in Hc. cbn [weight] in Hc.
      destruct (decide (aboard (log_event _ _ _))) as [[Hb|Hb]|_];
        [discriminate Hb|discriminate Hb|].
      destruct (decide (aboard r)) as [_|Hn];
        [|exfalso; apply Hn; left; exact Hleg].
      destruct (decide (is_Some (Some r))) as [_|Hn]; [lia|].
      exfalso. apply Hn. eauto.
  - split; intros Hty; rewrite Hty in *.
    + destruct (decide ("entry" = "entry")); [|contradiction].
      cbn [passenger_records].
      pose proof (count_insert (passenger_records m) fid
        (log_event "entry" now
           {| face_id := fid; entry_time := Some now; exit_time := None;
              status := inside; zone_events := [] |})) as Hc.
      rewrite Hr in Hc. cbn [weight] in Hc.
      destruct (decide (aboard (log_event _ _ _))) as [_|Hn];
        [|exfalso; apply Hn; left; reflexivity].
      cbn [fmap option_fmap option_map].
      destruct (decide (None = Some temporary_exit)); [discriminate|lia].
    + destruct (decide ("exit" = "entry")) as [Heq|_]; [discriminate Heq|].
      cbn [passenger_records].
      pose proof (count_insert (passenger_records m) fid
        (log_event "exit" now
           {| face_id := fid; entry_time := None; exit_time := None;
              status := outside; zone_events := [] |})) as Hc.
      rewrite Hr in Hc. cbn [weight] in Hc.
      destruct (decide (aboard (log_event _ _ _))) as [[Hb|Hb]|_];
        [discriminate Hb|discriminate Hb|].
      destruct (decide (is_Some None)) as [[? [=]]|_]. lia.
Qed.

(** *** Validation loses nothing *)

Lemma validate_event_accounts (e : ZoneEvent) (faces : list FaceDetection)
    (m : Manager) :
  ((validate_event e faces m).2 = [] /\
   prevented_double_counts (stats (validate_event e faces m).1) =
     prevented_double_counts (stats m) + 1) \/
  (exists e', (validate_event e faces m).2 = [e'] /\
     set_face_id None e' = set_face_id None e /\
     (ze_face_id e' = ze_face_id e \/
      exists fd, fd ∈ faces /\ ze_face_id e' = FaceTracker.fd_face_id fd) /\
     prevented_double_counts (stats (validate_event e faces m).1) =
       prevented_double_counts (stats m)).
Proof.
  unfold validate_event.
  destruct (match_zone_event_to_face e faces) as [fd|] eqn:Hm.
  - destruct (is_legitimate_event _ _ m).
    + right. eexists. split; [reflexivity|]. split; [reflexivity|].
      split; [|reflexivity]. right. exists fd. split; [|reflexivity].
      apply (matched_face_is_listed e faces fd Hm).
    + left. split; reflexivity.
  - right. exists e. repeat split. left. reflexivity.
Qed.

(** X23. Validation accounts for every zone event: each event is either
    forwarded or counted as a prevented double count, so the number of
    validated events plus the growth of [prevented_double_counts] is the
    number of zone events; the validated events keep the order of the
    zone events and differ from them at most in the attached [face_id]. *)
Theorem validation_accounts_for_every_event (evs : list ZoneEvent)
    (faces : list FaceDetection) (m : Manager) :
  Z.of_nat (length (validate_zone_events evs faces m).2) +
    (prevented_double_counts (stats (validate_zone_events evs faces m).1)
     - prevented_double_counts (stats m)) = Z.of_nat (length evs) /\
  sublist (set_face_id None <$> (validate_zone_events evs faces m).2)
          (set_face_id None <$> evs) /\
  Forall (fun e' =>
            ze_face_id e' = None \/
            (exists e, e ∈ evs /\ ze_face_id e' = ze_face_id e) \/
            exists fd, fd ∈ faces /\ ze_face_id e' = FaceTracker.fd_face_id fd)
         (validate_zone_events evs faces m).2.
Proof.
  revert m. induction evs as [|e evs IH]; intros m.
  - cbn. split; [lia|]. split; constructor.
  - cbn [validate_zone_events].
    pose proof (validate_event_accounts e faces m) as Hone.
    destruct (validate_event e faces m) as [m1 out].
    specialize (IH m1).
    destruct (validate_zone_events evs faces m1) as [m2 outs].
    cbn [fst snd] in *. destruct IH as (Hlen & Hsub & Hall).
    assert (Hall' : Forall (fun e' =>
              ze_face_id e' = None \/
              (exists e0, e0 ∈ e :: evs /\ ze_face_id e' = ze_face_id e0) \/
              exists fd, fd ∈ faces /\ ze_face_id e' = FaceTracker.fd_face_id fd)
              outs).
    { eapply Forall_impl; [exact Hall|]. cbn.
      intros e' [H|[(e0 & Hin & H)|H]]; auto.
      right. left. exists e0. split; [right; exact Hin|exact H]. }
    destruct Hone as [[-> Hp] | (e' & -> & Heq & Hid & Hp)].
    + cbn [app length fmap list_fmap]. split; [lia|].
      split; [apply sublist_cons, Hsub|exact Hall'].
    + cbn [app length fmap list_fmap]. split; [lia|]. split.
      * rewrite Heq. apply sublist_skip, Hsub.
      * constructor; [|exact Hall'].
        destruct Hid as [H|H]; [|auto].
        right. left. exists e. split; [left|exact H].
Qed.

End WithEncoder.


Lemma cleanup_purges_by_last_exit_witness :
  status <$>
    passenger_records
      (apply_event 4000000000
         (set_face_id (Some "face_0001") (entry_event 0 Samples.person 4000))
         (apply_event 1000000
            (set_face_id (Some "face_0001") (exit_event 0 Samples.person 1))
            Samples.boarded)) !! "face_0001" = Some inside /\
  passenger_records
    (cleanup_old_records 4000000001
       (apply_event 4000000000
          (set_face_id (Some "face_0001") (entry_event 0 Samples.person 4000))
          (apply_event 1000000
             (set_face_id (Some "face_0001") (exit_event 0 Samples.person 1))
             Samples.boarded))) !! "face_0001" = None.
Proof.
  destruct (cleanup_purges_by_last_exit Samples.boarded "face_0001"
              Samples.boarded_record
              (set_face_id (Some "face_0001") (exit_event 0 Samples.person 1))
              (set_face_id (Some "face_0001") (entry_event 0 Samples.person 4000))
              1000000 4000000000 4000000001
              eq_refl ltac:(discriminate) eq_refl eq_refl eq_refl eq_refl
              ltac:(vm_compute; reflexivity))
    as (H1 & H2 & _).
  split; [rewrite H1; reflexivity|exact H2].
Defined.

Lemma silence_keeps_count_witness :
  match silence_pass ∅ 31000000 Samples.boarded with
  | Some m' =>
    status <$> passenger_records m' !! "face_0001" = Some temporary_exit /\
    get_current_passenger_count m' = 1%nat
  | None => False
  end.
Proof.
  destruct (silence_pass ∅ 31000000 Samples.boarded) as [m'|] eqn:H;
    [|vm_compute in H; discriminate H].
  destruct (silence_keeps_count ∅ 31000000 Samples.boarded m' H) as [Hc _].
  split; [|rewrite Hc; vm_compute; reflexivity].
  vm_compute in H. injection H as <-. vm_compute. reflexivity.
Defined.

Lemma accepted_event_moves_count_witness :
  Z.of_nat
    (get_current_passenger_count
       (apply_event 5
          (set_face_id (Some "face_0001") (exit_event 0 Samples.person 5))
          Samples.boarded)) = 0.
Proof.
  destruct (accepted_event_moves_count Samples.boarded
              (set_face_id (Some "face_0001") (exit_event 0 Samples.person 5))
              "face_0001" 5 eq_refl ltac:(discriminate) eq_refl)
    as [_ H].
  rewrite (H eq_refl). reflexivity.
Defined.

End FusionFacts.

(* ===================================================================== *)
(** * Further properties of the identity tracker *)
(* ===================================================================== *)

Module ODictFacts.
Section Facts.
Context {V : Type}.
Implicit Types (d : list (string * V)) (k : string) (v : V).

Lemma keys_update (f : V -> V) k d : ODict.keys (ODict.update f k d) = ODict.keys d.
Proof.
  unfold ODict.keys. induction d as [|[k' v] d IH]; [reflexivity|].
  cbn. destruct (decide (k' = k)); cbn; [reflexivity|]. f_equal. exact IH.
Qed.

Lemma set_fresh k v d :
  k ∉ ODict.keys d -> ODict.set k v d = d ++ [(k, v)].
Proof.
  unfold ODict.keys. induction d as [|[k' v'] d IH]; intros Hn; [reflexivity|].
  cbn in *. apply not_elem_of_cons in Hn as [Hne Hn].
  destruct (decide (k' = k)); [congruence|]. f_equal. apply IH, Hn.
Qed.

Lemma update_Forall (P : string * V -> Prop) (f : V -> V) k d :
  (forall v, P (k, v) -> P (k, f v)) ->
  Forall P d -> Forall P (ODict.update f k d).
Proof.
  intros Hf. induction 1 as [|[k' v] d Hv Hd IH]; [constructor|].
  cbn. destruct (decide (k' = k)) as [->|]; constructor; auto.
Qed.

Lemma update_other (f : V -> V) k d k' v :
  k' <> k -> (k', v) ∈ d -> (k', v) ∈ ODict.update f k d.
Proof.
  intros Hne. induction d as [|[k0 v0] d IH]; intros Hin; [inversion Hin|].
  cbn. apply elem_of_cons in Hin as [[= <- <-]|Hin].
  - destruct (decide (k' = k)); [contradiction|]. left.
  - destruct (decide (k0 = k)); right; auto.
Qed.

Lemma update_hit (f : V -> V) k d v :
  NoDup (ODict.keys d) -> (k, v) ∈ d -> (k, f v) ∈ ODict.update f k d.
Proof.
  unfold ODict.keys. induction d as [|[k0 v0] d IH]; intros Hnd Hin;
    [inversion Hin|].
  cbn in *. apply NoDup_cons in Hnd as [Hnotin Hnd].
  apply elem_of_cons in Hin as [[= <- <-]|Hin].
  - destruct (decide (k = k)); [left|contradiction].
  - destruct (decide (k0 = k)) as [->|].
    + exfalso. apply Hnotin. apply list_elem_of_fmap. exists (k, v). auto.
    + right. apply IH; assumption.
Qed.

Lemma update_elem (f : V -> V) k d k' v' :
  (k', v') ∈ ODict.update f k d ->
  (k', v') ∈ d \/ (k' = k /\ exists v, (k, v) ∈ d /\ v' = f v).
Proof.
  induction d as [|[k0 v0] d IH]; intros Hin; [inversion Hin|].
  cbn in Hin. destruct (decide (k0 = k)) as [->|].
  - apply elem_of_cons in Hin as [[= -> ->]|Hin].
    + right. split; [reflexivity|]. exists v0. split; [left|reflexivity].
    + left. right. exact Hin.
  - apply elem_of_cons in Hin as [[= -> ->]|Hin]; [left; left|].
    destruct (IH Hin) as [H|(-> & v & Hv & ->)]; [left; right; exact H|].
    right. split; [reflexivity|]. exists v. split; [right; exact Hv|reflexivity].
Qed.

Lemma unique_value k v v' d :
  NoDup (ODict.keys d) -> (k, v) ∈ d -> (k, v') ∈ d -> v = v'.
Proof.
  unfold ODict.keys. induction d as [|[k0 v0] d IH]; intros Hnd H1 H2;
    [inversion H1|].
  cbn in Hnd. apply NoDup_cons in Hnd as [Hnotin Hnd].
  assert (Hkey : forall w, (k0, w) ∈ d -> False).
  { intros w Hw. apply Hnotin. apply list_elem_of_fmap. exists (k0, w). auto. }
  apply elem_of_cons in H1 as [[= <- <-]|H1];
    apply elem_of_cons in H2 as [[= <-]|H2]; try reflexivity.
  - exfalso. apply (Hkey _ H2).
  - subst. exfalso. apply (Hkey _ H1).
  - apply IH; assumption.
Qed.

Lemma del_absent (P : string * V -> Prop) k d :
  k ∉ ODict.keys d -> ODict.del k d = d.
Proof.
  unfold ODict.keys. induction d as [|[k0 v0] d IH]; intros Hn; [reflexivity|].
  cbn in *. apply not_elem_of_cons in Hn as [Hne Hn].
  destruct (decide (k0 = k)); [congruence|]. f_equal. apply IH, Hn.
Qed.

Lemma foldl_del_cons_other k v d ks :
  k ∉ ks ->
  foldl (fun acc k0 => ODict.del k0 acc) ((k, v) :: d) ks =
  (k, v) :: foldl (fun acc k0 => ODict.del k0 acc) d ks.
Proof.
  revert d. induction ks as [|k0 ks IH]; intros d Hn; [reflexivity|].
  apply not_elem_of_cons in Hn as [Hne Hn]. cbn.
  destruct (decide (k = k0)); [contradiction|]. apply IH, Hn.
Qed.

(** Deleting the keys of the entries that satisfy [P] leaves exactly the
    entries that do not, provided no key occurs twice. *)
Lemma purge_is_filter (P : string * V -> Prop) `{!forall kv, Decision (P kv)} d :
  NoDup (ODict.keys d) ->
  foldl (fun acc k => ODict.del k acc) d (filter P d).*1 =
  filter (fun kv => ~ P kv) d.
Proof.
  unfold ODict.keys. induction d as [|[k v] d IH]; intros Hnd; [reflexivity|].
  cbn in Hnd. apply NoDup_cons in Hnd as [Hnotin Hnd].
  rewrite !filter_cons.
  destruct (decide (P (k, v))) as [Hp|Hp];
    destruct (decide (~ P (k, v))) as [Hq|Hq]; try tauto.
  - cbn. destruct (decide (k = k)); [|contradiction]. apply IH, Hnd.
  - rewrite foldl_del_cons_other; [f_equal; apply IH, Hnd|].
    intros Hin. apply Hnotin.
    apply list_elem_of_fmap in Hin as ([k' v'] & -> & Hin).
    apply list_elem_of_filter in Hin as [_ Hin].
    apply list_elem_of_fmap. exists (k', v'). auto.
Qed.

Lemma keys_filter_NoDup (P : string * V -> Prop) `{!forall kv, Decision (P kv)} d :
  NoDup (ODict.keys d) -> NoDup (ODict.keys (filter P d)).
Proof.
  unfold ODict.keys. induction d as [|[k v] d IH]; intros Hnd; [constructor|].
  cbn in Hnd. apply NoDup_cons in Hnd as [Hnotin Hnd].
  rewrite filter_cons. destruct (decide (P (k, v))); [|apply IH, Hnd].
  cbn. apply NoDup_cons. split; [|apply IH, Hnd].
  intros Hin. apply Hnotin.
  apply list_elem_of_fmap in Hin as ([k' v'] & -> & Hin).
  apply list_elem_of_filter in Hin as [_ Hin].
  apply list_elem_of_fmap. exists (k', v'). auto.
Qed.

End Facts.
End ODictFacts.

Module TrackerFacts.
Import FaceTracker.

Section WithEncoder.
Context {Encoding : Type}.
Variable face_distance : Encoding -> Encoding -> Q.

Abbreviation FaceDetection := (@FaceTracker.FaceDetection Encoding).
Abbreviation TrackedFace := (@FaceTracker.TrackedFace Encoding).
Abbreviation Tracker := (@FaceTracker.t Encoding).

Lemma face_ok_mono (n n' : nat) (kv : string * TrackedFace) :
  (n <= n')%nat -> face_ok n kv -> face_ok n' kv.
Proof.
  intros Hle (Hid & (i & Hi & Hk) & Hlen).
  split; [exact Hid|]. split; [|exact Hlen]. exists i. split; [lia|exact Hk].
Qed.

Lemma next_id_is_fresh (tr : Tracker) :
  consistent tr -> face_id_of (next_face_id tr) ∉ ODict.keys (tracked_faces tr).
Proof.
  intros (_ & Hall & _) Hin. unfold ODict.keys in Hin.
  apply list_elem_of_fmap in Hin as ([k tf] & Hk & Hin). cbn in Hk.
  destruct (proj1 (Forall_forall _ _) Hall _ Hin) as (_ & (i & Hi & Hki) & _).
  cbn in Hki. rewrite Hki in Hk.
  apply FaceTrackerFacts.face_id_of_inj in Hk. lia.
Qed.

Lemma cap10_bounds (l : list Encoding) e :
  (1 <= length (cap10 (l ++ [e])) <= 10)%nat.
Proof.
  unfold cap10. rewrite length_app. cbn [length].
  destruct (Nat.ltb_spec 10 (length l + 1));
    [rewrite length_drop, length_app|rewrite length_app];
    cbn [length]; lia.
Qed.

(** What an iteration that creates an identity does to the dict. *)
Lemma create_spec now (d : FaceDetection) (tr : Tracker) :
  consistent tr ->
  ODict.set (face_id_of (next_face_id tr)) (fresh_face now d tr)
    (tracked_faces tr)
  = tracked_faces tr ++ [(face_id_of (next_face_id tr), fresh_face now d tr)].
Proof. intros Hc. apply ODictFacts.set_fresh, next_id_is_fresh, Hc. Qed.

Lemma consistent_create now (d : FaceDetection) (tr : Tracker) :
  consistent tr ->
  consistent
    {| tolerance := tolerance tr; max_tracking_time := max_tracking_time tr;
       tracked_faces :=
         ODict.set (face_id_of (next_face_id tr)) (fresh_face now d tr)
           (tracked_faces tr);
       next_face_id := S (next_face_id tr) |}.
Proof.
  intros Hc. pose proof (next_id_is_fresh tr Hc) as Hfresh.
  unfold consistent. cbn [tracked_faces next_face_id].
  rewrite (create_spec now d tr Hc).
  destruct Hc as (Hnd & Hall & Hone).
  split; [|split; [|lia]].
  - unfold ODict.keys in *. rewrite fmap_app. cbn.
    apply NoDup_app. split; [exact Hnd|]. split; [|apply NoDup_singleton].
    intros k Hk Hin. apply list_elem_of_singleton in Hin. subst k.
    apply Hfresh, Hk.
  - apply Forall_app. split.
    + eapply Forall_impl; [exact Hall|]. intros kv. apply face_ok_mono. lia.
    + constructor; [|constructor]. split; [reflexivity|]. split.
      * exists (next_face_id tr). split; [lia|reflexivity].
      * cbn. lia.
Qed.

Lemma consistent_refresh now enc fid (tr : Tracker) :
  consistent tr ->
  consistent
    {| tolerance := tolerance tr; max_tracking_time := max_tracking_time tr;
       tracked_faces := ODict.update (refresh now enc) fid (tracked_faces tr);
       next_face_id := next_face_id tr |}.
Proof.
  intros (Hnd & Hall & Hone). unfold consistent. cbn [tracked_faces next_face_id].
  rewrite ODictFacts.keys_update. split; [exact Hnd|]. split; [|exact Hone].
  apply ODictFacts.update_Forall; [|exact Hall].
  intros tf (Hid & Hn & _). split; [exact Hid|]. split; [exact Hn|].
  apply cap10_bounds.
Qed.

Lemma consistent_track_detection now (d : FaceDetection) (tr : Tracker) :
  consistent tr -> consistent (track_detection face_distance now d tr).1.
Proof.
  intros Hc. unfold track_detection.
  destruct (match_detection_to_tracked_face _ _ _) as [fid|];
    [destruct (decide (fid = ""))|]; cbn [fst].
  - apply (consistent_create now d tr Hc).
  - apply consistent_refresh, Hc.
  - apply (consistent_create now d tr Hc).
Qed.

Lemma consistent_track_all now (ds : list FaceDetection) (tr : Tracker) :
  consistent tr -> consistent (track_all face_distance now ds tr).1.1.
Proof.
  revert tr. induction ds as [|d ds IH]; intros tr Hc; [exact Hc|].
  cbn [track_all].
  pose proof (consistent_track_detection now d tr Hc) as H1.
  destruct (track_detection face_distance now d tr) as [tr1 o].
  specialize (IH tr1 H1).
  destruct (track_all face_distance now ds tr1) as [[tr2 ls] os].
  exact IH.
Qed.

Lemma keys_aged th (l : list (string * TrackedFace)) :
  ODict.keys (prod_map id (age th) <$> l) = ODict.keys l.
Proof.
  unfold ODict.keys. rewrite <- list_fmap_compose.
  apply list_fmap_ext. intros i [k tf] _. reflexivity.
Qed.

(** [update_tracking], with the deletions written as a filter. *)
Lemma update_tracking_spec now (ds : list FaceDetection) (tr : Tracker) :
  consistent tr ->
  tracked_faces (tracker (update_tracking face_distance now ds tr)) =
    filter (fun kv => ~ tf_last_seen kv.2
                        < now - max_tracking_time tr * 2 * usec_per_sec)
      (prod_map id (age (now - max_tracking_time tr * usec_per_sec)) <$>
         tracked_faces (track_all face_distance now ds tr).1.1) /\
  result (update_tracking face_distance now ds tr) =
    ODict.values
      (tracked_faces (tracker (update_tracking face_distance now ds tr))) /\
  next_face_id (tracker (update_tracking face_distance now ds tr)) =
    next_face_id (track_all face_distance now ds tr).1.1 /\
  labelled (update_tracking face_distance now ds tr) =
    (track_all face_distance now ds tr).1.2 /\
  outcomes (update_tracking face_distance now ds tr) =
    (track_all face_distance now ds tr).2.
Proof.
  intros Hc. unfold update_tracking.
  pose proof (consistent_track_all now ds tr Hc) as (Hnd & _).
  pose proof (FusionFacts.track_all_config face_distance now ds tr) as [_ Hmtt].
  destruct (track_all face_distance now ds tr) as [[tr1 ls] os].
  cbn [fst snd tracker result next_face_id labelled outcomes tracked_faces] in *.
  rewrite Hmtt. repeat split.
  unfold faces_to_remove. apply ODictFacts.purge_is_filter.
  rewrite keys_aged. exact Hnd.
Qed.

Lemma consistent_update_tracking now (ds : list FaceDetection) (tr : Tracker) :
  consistent tr ->
  consistent (tracker (update_tracking face_distance now ds tr)).
Proof.
  intros Hc.
  destruct (update_tracking_spec now ds tr Hc) as (Hkept & _ & Hnext & _).
  destruct (consistent_track_all now ds tr Hc) as (Hnd & Hall & Hone).
  unfold consistent. rewrite Hkept, Hnext.
  split; [|split; [|exact Hone]].
  - apply ODictFacts.keys_filter_NoDup. rewrite keys_aged. exact Hnd.
  - apply Forall_forall. intros kv Hin.
    apply list_elem_of_filter in Hin as [_ Hin].
    apply list_elem_of_fmap in Hin as ([k tf] & -> & Hin).
    destruct (proj1 (Forall_forall _ _) Hall _ Hin) as (Hid & Hn & Hlen).
    cbn in *. unfold face_ok, age. cbn.
    destruct (decide _); cbn; auto.
Qed.

Lemma consistent_run (ops : list (@Op Encoding)) (tr : Tracker) :
  consistent tr -> consistent (run face_distance ops tr).1.
Proof.
  revert tr. induction ops as [|[now ds|] ops IH]; intros tr Hc; [exact Hc| |].
  - cbn [run].
    specialize (IH _ (consistent_update_tracking now ds tr Hc)).
    destruct (run face_distance ops _) as [tr' ids]. exact IH.
  - cbn [run]. apply IH. repeat split; [constructor|constructor|cbn; lia].
Qed.

(** X24. The tracker stays consistent: after any sequence of updates and
    resets of a new tracker, no face id is tracked twice, every tracked
    face is stored under its own id, that id is [face_NNNN] for a number
    below the id counter, and every tracked face holds between one and
    ten encodings. *)
Theorem tracker_stays_consistent (tol : Q) (mtt : Z)
    (ops : list (@Op Encoding)) :
  NoDup (ODict.keys (tracked_faces (run face_distance ops (init tol mtt)).1)) /\
  Forall (fun kv : string * TrackedFace =>
            tf_face_id kv.2 = kv.1 /\
            (exists n, (1 <= n < next_face_id
                                   (run face_distance ops (init tol mtt)).1)%nat /\
                       kv.1 = face_id_of n) /\
            (1 <= length (tf_encodings kv.2) <= 10)%nat)
         (tracked_faces (run face_distance ops (init tol mtt)).1).
Proof.
  destruct (consistent_run ops (init tol mtt)) as (Hnd & Hall & _).
  - repeat split; [constructor|constructor|cbn; lia].
  - split; [exact Hnd|exact Hall].
Qed.

(** X25. After [update_tracking] no tracked face is stale: in a
    consistent tracker, every face that remains was seen within twice
    [max_tracking_time] before the clock reading, every face that is
    still active was seen within [max_tracking_time], and the list
    returned is the list of the faces that remain. *)
Theorem no_stale_faces_after_update (now : Z) (ds : list FaceDetection)
    (tr : Tracker) :
  consistent tr ->
  Forall (fun kv : string * TrackedFace =>
            now - max_tracking_time tr * 2 * usec_per_sec <= tf_last_seen kv.2 /\
            (tf_status kv.2 = active ->
             now - max_tracking_time tr * usec_per_sec <= tf_last_seen kv.2))
         (tracked_faces (tracker (update_tracking face_distance now ds tr))) /\
  result (update_tracking face_distance now ds tr) =
    ODict.values
      (tracked_faces (tracker (update_tracking face_distance now ds tr))).
Proof.
  intros Hc.
  destruct (update_tracking_spec now ds tr Hc) as (Hkept & Hres & _).
  split; [|exact Hres]. rewrite Hkept. apply Forall_forall. intros kv Hin.
  apply list_elem_of_filter in Hin as [Hfresh Hin].
  split; [lia|].
  apply list_elem_of_fmap in Hin as ([k tf] & -> & _). cbn.
  unfold age. destruct (decide _) as [[Hlt Ha]|Hn]; cbn; [discriminate|].
  intros Ha. destruct (Z.lt_ge_cases (tf_last_seen tf)
                         (now - max_tracking_time tr * usec_per_sec)); [|lia].
  exfalso. apply Hn. auto.
Qed.

(** *** Matching touches active faces only *)

Lemma matched_is_active (d : FaceDetection) (tr : Tracker) fid :
  match_detection_to_tracked_face face_distance d tr = Some fid ->
  exists tf, (fid, tf) ∈ tracked_faces tr /\ tf_status tf = active.
Proof.
  rewrite FaceTrackerFacts.match_detection_is_loop. intros H.
  apply FaceTrackerFacts.match_loop_Some in H
    as (before & tf & after & Hsplit & [Ha _] & _).
  exists tf. split; [|exact Ha]. rewrite Hsplit.
  apply elem_of_app. right. left.
Qed.

Lemma track_detection_keeps_inactive now (d : FaceDetection) (tr : Tracker)
    k tf :
  consistent tr ->
  (k, tf) ∈ tracked_faces tr -> tf_status tf <> active ->
  (k, tf) ∈ tracked_faces (track_detection face_distance now d tr).1 /\
  (track_detection face_distance now d tr).2 <> Matched k.
Proof.
  intros Hc Hin Hna. unfold track_detection.
  destruct (match_detection_to_tracked_face _ _ _) as [fid|] eqn:Hm;
    [destruct (decide (fid = ""))|]; cbn [fst snd tracked_faces].
  - pose proof (create_spec now d tr Hc) as Hcs. unfold fresh_face in Hcs.
    cbv zeta. rewrite Hcs. split; [|discriminate].
    apply elem_of_app. left. exact Hin.
  - destruct (matched_is_active d tr fid Hm) as (tf' & Hin' & Ha).
    assert (Hne : k <> fid).
    { intros ->. destruct Hc as (Hnd & _).
      rewrite (ODictFacts.unique_value fid tf tf' _ Hnd Hin Hin') in Hna.
      contradiction. }
    split; [apply ODictFacts.update_other; assumption|congruence].
  - pose proof (create_spec now d tr Hc) as Hcs. unfold fresh_face in Hcs.
    cbv zeta. rewrite Hcs. split; [|discriminate].
    apply elem_of_app. left. exact Hin.
Qed.

Lemma track_all_keeps_inactive now (ds : list FaceDetection) (tr : Tracker)
    k tf :
  consistent tr ->
  (k, tf) ∈ tracked_faces tr -> tf_status tf <> active ->
  (k, tf) ∈ tracked_faces (track_all face_distance now ds tr).1.1 /\
  Matched k ∉ (track_all face_distance now ds tr).2.
Proof.
  revert tr. induction ds as [|d ds IH]; intros tr Hc Hin Hna.
  - cbn. split; [exact Hin|]. apply not_elem_of_nil.
  - cbn [track_all].
    pose proof (consistent_track_detection now d tr Hc) as Hc1.
    pose proof (track_detection_keeps_inactive now d tr k tf Hc Hin Hna)
      as [Hin1 Ho].
    destruct (track_detection face_distance now d tr) as [tr1 o].
    cbn [fst snd] in *.
    specialize (IH tr1 Hc1 Hin1 Hna).
    destruct (track_all face_distance now ds tr1) as [[tr2 ls] os].
    cbn [fst snd] in *. destruct IH as [Hin2 Hos].
    split; [exact Hin2|]. apply not_elem_of_cons. split; [congruence|exact Hos].
Qed.

(** X26. The status lost is absorbing: in a consistent tracker a face
    that is not active is never matched by a detection, so
    [update_tracking] leaves it exactly as it is (same encodings, same
    last-seen time, same status) until it is purged, which happens exactly
    when it was last seen more than twice [max_tracking_time] ago.  A
    person whose face was lost therefore comes back under a new
    identity. *)
Theorem lost_face_is_never_refreshed (now : Z) (ds : list FaceDetection)
    (tr : Tracker) (k : string) (tf : TrackedFace) :
  consistent tr ->
  (k, tf) ∈ tracked_faces tr ->
  tf_status tf <> active ->
  (Matched k ∉ outcomes (update_tracking face_distance now ds tr)) /\
  (tf_last_seen tf < now - max_tracking_time tr * 2 * usec_per_sec ->
   k ∉ ODict.keys
         (tracked_faces (tracker (update_tracking face_distance now ds tr)))) /\
  (now - max_tracking_time tr * 2 * usec_per_sec <= tf_last_seen tf ->
   (k, tf) ∈ tracked_faces (tracker (update_tracking face_distance now ds tr))).
Proof.
  intros Hc Hin Hna.
  destruct (update_tracking_spec now ds tr Hc) as (Hkept & _ & _ & _ & Hout).
  destruct (track_all_keeps_inactive now ds tr k tf Hc Hin Hna) as [Hin1 Hno].
  destruct (consistent_track_all now ds tr Hc) as (Hnd & _).
  rewrite Hkept, Hout.
  assert (Haged : (k, tf) ∈ prod_map id
            (age (now - max_tracking_time tr * usec_per_sec)) <$>
            tracked_faces (track_all face_distance now ds tr).1.1).
  { apply list_elem_of_fmap. exists (k, tf). split; [|exact Hin1].
    unfold prod_map, age. cbn.
    destruct (decide _) as [[_ Ha]|_]; [contradiction|reflexivity]. }
  split; [exact Hno|]. split.
  - intros Hold Hk. unfold ODict.keys in Hk.
    apply list_elem_of_fmap in Hk as ([k' tf'] & Hk & Hin').
    cbn in Hk. subst k'.
    apply list_elem_of_filter in Hin' as [Hfresh Hin'].
    assert (tf = tf') as <-.
    { eapply ODictFacts.unique_value; [|exact Haged|exact Hin'].
      rewrite keys_aged. exact Hnd. }
    cbn in Hfresh. lia.
  - intros Hfresh. apply list_elem_of_filter. split; [cbn; lia|exact Haged].
Qed.

(** *** Every detection is labelled with a live identity *)

Lemma track_detection_live now (d : FaceDetection) (tr : Tracker) :
  consistent tr ->
  live_at now (tracked_faces (track_detection face_distance now d tr).1)
    (outcome_id (track_detection face_distance now d tr).2) /\
  (forall fid, live_at now (tracked_faces tr) fid ->
     live_at now (tracked_faces (track_detection face_distance now d tr).1) fid).
Proof.
  intros Hc. unfold track_detection.
  assert (Hcreate :
    live_at now (tracked_faces tr ++
                 [(face_id_of (next_face_id tr), fresh_face now d tr)])
      (face_id_of (next_face_id tr)) /\
    (forall fid, live_at now (tracked_faces tr) fid ->
       live_at now (tracked_faces tr ++
                    [(face_id_of (next_face_id tr), fresh_face now d tr)]) fid)).
  { split.
    - exists (fresh_face now d tr). split; [|split; reflexivity].
      apply elem_of_app. right. left.
    - intros fid (tf & Hin & Ha & Hs). exists tf. split; [|auto].
      apply elem_of_app. left. exact Hin. }
  destruct (match_detection_to_tracked_face _ _ _) as [fid|] eqn:Hm;
    [destruct (decide (fid = ""))|];
    cbn [fst snd tracked_faces outcome_id].
  - pose proof (create_spec now d tr Hc) as Hcs. unfold fresh_face in Hcs.
    cbv zeta. rewrite Hcs. exact Hcreate.
  - destruct Hc as (Hnd & _).
    destruct (matched_is_active d tr fid Hm) as (tf' & Hin' & _).
    split.
    + exists (refresh now (fd_encoding d) tf'). split; [|split; reflexivity].
      apply ODictFacts.update_hit; assumption.
    + intros k (tf & Hin & Ha & Hs).
      destruct (decide (k = fid)) as [->|Hne].
      * exists (refresh now (fd_encoding d) tf). split; [|split; reflexivity].
        apply ODictFacts.update_hit; assumption.
      * exists tf. split; [|auto]. apply ODictFacts.update_other; assumption.
  - pose proof (create_spec now d tr Hc) as Hcs. unfold fresh_face in Hcs.
    cbv zeta. rewrite Hcs. exact Hcreate.
Qed.

Lemma track_all_live now (ds : list FaceDetection) (tr : Tracker) :
  consistent tr ->
  Forall2 (fun d d' =>
             fd_bbox d' = fd_bbox d /\ fd_encoding d' = fd_encoding d /\
             fd_confidence d' = fd_confidence d /\
             fd_timestamp d' = fd_timestamp d /\
             exists fid, fd_face_id d' = Some fid /\
               live_at now
                 (tracked_faces (track_all face_distance now ds tr).1.1) fid)
          ds (track_all face_distance now ds tr).1.2 /\
  (forall fid, live_at now (tracked_faces tr) fid ->
     live_at now (tracked_faces (track_all face_distance now ds tr).1.1) fid).
Proof.
  revert tr. induction ds as [|d ds IH]; intros tr Hc.
  - cbn. split; [constructor|auto].
  - cbn [track_all].
    pose proof (consistent_track_detection now d tr Hc) as Hc1.
    pose proof (track_detection_live now d tr Hc) as [Hnew Hkeep].
    destruct (track_detection face_distance now d tr) as [tr1 o].
    cbn [fst snd] in *.
    specialize (IH tr1 Hc1).
    destruct (track_all face_distance now ds tr1) as [[tr2 ls] os].
    cbn [fst snd] in *. destruct IH as [Hall Hkeep2].
    split; [|intros fid Hl; apply Hkeep2, Hkeep, Hl].
    constructor; [|exact Hall].
    cbn. repeat split. exists (outcome_id o). split; [reflexivity|].
    apply Hkeep2, Hnew.
Qed.

(** X27. Every detection leaves [update_tracking] labelled with a live
    identity: in a consistent tracker with a non-negative
    [max_tracking_time], the labelled detections are the given ones in the
    same order with only [face_id] set, and each id is that of a tracked
    face that is in the tracker afterwards, active, with its last-seen
    time equal to the clock reading of this update. *)
Theorem detections_labelled_with_live_identity (now : Z)
    (ds : list FaceDetection) (tr : Tracker) :
  consistent tr ->
  0 <= max_tracking_time tr ->
  Forall2 (fun d d' =>
             fd_bbox d' = fd_bbox d /\ fd_encoding d' = fd_encoding d /\
             fd_confidence d' = fd_confidence d /\
             fd_timestamp d' = fd_timestamp d /\
             exists fid tf,
               fd_face_id d' = Some fid /\
               (fid, tf) ∈ tracked_faces
                 (tracker (update_tracking face_distance now ds tr)) /\
               tf_status tf = active /\ tf_last_seen tf = now)
          ds (labelled (update_tracking face_distance now ds tr)).
Proof.
  intros Hc Hmtt.
  destruct (update_tracking_spec now ds tr Hc) as (Hkept & _ & _ & Hlab & _).
  destruct (track_all_live now ds tr Hc) as [Hall _].
  rewrite Hlab, Hkept.
  eapply Forall2_impl; [exact Hall|]. cbn.
  intros d d' (H1 & H2 & H3 & H4 & fid & Hfid & tf & Hin & Ha & Hs).
  repeat split; auto. exists fid, tf. repeat split; auto.
  apply list_elem_of_filter. unfold usec_per_sec in *.
  split; [cbn; lia|].
  apply list_elem_of_fmap. exists (fid, tf). split; [|exact Hin].
  unfold prod_map, age. cbn.
  destruct (decide _) as [[Hlt _]|_]; [lia|reflexivity].
Qed.

End WithEncoder.

Lemma two_faces_consistent : consistent Samples.two_faces.
Proof.
  apply (consistent_update_tracking Samples.distance1).
  repeat split; [constructor|constructor|cbn; lia].
Qed.

Lemma no_stale_faces_after_update_witness :
  Forall (fun kv : string * @FaceTracker.TrackedFace Q =>
            tf_status kv.2 = active -> 50000000 - 10 * 1000000 <= tf_last_seen kv.2)
         (tracked_faces
            (tracker (update_tracking Samples.distance1 50000000
                        [Samples.face (1 # 2)] Samples.two_faces))).
Proof.
  destruct (no_stale_faces_after_update Samples.distance1 50000000
              [Samples.face (1 # 2)] Samples.two_faces two_faces_consistent)
    as [H _].
  eapply Forall_impl; [exact H|]. cbn. intros kv [_ Ha]. exact Ha.
Defined.

Lemma lost_face_is_never_refreshed_witness :
  Matched "face_0001" ∉
    outcomes
      (update_tracking Samples.distance1 16000000 [Samples.face 0]
         (tracker (update_tracking Samples.distance1 15000000 []
                     Samples.two_faces))).
Proof.
  apply (lost_face_is_never_refreshed Samples.distance1 16000000
           [Samples.face 0]
           (tracker (update_tracking Samples.distance1 15000000 []
                       Samples.two_faces))
           "face_0001"
           {| tf_face_id := "face_0001"; tf_encodings := [0%Q];
              tf_last_seen := 0; tf_first_seen := 0;
              tf_detection_count := 1; tf_status := lost |}).
  - apply (consistent_update_tracking Samples.distance1), two_faces_consistent.
  - vm_compute. left.
  - discriminate.
Defined.

Lemma detections_labelled_with_live_identity_witness :
  Forall2 (fun d d' => exists fid, fd_face_id d' = Some fid)
    [Samples.face (1 # 2)]
    (labelled (update_tracking Samples.distance1 1000000
                 [Samples.face (1 # 2)] Samples.two_faces)).
Proof.
  pose proof (detections_labelled_with_live_identity Samples.distance1 1000000
                [Samples.face (1 # 2)] Samples.two_faces two_faces_consistent
                ltac:(vm_compute; discriminate)) as H.
  eapply Forall2_impl; [exact H|]. cbn.
  intros d d' (_ & _ & _ & _ & fid & tf & Hfid & _). eauto.
Defined.

End TrackerFacts.

(* ===================================================================== *)
(** * The anti-fraud statistics *)
(* ===================================================================== *)

Module StatisticsFacts.
Import AntiFraud.

Section WithEncoder.
Context {Encoding : Type}.
Variable face_distance : Encoding -> Encoding -> Q.

Abbreviation FaceDetection := (@FaceTracker.FaceDetection Encoding).
Abbreviation Manager := (@AntiFraud.t Encoding).

Lemma validate_event_stats (e : ZoneEvent) (faces : list FaceDetection)
    (m : Manager) :
  false_positives_prevented (stats (validate_event e faces m).1) =
    false_positives_prevented (stats m) /\
  prevented_double_counts (stats (validate_event e faces m).1)
    + Z.of_nat (length (validate_event e faces m).2) =
    prevented_double_counts (stats m) + 1 /\
  (length (validate_event e faces m).2 <= 1)%nat.
Proof.
  unfold validate_event.
  destruct (match_zone_event_to_face e faces) as [fd|];
    [destruct (is_legitimate_event _ _ m)|]; cbn; repeat split; lia.
Qed.

Lemma validate_zone_events_stats (evs : list ZoneEvent)
    (faces : list FaceDetection) (m : Manager) :
  false_positives_prevented (stats (validate_zone_events evs faces m).1) =
    false_positives_prevented (stats m) /\
  prevented_double_counts (stats (validate_zone_events evs faces m).1)
    + Z.of_nat (length (validate_zone_events evs faces m).2) =
    prevented_double_counts (stats m) + Z.of_nat (length evs) /\
  (length (validate_zone_events evs faces m).2 <= length evs)%nat.
Proof.
  revert m. induction evs as [|e evs IH]; intros m.
  - cbn. repeat split; lia.
  - cbn [validate_zone_events].
    pose proof (validate_event_stats e faces m) as (Hf & Hp & Hl).
    destruct (validate_event e faces m) as [m1 out].
    specialize (IH m1).
    destruct (validate_zone_events evs faces m1) as [m2 outs].
    cbn [fst snd] in *. destruct IH as (Hf2 & Hp2 & Hl2).
    rewrite length_app. cbn [length]. repeat split; [congruence|lia|lia].
Qed.

Lemma apply_event_stats now (e : ZoneEvent) (m : Manager) :
  prevented_double_counts (stats (apply_event now e m)) =
    prevented_double_counts (stats m) /\
  false_positives_prevented (stats (apply_event now e m)) =
    false_positives_prevented (stats m) /\
  temporary_exits_handled (stats m)
    <= temporary_exits_handled (stats (apply_event now e m)) /\
  unique_passengers_seen (stats m)
    <= unique_passengers_seen (stats (apply_event now e m)) /\
  (temporary_exits_handled (stats (apply_event now e m))
     - temporary_exits_handled (stats m))
  + (unique_passengers_seen (stats (apply_event now e m))
     - unique_passengers_seen (stats m)) <= 1.
Proof.
  unfold apply_event.
  destruct (ze_face_id e) as [f|]; [|repeat split; lia].
  destruct (decide (f = "")); [repeat split; lia|].
  destruct (passenger_records m !! f) as [r|];
    [destruct (decide (ze_type e = "entry"));
       [destruct (decide (status r = temporary_exit))
       |destruct (decide (ze_type e = "exit"))]|];
    cbn; repeat split; lia.
Qed.

Lemma apply_events_stats now (evs : list ZoneEvent) (m : Manager) :
  prevented_double_counts (stats (apply_events now evs m)) =
    prevented_double_counts (stats m) /\
  false_positives_prevented (stats (apply_events now evs m)) =
    false_positives_prevented (stats m) /\
  temporary_exits_handled (stats m)
    <= temporary_exits_handled (stats (apply_events now evs m)) /\
  unique_passengers_seen (stats m)
    <= unique_passengers_seen (stats (apply_events now evs m)) /\
  (temporary_exits_handled (stats (apply_events now evs m))
     - temporary_exits_handled (stats m))
  + (unique_passengers_seen (stats (apply_events now evs m))
     - unique_passengers_seen (stats m)) <= Z.of_nat (length evs).
Proof.
  revert m. unfold apply_events.
  induction evs as [|e evs IH]; intros m; [cbn; repeat split; lia|].
  cbn [foldl length].
  destruct (apply_event_stats now e m) as (H1 & H2 & H3 & H4 & H5).
  destruct (IH (apply_event now e m)) as (I1 & I2 & I3 & I4 & I5).
  repeat split; try lia; congruence.
Qed.

(** X28. The anti-fraud statistics only grow, and within bounds: over one
    processing cycle [prevented_double_counts] grows by exactly the number
    of zone events that were not forwarded, [temporary_exits_handled] and
    [unique_passengers_seen] do not decrease and together grow by at most
    the number of validated events, and [false_positives_prevented] is
    never written. *)
Theorem statistics_only_grow (c : Cycle) (m m' : Manager)
    (validated : list ZoneEvent) :
  process_frame_with_detections face_distance c m = Some (m', validated) ->
  prevented_double_counts (stats m') =
    prevented_double_counts (stats m)
    + (Z.of_nat (length (cy_zone_events c)) - Z.of_nat (length validated)) /\
  (length validated <= length (cy_zone_events c))%nat /\
  temporary_exits_handled (stats m) <= temporary_exits_handled (stats m') /\
  unique_passengers_seen (stats m) <= unique_passengers_seen (stats m') /\
  (temporary_exits_handled (stats m') - temporary_exits_handled (stats m))
  + (unique_passengers_seen (stats m') - unique_passengers_seen (stats m))
    <= Z.of_nat (length validated) /\
  false_positives_prevented (stats m') = false_positives_prevented (stats m).
Proof.
  unfold process_frame_with_detections.
  set (tracking := FaceTracker.update_tracking _ _ _ _).
  set (m0 := {| face_tracker := FaceTracker.tracker tracking;
                passenger_records := passenger_records m;
                temporary_exit_timeout := temporary_exit_timeout m;
                stats := stats m |}).
  pose proof (validate_zone_events_stats (cy_zone_events c)
                (FaceTracker.labelled tracking) m0) as (Hf & Hp & Hl).
  pose proof (AntiFraudFacts.validate_zone_events_frame (cy_zone_events c)
                (FaceTracker.labelled tracking) m0) as (_ & _ & _ & Ht & Hu).
  destruct (validate_zone_events _ _ m0) as [m1 v].
  cbn [fst snd] in *. unfold update_passenger_records.
  destruct (silence_pass _ _ _) as [m2|] eqn:Hs; [|discriminate].
  intros [= <- <-].
  apply FusionFacts.silence_pass_frame in Hs as (_ & _ & Hst & _).
  cbn [cleanup_old_records with_records stats]. rewrite Hst.
  destruct (apply_events_stats (cy_t_update c) v m1) as (A1 & A2 & A3 & A4 & A5).
  subst m0. cbn [stats] in *.
  repeat split; try lia; congruence.
Qed.

End WithEncoder.

Lemma statistics_only_grow_witness :
  unique_passengers_seen (stats Samples.manager)
    <= unique_passengers_seen (stats Samples.boarded).
Proof.
  destruct (statistics_only_grow Samples.distance1 Samples.boarding
              Samples.manager Samples.boarded
              [set_face_id (Some "face_0001") (entry_event 0 Samples.person 0)]
              ltac:(vm_compute; reflexivity))
    as (_ & _ & _ & H & _).
  exact H.
Defined.

End StatisticsFacts.
